(** * Track path conditioning and adaptive corridor meshing

    A shallow embedding of the track pipeline of
    [src/gnodes_builder/templates.py]: path synthesis
    ([generate_custom_path]), path conditioning
    ([_resample_path_uniform], [_limit_path_curvature]), frames
    ([_compute_smooth_tangents]), the adaptive corridor profile
    ([_compute_curvature_radii], [_compute_turn_directions],
    [_get_adaptive_offsets]) and the mesh builders
    ([_create_track_along_path], [_create_barrier_along_path],
    [create_track_from_path]).

    Conventions of the embedding.
    - A Python [float] is a real number of [R]; [float('inf')] is the
      constructor [PosInf] of [xfloat].  Rounding, NaN and signed zeros
      are outside the model.
    - A Python [int] is an integer of [Z]; [%] on a positive modulus is
      [Z.modulo], [int(x)] truncates toward zero.
    - An operation that can raise ([math.sqrt], [math.acos],
      [math.asin], [/] by a computed divisor, [raise]) lives in the
      error monad [result]; division by a literal is plain [/].
    - A list mutated in place is threaded as a value and updated with
      [set_item].
    - The [bmesh] object is an explicit state holding the vertices and
      the faces in creation order; a vertex is named by its index. *)

From Stdlib Require Import Reals Lra Lia ZArith List String Bool Psatz.
Import ListNotations.
Local Open Scope R_scope.

(** ** Python runtime *)

Module Py.

Inductive exn : Type :=
| ValueError (msg : string)
| ZeroDivisionError
| IndexError.

Inductive result (A : Type) : Type :=
| Ok (a : A)
| Raise (e : exn).

Arguments Ok {A} a.
Arguments Raise {A} e.

Definition bind {A B : Type} (m : result A) (k : A -> result B) : result B :=
  match m with
  | Ok a => k a
  | Raise e => Raise e
  end.

Definition is_ok {A : Type} (m : result A) : Prop :=
  exists a, m = Ok a.

Fixpoint foldM {A S : Type} (f : S -> A -> result S) (l : list A) (s : S)
  : result S :=
  match l with
  | [] => Ok s
  | a :: l' => bind (f s a) (foldM f l')
  end.

Fixpoint mapM {A B : Type} (f : A -> result B) (l : list A)
  : result (list B) :=
  match l with
  | [] => Ok []
  | a :: l' => bind (f a) (fun b => bind (mapM f l') (fun bs => Ok (b :: bs)))
  end.

(** [x / y] with a computed divisor. *)
Definition py_div (x y : R) : result R :=
  if Req_dec_T y 0 then Raise ZeroDivisionError else Ok (x / y).

(** [math.sqrt], [math.acos], [math.asin]. *)
Definition py_sqrt (x : R) : result R :=
  if Rlt_dec x 0 then Raise (ValueError "math domain error") else Ok (sqrt x).

Definition py_acos (x : R) : result R :=
  if Rlt_dec x (-1) then Raise (ValueError "math domain error")
  else if Rlt_dec 1 x then Raise (ValueError "math domain error")
  else Ok (acos x).

Definition py_asin (x : R) : result R :=
  if Rlt_dec x (-1) then Raise (ValueError "math domain error")
  else if Rlt_dec 1 x then Raise (ValueError "math domain error")
  else Ok (asin x).

(** [math.atan2 y x], with [atan2 0 0 = 0]. *)
Definition atan2 (y x : R) : R :=
  if Rlt_dec 0 x then atan (y / x)
  else if Rlt_dec x 0 then
    (if Rle_dec 0 y then atan (y / x) + PI else atan (y / x) - PI)
  else if Rlt_dec 0 y then PI / 2
  else if Rlt_dec y 0 then - (PI / 2)
  else 0.

(** [int(x)] of a float. *)
Definition py_int (x : R) : Z :=
  if Rle_dec 0 x then Int_part x else (- Int_part (- x))%Z.

(** [range(lo, hi)] and [range(n)]. *)
Definition range (lo hi : Z) : list Z :=
  map (fun k => (lo + Z.of_nat k)%Z) (seq 0 (Z.to_nat (hi - lo))).

Definition range0 (n : Z) : list Z := range 0 n.

(** [l[i]] for an index known to lie in [0 .. len(l) - 1]: every
    subscript of a path in the modelled code is a loop index or a
    remainder modulo the length. *)
Definition item {A : Type} (d : A) (l : list A) (i : Z) : A :=
  nth (Z.to_nat i) l d.

(** [l[i]] with the bound check of the interpreter. *)
Definition getitem {A : Type} (l : list A) (i : Z) : result A :=
  if (i <? 0)%Z then Raise IndexError
  else match nth_error l (Z.to_nat i) with
       | Some a => Ok a
       | None => Raise IndexError
       end.

(** [l[i] = v] in place. *)
Fixpoint set_nth {A : Type} (l : list A) (k : nat) (v : A) : list A :=
  match l, k with
  | [], _ => []
  | _ :: l', O => v :: l'
  | a :: l', S k' => a :: set_nth l' k' v
  end.

Definition set_item {A : Type} (l : list A) (i : Z) (v : A) : list A :=
  set_nth l (Z.to_nat i) v.

(** [while cond: body], run for at most [fuel] rounds. *)
Fixpoint while_loop {S : Type} (fuel : nat) (cond : S -> bool)
  (body : S -> S) (s : S) : S :=
  match fuel with
  | O => s
  | Datatypes.S fuel' =>
      if cond s then while_loop fuel' cond body (body s) else s
  end.

End Py.

Export Py.

Notation "x <- m ;; k" := (bind m (fun x => k))
  (at level 61, m at next level, right associativity).
Notation "' p <- m ;; k" := (bind m (fun p => k))
  (at level 61, p pattern, m at next level, right associativity).

(** ** Data model *)

(** A float that may be [float('inf')]. *)
Inductive xfloat : Type :=
| Finite (r : R)
| PosInf.

Definition point2 : Type := (R * R)%type.
Definition point3 : Type := (R * R * R)%type.

Definition c0 (p : point3) : R := fst (fst p).
Definition c1 (p : point3) : R := snd (fst p).
Definition c2 (p : point3) : R := snd p.

Definition origin : point3 := (0, 0, 0).

(** The ground position of a sample, without its elevation. *)
Definition xy (p : point3) : point2 := (c0 p, c1 p).

Definition len {A : Type} (l : list A) : Z := Z.of_nat (List.length l).

(** [a > b], [min(a, b)], [a * k] and [a - k] where [a] may be infinite
    and [b], [k] are finite ([k] positive in the product). *)
Definition xgt (a : xfloat) (b : R) : bool :=
  match a with
  | Finite r => if Rgt_dec r b then true else false
  | PosInf => true
  end.

Definition xmin (a b : xfloat) : xfloat :=
  match a, b with
  | Finite x, Finite y => Finite (Rmin x y)
  | Finite x, PosInf => Finite x
  | PosInf, Finite y => Finite y
  | PosInf, PosInf => PosInf
  end.

Definition xmul (a : xfloat) (k : R) : xfloat :=
  match a with
  | Finite r => Finite (r * k)
  | PosInf => PosInf
  end.

Definition xsub (a : xfloat) (k : R) : xfloat :=
  match a with
  | Finite r => Finite (r - k)
  | PosInf => PosInf
  end.

Definition min_fin (h : R) (a : xfloat) : R :=
  match a with
  | Finite r => Rmin h r
  | PosInf => h
  end.

(** ** Adaptive corridor profile *)

Module Corridor.

Definition _compute_curvature_radius (path_points : list point3) (index : Z)
  : result xfloat :=
  let n := len path_points in
  if (n <? 3)%Z then Ok PosInf else
  let prev_i := ((index - 1) mod n)%Z in
  let next_i := ((index + 1) mod n)%Z in
  let p0 := item origin path_points prev_i in
  let p1 := item origin path_points index in
  let p2 := item origin path_points next_i in
  a <- py_sqrt ((c0 p1 - c0 p2) ^ 2 + (c1 p1 - c1 p2) ^ 2) ;;
  b <- py_sqrt ((c0 p0 - c0 p2) ^ 2 + (c1 p0 - c1 p2) ^ 2) ;;
  c <- py_sqrt ((c0 p0 - c0 p1) ^ 2 + (c1 p0 - c1 p1) ^ 2) ;;
  let s := (a + b + c) / 2 in
  let area_sq := s * (s - a) * (s - b) * (s - c) in
  if Rle_dec area_sq 0 then Ok PosInf else
  area <- py_sqrt area_sq ;;
  if Rlt_dec area 0.0001 then Ok PosInf else
  radius <- py_div (a * b * c) (4 * area) ;;
  Ok (Finite radius).

(** The inner loop of the smoothing pass: the minimum of the raw radii
    over the window around [i]. *)
Definition window_min (raw_radii : list xfloat) (n : Z) (smoothing_window : Z)
  (i : Z) : xfloat :=
  fold_left
    (fun min_r offset =>
       let idx := ((i + offset) mod n)%Z in
       xmin min_r (item PosInf raw_radii idx))
    (range (- smoothing_window) (smoothing_window + 1))
    (item PosInf raw_radii i).

Definition _compute_curvature_radii (path_points : list point3)
  (smoothing_window : Z) : result (list xfloat) :=
  let n := len path_points in
  raw_radii <- mapM (_compute_curvature_radius path_points) (range0 n) ;;
  Ok (map (window_min raw_radii n smoothing_window) (range0 n)).

Definition _get_adaptive_offsets (curvature_radius : xfloat) (half_width : R)
  (turn_direction : R) : R * R :=
  if xgt curvature_radius (half_width * 3) then (half_width, half_width)
  else
    let safe_inner_offset :=
      Rmax 0.1 (min_fin half_width (xsub (xmul curvature_radius 0.85) 0.1)) in
    if Rgt_dec turn_direction 0.001 then (safe_inner_offset, half_width)
    else if Rlt_dec turn_direction (-0.001) then (half_width, safe_inner_offset)
    else (half_width, half_width).

Definition turn_direction_at (path_points : list point3) (n : Z) (i : Z) : R :=
  let prev_i := ((i - 1) mod n)%Z in
  let next_i := ((i + 1) mod n)%Z in
  let dx1 := c0 (item origin path_points i) - c0 (item origin path_points prev_i) in
  let dy1 := c1 (item origin path_points i) - c1 (item origin path_points prev_i) in
  let dx2 := c0 (item origin path_points next_i) - c0 (item origin path_points i) in
  let dy2 := c1 (item origin path_points next_i) - c1 (item origin path_points i) in
  dx1 * dy2 - dy1 * dx2.

Definition _compute_turn_directions (path_points : list point3)
  (tangents : list point2) : list R :=
  let n := len path_points in
  map (turn_direction_at path_points n) (range0 n).

(** The per-sample offsets as both mesh builders compute them. *)
Definition adaptive_offsets_of_path (path_points : list point3)
  (tangents : list point2) (half_width : R) : result (list (R * R)) :=
  curvature_radii <- _compute_curvature_radii path_points 2 ;;
  let turn_directions := _compute_turn_directions path_points tangents in
  Ok (map (fun i => _get_adaptive_offsets (item PosInf curvature_radii i)
                      half_width (item 0 turn_directions i))
          (range0 (len path_points))).

End Corridor.

(** ** Frame computer *)

Module Frame.

(** First pass: the distance-weighted average direction at sample [i],
    normalised, with the fallback of the source for a short sum. *)
Definition raw_tangent_at (path_points : list point3) (n : Z)
  (smoothing_window : Z) (i : Z) : result point2 :=
  '(tx_sum, ty_sum, weight_sum) <-
    foldM (fun '(tx_sum, ty_sum, weight_sum) offset =>
             let prev_i := ((i - offset) mod n)%Z in
             let next_i := ((i + offset) mod n)%Z in
             let p_prev := item origin path_points prev_i in
             let p_next := item origin path_points next_i in
             let dx := c0 p_next - c0 p_prev in
             let dy := c1 p_next - c1 p_prev in
             weight <- py_div 1 (IZR offset) ;;
             Ok (tx_sum + dx * weight, ty_sum + dy * weight, weight_sum + weight))
          (range 1 (smoothing_window + 1)) (0, 0, 0) ;;
  '(tx_sum, ty_sum) <-
    (if Rgt_dec weight_sum 0 then
       tx <- py_div tx_sum weight_sum ;;
       ty <- py_div ty_sum weight_sum ;;
       Ok (tx, ty)
     else Ok (tx_sum, ty_sum)) ;;
  length <- py_sqrt (tx_sum * tx_sum + ty_sum * ty_sum) ;;
  if Rgt_dec length 0.001 then
    tx <- py_div tx_sum length ;;
    ty <- py_div ty_sum length ;;
    Ok (tx, ty)
  else Ok (1, 0).

Definition raw_tangents (path_points : list point3) (smoothing_window : Z)
  : result (list point2) :=
  let n := len path_points in
  mapM (raw_tangent_at path_points n smoothing_window) (range0 n).

Definition smooth_radius : Z := 2.

(** Rounds that the loop [while diff > pi: diff -= 2 * pi] (and its
    mirror image) can need from [diff]. *)
Definition unwrap_fuel (diff : R) : nat := Z.to_nat (up (diff / (2 * PI))).

(** The angle [angle] moved to within [pi] of [base_angle]. *)
Definition unwrap (base_angle angle : R) : R :=
  let diff := angle - base_angle in
  let diff :=
    while_loop (unwrap_fuel diff)
      (fun d => if Rgt_dec d PI then true else false)
      (fun d => d - 2 * PI) diff in
  let diff :=
    while_loop (unwrap_fuel (- diff))
      (fun d => if Rlt_dec d (- PI) then true else false)
      (fun d => d + 2 * PI) diff in
  base_angle + diff.

Definition sum (l : list R) : R := fold_left Rplus l 0.

(** Second pass: the weighted mean of the unwrapped angles around [i]. *)
Definition smoothed_tangent_at (raw : list point2) (n : Z) (i : Z)
  : result point2 :=
  let offsets := range (- smooth_radius) (smooth_radius + 1) in
  let angles :=
    map (fun offset =>
           let idx := ((i + offset) mod n)%Z in
           let '(tx, ty) := item (0, 0) raw idx in
           atan2 ty tx) offsets in
  weights <- mapM (fun offset => py_div 1 (IZR (1 + Z.abs offset))) offsets ;;
  let base_angle := item 0 angles smooth_radius in
  let adjusted_angles := map (unwrap base_angle) angles in
  avg_angle <-
    py_div (sum (map (fun '(a, w) => a * w) (combine adjusted_angles weights)))
           (sum weights) ;;
  Ok (cos avg_angle, sin avg_angle).

Definition _compute_smooth_tangents (path_points : list point3)
  (smoothing_window : Z) : result (list point2) :=
  let n := len path_points in
  raw <- raw_tangents path_points smoothing_window ;;
  mapM (smoothed_tangent_at raw n) (range0 n).

End Frame.

(** ** Corridor mesh builder *)

Module Mesh.

Import Corridor Frame.

(** The mesh under construction: vertex coordinates and faces (lists of
    vertex indices) in creation order. *)
Record bmesh : Type := mk_bmesh {
  verts : list point3;
  faces : list (list nat)
}.

Definition bmesh_new : bmesh := mk_bmesh [] [].

(** [bm.verts.new(co)]: the new vertex is the next index. *)
Definition verts_new (bm : bmesh) (co : point3) : bmesh * nat :=
  (mk_bmesh (verts bm ++ [co]) (faces bm), List.length (verts bm)).

(** [bm.faces.new(vs)]. *)
Definition faces_new (bm : bmesh) (vs : list nat) : bmesh :=
  mk_bmesh (verts bm) (faces bm ++ [vs]).

Record object : Type := mk_object {
  obj_name : string;
  obj_mesh : bmesh
}.

Definition enumerate {A : Type} (l : list A) : list (Z * A) :=
  combine (range0 (len l)) l.

(** The four faces that join section [i] to section [(i + 1) % n]. *)
Definition stitch (all_sections : list (list nat)) (n : Z) (bm : bmesh) (i : Z)
  : bmesh :=
  let j := ((i + 1) mod n)%Z in
  let s1 := item [] all_sections i in
  let s2 := item [] all_sections j in
  let v s k := item O s k in
  let bm := faces_new bm [v s1 0%Z; v s2 0%Z; v s2 1%Z; v s1 1%Z] in
  let bm := faces_new bm [v s1 3%Z; v s1 2%Z; v s2 2%Z; v s2 3%Z] in
  let bm := faces_new bm [v s1 3%Z; v s2 3%Z; v s2 0%Z; v s1 0%Z] in
  let bm := faces_new bm [v s1 1%Z; v s2 1%Z; v s2 2%Z; v s1 2%Z] in
  bm.

(** One round of the section loop of [_create_track_along_path]. *)
Definition track_section (tangents : list point2)
  (offsets : Z -> R * R) (thickness : R)
  (st : bmesh * list (list nat)) (ip : Z * point3)
  : bmesh * list (list nat) :=
  let '(bm, all_sections) := st in
  let '(i, point) := ip in
  let '(x, y, z) := point in
  let '(tx, ty) := item (0, 0) tangents i in
  let px := - ty in
  let py := tx in
  let '(left_offset, right_offset) := offsets i in
  let '(bm, left_top) :=
    verts_new bm (x + px * left_offset, y + py * left_offset, z + thickness) in
  let '(bm, right_top) :=
    verts_new bm (x - px * right_offset, y - py * right_offset, z + thickness) in
  let '(bm, right_bottom) :=
    verts_new bm (x - px * right_offset, y - py * right_offset, z) in
  let '(bm, left_bottom) :=
    verts_new bm (x + px * left_offset, y + py * left_offset, z) in
  (bm, all_sections ++ [[left_top; right_top; right_bottom; left_bottom]]).

Definition _create_track_along_path (name : string)
  (path_points : list point3) (width thickness : R) (adaptive_width : bool)
  : result object :=
  let n := len path_points in
  if (n <? 3)%Z then Raise (ValueError "路径至少需要3个点") else
  let bm := bmesh_new in
  let smoothing_window := Z.max 3 (n / 20) in
  tangents <- _compute_smooth_tangents path_points smoothing_window ;;
  let half_width := width / 2 in
  '(curvature_radii, turn_directions) <-
    (if adaptive_width then
       curvature_radii <- _compute_curvature_radii path_points 2 ;;
       Ok (curvature_radii, _compute_turn_directions path_points tangents)
     else Ok ([], [])) ;;
  let offsets i :=
    if adaptive_width then
      _get_adaptive_offsets (item PosInf curvature_radii i) half_width
        (item 0 turn_directions i)
    else (half_width, half_width) in
  let '(bm, all_sections) :=
    fold_left (track_section tangents offsets thickness)
      (enumerate path_points) (bm, []) in
  let bm := fold_left (stitch all_sections n) (range0 n) bm in
  Ok (mk_object name bm).

(** One round of the section loop of [_create_barrier_along_path]. *)
Definition barrier_section (tangents : list point2)
  (actual_offset : Z -> R) (half_width height base_height : R)
  (st : bmesh * list (list nat)) (ip : Z * point3)
  : bmesh * list (list nat) :=
  let '(bm, all_sections) := st in
  let '(i, point) := ip in
  let '(x, y, z) := point in
  let '(tx, ty) := item (0, 0) tangents i in
  let px := - ty in
  let py := tx in
  let cx := x + px * actual_offset i in
  let cy := y + py * actual_offset i in
  let cz := z + base_height in
  let '(bm, outer_top) :=
    verts_new bm (cx + px * half_width, cy + py * half_width, cz + height) in
  let '(bm, inner_top) :=
    verts_new bm (cx - px * half_width, cy - py * half_width, cz + height) in
  let '(bm, inner_bottom) :=
    verts_new bm (cx - px * half_width, cy - py * half_width, cz) in
  let '(bm, outer_bottom) :=
    verts_new bm (cx + px * half_width, cy + py * half_width, cz) in
  (bm, all_sections ++ [[outer_top; inner_top; inner_bottom; outer_bottom]]).

Definition _create_barrier_along_path (name : string)
  (path_points : list point3) (offset width height base_height : R)
  (track_half_width : option R) (adaptive_offset : bool) : result object :=
  let n := len path_points in
  let bm := bmesh_new in
  let smoothing_window := Z.max 3 (n / 20) in
  tangents <- _compute_smooth_tangents path_points smoothing_window ;;
  '(adaptive, curvature_radii, turn_directions) <-
    match adaptive_offset, track_half_width with
    | true, Some _ =>
        curvature_radii <- _compute_curvature_radii path_points 2 ;;
        Ok (true, curvature_radii, _compute_turn_directions path_points tangents)
    | _, _ => Ok (false, [], [])
    end ;;
  let half_width := width / 2 in
  let actual_offset i :=
    match adaptive, track_half_width with
    | true, Some thw =>
        let '(left_track_offset, right_track_offset) :=
          _get_adaptive_offsets (item PosInf curvature_radii i) thw
            (item 0 turn_directions i) in
        if Rgt_dec offset 0 then left_track_offset + half_width
        else - (right_track_offset + half_width)
    | _, _ => offset
    end in
  let '(bm, all_sections) :=
    fold_left (barrier_section tangents actual_offset half_width height base_height)
      (enumerate path_points) (bm, []) in
  let bm := fold_left (stitch all_sections n) (range0 n) bm in
  Ok (mk_object name bm).

End Mesh.

(** ** Path synthesizer *)

Module Synth.

Definition angle_diff (dx1 dy1 dx2 dy2 : R) : result R :=
  len1 <- py_sqrt (dx1 * dx1 + dy1 * dy1) ;;
  len2 <- py_sqrt (dx2 * dx2 + dy2 * dy2) ;;
  if Rlt_dec len1 0.001 then Ok 0
  else if Rlt_dec len2 0.001 then Ok 0
  else
    ux1 <- py_div dx1 len1 ;;
    uy1 <- py_div dy1 len1 ;;
    ux2 <- py_div dx2 len2 ;;
    uy2 <- py_div dy2 len2 ;;
    Ok (Rabs (ux1 * uy2 - uy1 * ux2)).

Definition _estimate_section_curvature (p0 p1 p2 p3 : point2) : result R :=
  let dx1 := fst p1 - fst p0 in
  let dy1 := snd p1 - snd p0 in
  let dx2 := fst p2 - fst p1 in
  let dy2 := snd p2 - snd p1 in
  let dx3 := fst p3 - fst p2 in
  let dy3 := snd p3 - snd p2 in
  a12 <- angle_diff dx1 dy1 dx2 dy2 ;;
  a23 <- angle_diff dx2 dy2 dx3 dy3 ;;
  Ok (Rmax a12 a23).

Definition catmull_rom (p0 p1 p2 p3 t : R) : R :=
  let t2 := t * t in
  let t3 := t2 * t in
  0.5 * ((2 * p1) +
         (- p0 + p2) * t +
         (2 * p0 - 5 * p1 + 4 * p2 - p3) * t2 +
         (- p0 + 3 * p1 - 3 * p2 + p3) * t3).

(** One round of the loop over the control points: the section from
    waypoint [i] to waypoint [i + 1]. *)
Definition section_points (waypoints : list point2) (height_profile : list R)
  (n : Z) (segments_per_section : Z) (adaptive_subdivision : bool) (i : Z)
  : result (list point3) :=
  let p0 := item (0, 0) waypoints ((i - 1) mod n)%Z in
  let p1 := item (0, 0) waypoints i in
  let p2 := item (0, 0) waypoints ((i + 1) mod n)%Z in
  let p3 := item (0, 0) waypoints ((i + 2) mod n)%Z in
  h0 <- getitem height_profile ((i - 1) mod n)%Z ;;
  h1 <- getitem height_profile i ;;
  h2 <- getitem height_profile ((i + 1) mod n)%Z ;;
  h3 <- getitem height_profile ((i + 2) mod n)%Z ;;
  actual_segments <-
    (if adaptive_subdivision then
       curvature <- _estimate_section_curvature p0 p1 p2 p3 ;;
       let curvature_multiplier := 1 + curvature * 2 in
       Ok (py_int (IZR segments_per_section * Rmin 3 curvature_multiplier))
     else Ok segments_per_section) ;;
  mapM (fun j =>
          t <- py_div (IZR j) (IZR actual_segments) ;;
          let x := catmull_rom (fst p0) (fst p1) (fst p2) (fst p3) t in
          let y := catmull_rom (snd p0) (snd p1) (snd p2) (snd p3) t in
          let z := catmull_rom h0 h1 h2 h3 t in
          Ok (x, y, z))
       (range0 actual_segments).

Definition generate_custom_path (waypoints : list point2)
  (height_profile : option (list R)) (segments_per_section : Z)
  (adaptive_subdivision : bool) : result (list point3) :=
  let n := len waypoints in
  if (n <? 3)%Z then Raise (ValueError "至少需要3个控制点") else
  let height_profile :=
    match height_profile with
    | None => repeat 0 (Z.to_nat n)
    | Some h => h
    end in
  foldM (fun points i =>
           section <- section_points waypoints height_profile n
                        segments_per_section adaptive_subdivision i ;;
           Ok (points ++ section))
        (range0 n) [].

End Synth.

(** ** Path conditioner *)

Module Conditioner.

(** *** Uniform resampling *)

Definition segment_length_at (path : list point3) (n : Z) (i : Z) : result R :=
  let j := ((i + 1) mod n)%Z in
  let dx := c0 (item origin path j) - c0 (item origin path i) in
  let dy := c1 (item origin path j) - c1 (item origin path i) in
  let dz := c2 (item origin path j) - c2 (item origin path i) in
  py_sqrt (dx * dx + dy * dy + dz * dz).

(** Rounds that the segment-advancing loop can need: each round takes
    more than [0.001] off [segment_progress]. *)
Definition advance_fuel (segment_progress : R) : nat :=
  Z.to_nat (up (segment_progress / 0.001)).

(** [while segment_progress >= segment_lengths[current_segment] and
           segment_lengths[current_segment] > 0.001: ...] *)
Definition advance (segment_lengths : list R) (n : Z) (st : R * Z) : R * Z :=
  while_loop (advance_fuel (fst st))
    (fun '(segment_progress, current_segment) =>
       (if Rge_dec segment_progress (item 0 segment_lengths current_segment)
        then true else false)
       && (if Rgt_dec (item 0 segment_lengths current_segment) 0.001
           then true else false))
    (fun '(segment_progress, current_segment) =>
       (segment_progress - item 0 segment_lengths current_segment,
        ((current_segment + 1) mod n)%Z))
    st.

(** One round of the sampling loop. *)
Definition resample_step (path : list point3) (segment_lengths : list R)
  (n : Z) (target_spacing : R) (st : list point3 * Z * R) (_ : Z)
  : result (list point3 * Z * R) :=
  let '(resampled, current_segment, segment_progress) := st in
  let '(segment_progress, current_segment) :=
    advance segment_lengths n (segment_progress, current_segment) in
  t <- (if Rgt_dec (item 0 segment_lengths current_segment) 0.001 then
          py_div segment_progress (item 0 segment_lengths current_segment)
        else Ok 0) ;;
  let i := current_segment in
  let j := ((i + 1) mod n)%Z in
  let x := c0 (item origin path i)
           + (c0 (item origin path j) - c0 (item origin path i)) * t in
  let y := c1 (item origin path i)
           + (c1 (item origin path j) - c1 (item origin path i)) * t in
  let z := c2 (item origin path i)
           + (c2 (item origin path j) - c2 (item origin path i)) * t in
  Ok (resampled ++ [(x, y, z)], current_segment, segment_progress + target_spacing).

Definition _resample_path_uniform (path : list point3)
  (target_spacing : option R) (min_points : Z) : result (list point3) :=
  let n := len path in
  if (n <? 3)%Z then Ok path else
  segment_lengths <- mapM (segment_length_at path n) (range0 n) ;;
  let total_length := fold_left Rplus segment_lengths 0 in
  target_points <-
    match target_spacing with
    | None => Ok (Z.max (Z.max min_points n) (py_int (total_length / 2)))
    | Some spacing =>
        q <- py_div total_length spacing ;;
        Ok (Z.max min_points (py_int q))
    end ;;
  target_spacing <- py_div total_length (IZR target_points) ;;
  '(resampled, _, _) <-
    foldM (resample_step path segment_lengths n target_spacing)
      (range0 target_points) ([], 0%Z, 0) ;;
  Ok resampled.

(** *** Curvature limiting *)

Definition get_turn_angle (points : list point3) (n : Z) (i : Z)
  : result (R * R * R) :=
  let prev_i := ((i - 1) mod n)%Z in
  let next_i := ((i + 1) mod n)%Z in
  let dx1 := c0 (item origin points i) - c0 (item origin points prev_i) in
  let dy1 := c1 (item origin points i) - c1 (item origin points prev_i) in
  len1 <- py_sqrt (dx1 * dx1 + dy1 * dy1) ;;
  let dx2 := c0 (item origin points next_i) - c0 (item origin points i) in
  let dy2 := c1 (item origin points next_i) - c1 (item origin points i) in
  len2 <- py_sqrt (dx2 * dx2 + dy2 * dy2) ;;
  if Rlt_dec len1 0.001 then Ok (0, 0, 0)
  else if Rlt_dec len2 0.001 then Ok (0, 0, 0)
  else
    ux1 <- py_div dx1 len1 ;;
    uy1 <- py_div dy1 len1 ;;
    ux2 <- py_div dx2 len2 ;;
    uy2 <- py_div dy2 len2 ;;
    let dot := ux1 * ux2 + uy1 * uy2 in
    let cross := ux1 * uy2 - uy1 * ux2 in
    let dot := Rmax (-1) (Rmin 1 dot) in
    angle <- py_acos dot ;;
    let avg_len := (len1 + len2) / 2 in
    Ok (angle, avg_len, cross).

Definition get_safe_angle (half_width : R) (segment_length : R) : result R :=
  if Rlt_dec segment_length 0.001 then Ok 0.1 else
  ratio <- py_div segment_length (2 * half_width) ;;
  if Rge_dec ratio 1 then Ok (PI * 0.4)
  else
    let safe_sin := ratio * 0.8 in
    let safe_sin := Rmax 0.05 (Rmin 0.99 safe_sin) in
    a <- py_asin safe_sin ;;
    Ok (2 * a).

(** The sample [p] moved toward [(avg_x, avg_y, avg_z)] by
    [smooth_factor]. *)
Definition pull (p : point3) (avg_x avg_y avg_z smooth_factor : R) : point3 :=
  (c0 p + (avg_x - c0 p) * smooth_factor,
   c1 p + (avg_y - c1 p) * smooth_factor,
   c2 p + (avg_z - c2 p) * smooth_factor).

(** One round of the inner loop: the visit of sample [i] in the current
    state of [points]. *)
Definition relax_visit (half_width : R) (n : Z) (st : list point3 * R) (i : Z)
  : result (list point3 * R) :=
  let '(points, max_excess) := st in
  '(angle, seg_len, direction) <- get_turn_angle points n i ;;
  safe_angle <- get_safe_angle half_width seg_len ;;
  if Rgt_dec angle safe_angle then
    let excess := angle - safe_angle in
    let max_excess := Rmax max_excess excess in
    let prev_i := ((i - 1) mod n)%Z in
    let next_i := ((i + 1) mod n)%Z in
    let avg_x := (c0 (item origin points prev_i) + c0 (item origin points next_i)) / 2 in
    let avg_y := (c1 (item origin points prev_i) + c1 (item origin points next_i)) / 2 in
    let avg_z := (c2 (item origin points prev_i) + c2 (item origin points next_i)) / 2 in
    let smooth_factor := Rmin 0.3 (excess / PI) in
    Ok (set_item points i (pull (item origin points i) avg_x avg_y avg_z smooth_factor),
        max_excess)
  else Ok (points, max_excess).

(** One round of the outer loop: the sweep over all samples, returning
    the updated points and [max_excess]. *)
Definition sweep (half_width : R) (n : Z) (points : list point3)
  : result (list point3 * R) :=
  foldM (relax_visit half_width n) (range0 n) (points, 0).

(** The outer loop, for [iterations] rounds at most.  Next to the
    points it returns the [max_excess] of every sweep it ran, in order;
    the source keeps only the points. *)
Fixpoint relax (half_width : R) (n : Z) (iterations : nat)
  (points : list point3) : result (list point3 * list R) :=
  match iterations with
  | O => Ok (points, [])
  | S iterations' =>
      '(points', max_excess) <- sweep half_width n points ;;
      if Rlt_dec max_excess 0.01 then Ok (points', [max_excess])
      else
        '(final, log) <- relax half_width n iterations' points' ;;
        Ok (final, max_excess :: log)
  end.

Definition limit_path_curvature_log (path : list point3) (track_width : R)
  (max_iterations : Z) : result (list point3 * list R) :=
  let n := len path in
  if (n <? 4)%Z then Ok (path, []) else
  let points := path in
  let half_width := track_width / 2 in
  relax half_width n (Z.to_nat max_iterations) points.

Definition _limit_path_curvature (path : list point3) (track_width : R)
  (max_iterations : Z) : result (list point3) :=
  '(points, _) <- limit_path_curvature_log path track_width max_iterations ;;
  Ok points.

End Conditioner.

(** ** The pipeline *)

Module Pipeline.

Import Corridor Frame Mesh Conditioner.

Definition create_track_from_path (name : string) (path : list point3)
  (track_width track_thickness barrier_height barrier_width : R)
  (include_barriers : bool) (location : point3) (resample : bool)
  : result (list object) :=
  let objects := [] in
  let '(x, y, z) := location in
  path <- (if resample then
             _resample_path_uniform path (Some (track_width / 3)) 100
           else Ok path) ;;
  path <- _limit_path_curvature path track_width 50 ;;
  let offset_path := map (fun '(px, py, pz) => (px + x, py + y, pz + z)) path in
  track_surface <-
    _create_track_along_path (name ++ "_Surface") offset_path
      track_width track_thickness true ;;
  let objects := objects ++ [track_surface] in
  if include_barriers then
    let half_width := track_width / 2 in
    outer_barrier <-
      _create_barrier_along_path (name ++ "_Outer_Barrier") offset_path
        (half_width + barrier_width / 2) barrier_width barrier_height
        track_thickness (Some half_width) true ;;
    let objects := objects ++ [outer_barrier] in
    inner_barrier <-
      _create_barrier_along_path (name ++ "_Inner_Barrier") offset_path
        (- (half_width + barrier_width / 2)) barrier_width barrier_height
        track_thickness (Some half_width) true ;;
    let objects := objects ++ [inner_barrier] in
    Ok objects
  else Ok objects.

End Pipeline.

(** ** Sample inputs *)

Module Inputs.

(** A small right triangle with the sides 0.03, 0.04 and 0.05, walked
    counter-clockwise. *)
Definition small_triangle : list point3 :=
  [(0, 0, 0); (0.03, 0, 0); (0.03, 0.04, 0)].

(** The same triangle at another elevation profile. *)
Definition small_triangle_raised : list point3 :=
  [(0, 0, 1); (0.03, 0, 2); (0.03, 0.04, 5)].

(** A square of side 10. *)
Definition square : list point3 :=
  [(0, 0, 0); (10, 0, 0); (10, 10, 0); (0, 10, 0)].

(** A path whose first sample is repeated; its sides are 0, 3, 4
    and 5. *)
Definition doubled_start : list point3 :=
  [(0, 0, 0); (0, 0, 0); (3, 0, 0); (3, 4, 0)].

(** Three samples, the last two at one place. *)
Definition repeated_pair : list point3 :=
  [(0, 0, 0); (0, 1, 0); (0, 1, 0)].

(** A closed path with a right-angle corner at its second sample,
    followed by a corner that turns by [sharp_turn], 0.005 more than
    [pi * 0.4]; its first and its fourth sample are repeated. *)
Definition sharp_turn : R := PI * 0.4 + 0.005.

Definition kinked : list point3 :=
  [(0, -1, 0); (0, 0, 0); (1, 0, 0);
   (9, - (8 * tan sharp_turn), 0); (9, - (8 * tan sharp_turn), 0); (0, -1, 0)].

End Inputs.

(** ** Vocabulary of the statements *)

Module Vocabulary.

(** The four vertices of the profile at a sample [(x, y, z)] whose
    frame has the normal [(nx, ny)]: left-top, right-top, right-bottom
    and left-bottom, the left side [left] away from the sample along
    the normal and the right side [right] against it. *)
Definition profile (nx ny : R) (left right bottom top : R) (p : point3)
  : list point3 :=
  [ (c0 p + nx * left, c1 p + ny * left, c2 p + top);
    (c0 p - nx * right, c1 p - ny * right, c2 p + top);
    (c0 p - nx * right, c1 p - ny * right, c2 p + bottom);
    (c0 p + nx * left, c1 p + ny * left, c2 p + bottom) ].

(** The vertices of sample [k], when the vertices before it number
    [base]. *)
Definition section_ids (base k : nat) : list nat :=
  [base + 4 * k; base + 4 * k + 1; base + 4 * k + 2; base + 4 * k + 3]%nat.

(** The top, bottom, left-side and right-side quads between the
    sections [s1] and [s2]. *)
Definition span_quads (s1 s2 : list nat) : list (list nat) :=
  let v s k := nth k s O in
  [ [v s1 0; v s2 0; v s2 1; v s1 1];
    [v s1 3; v s1 2; v s2 2; v s2 3];
    [v s1 3; v s2 3; v s2 0; v s1 0];
    [v s1 1; v s2 1; v s2 2; v s1 2] ]%nat.

(** The roadway profile of the sample [ip = (i, point)]: its frame is
    the tangent [i] turned a quarter to the left, its sides are the
    offsets of [i], its slab reaches from the sample up by [thickness]. *)
Definition track_profile (tangents : list point2) (offsets : Z -> R * R)
  (thickness : R) (ip : Z * point3) : list point3 :=
  let t := item (0, 0) tangents (fst ip) in
  profile (- snd t) (fst t) (fst (offsets (fst ip))) (snd (offsets (fst ip)))
    0 thickness (snd ip).

(** The quads of the span from sample [i] to sample [(i + 1) % n]. *)
Definition stitch_quads (all_sections : list (list nat)) (n : Z) (i : Z)
  : list (list nat) :=
  span_quads (item [] all_sections i) (item [] all_sections ((i + 1) mod n)%Z).

(** The turn of the path at sample [i] as the curvature limiter
    measures it, its segment length there and its excess over the safe
    angle, [0] when the turn is within it. *)
Definition excess_at (half_width : R) (n : Z) (points : list point3) (i : Z)
  : result R :=
  '(angle, seg_len, _) <- Conditioner.get_turn_angle points n i ;;
  safe_angle <- Conditioner.get_safe_angle half_width seg_len ;;
  Ok (if Rgt_dec angle safe_angle then angle - safe_angle else 0).

(** The state of a sweep from [points] when the samples before [k]
    have been visited: the points and the running [max_excess]. *)
Definition sweep_prefix (half_width : R) (n : Z) (points : list point3) (k : Z)
  : result (list point3 * R) :=
  foldM (Conditioner.relax_visit half_width n) (range0 k) (points, 0).

(** The midpoint of the two circular neighbours of sample [i]. *)
Definition neighbour_midpoint (n : Z) (points : list point3) (i : Z) : point3 :=
  let p := item origin points ((i - 1) mod n)%Z in
  let q := item origin points ((i + 1) mod n)%Z in
  ((c0 p + c0 q) / 2, (c1 p + c1 q) / 2, (c2 p + c2 q) / 2).

(** The point [p] moved toward [m] by the fraction [f] of the way. *)
Definition toward (p m : point3) (f : R) : point3 :=
  (c0 p + (c0 m - c0 p) * f, c1 p + (c1 m - c1 p) * f, c2 p + (c2 m - c2 p) * f).

(** What holds of the state [st] of a sweep from [points] once the
    samples before [k] have been visited: the length is kept, the
    running maximum is not negative and is [0] only if nothing moved,
    the samples from [k] on are untouched, and every sample [i] before
    [k] was measured in the state [before] that the visits before it
    left, and was moved toward the midpoint of its neighbours in that
    state by [min(0.3, e_i / pi)] if its excess [e_i] was positive. *)
Definition prefix_inv (half_width : R) (n : Z) (points : list point3) (k : Z)
  (st : list point3 * R) : Prop :=
  let '(cur, m) := st in
  len cur = len points
  /\ 0 <= m
  /\ (m = 0 -> cur = points)
  /\ (forall j, (k <= j)%Z -> item origin cur j = item origin points j)
  /\ (forall i, (0 <= i < k)%Z ->
        exists before m_i e_i,
          sweep_prefix half_width n points i = Ok (before, m_i)
          /\ excess_at half_width n before i = Ok e_i
          /\ 0 <= e_i <= m
          /\ item origin cur i =
             if Rgt_dec e_i 0
             then toward (item origin points i) (neighbour_midpoint n before i)
                    (Rmin 0.3 (e_i / PI))
             else item origin points i).


(** The sweeps of a relaxation, from the first points to the last, with
    the [max_excess] each one returned. *)
Inductive sweeps (half_width : R) (n : Z)
  : list point3 -> list R -> list point3 -> Prop :=
| sweeps_done (points : list point3) : sweeps half_width n points [] points
| sweeps_step (points points' final : list point3) (max_excess : R)
    (log : list R) :
    Conditioner.sweep half_width n points = Ok (points', max_excess) ->
    sweeps half_width n points' log final ->
    sweeps half_width n points (max_excess :: log) final.

(** The length of the segment from sample [i] to its successor. *)
Definition segment_length (path : list point3) (n : Z) (i : Z) : R :=
  let p := item origin path i in
  let q := item origin path ((i + 1) mod n)%Z in
  sqrt ((c0 q - c0 p) * (c0 q - c0 p) + (c1 q - c1 p) * (c1 q - c1 p)
        + (c2 q - c2 p) * (c2 q - c2 p)).

(** The condition of the segment-advancing loop of the resampler. *)
Definition advance_cond (segment_lengths : list R) (st : R * Z) : bool :=
  let '(segment_progress, current_segment) := st in
  (if Rge_dec segment_progress (item 0 segment_lengths current_segment)
   then true else false)
  && (if Rgt_dec (item 0 segment_lengths current_segment) 0.001
      then true else false).

(** The barrier profile of the sample [ip = (i, point)]: the same frame,
    centred [actual_offset i] along the normal and [base_height] up,
    with both sides [half_width] and the height [height]. *)
Definition barrier_profile (tangents : list point2) (actual_offset : Z -> R)
  (half_width height base_height : R) (ip : Z * point3) : list point3 :=
  let t := item (0, 0) tangents (fst ip) in
  let nx := - snd t in
  let ny := fst t in
  profile nx ny half_width half_width 0 height
    (c0 (snd ip) + nx * actual_offset (fst ip),
     c1 (snd ip) + ny * actual_offset (fst ip),
     c2 (snd ip) + base_height).

(** [kinked] after the one move of its first sweep: the third sample
    pulled toward the midpoint of its neighbours by [0.005 / pi]. *)
Definition kinked_relaxed : list point3 :=
  set_item Inputs.kinked 2
    (toward (item origin Inputs.kinked 2) (neighbour_midpoint 6 Inputs.kinked 2)
       (Rmin 0.3 (0.005 / PI))).

End Vocabulary.

(** ** Preset paths and the track templates *)

Module Presets.

Import Corridor Frame Mesh Synth Conditioner Pipeline.

Definition _smooth_step (t : R) : R :=
  let t := Rmax 0 (Rmin 1 t) in
  t * t * (3 - 2 * t).

(** The inner loop of [_smooth_height_transitions]: the sum and the
    count of the elevations in the window around [i]. *)
Definition height_window (points : list point3) (n window i : Z) : R * Z :=
  fold_left
    (fun '(z_sum, count) j =>
       let idx := ((i + j) mod n)%Z in
       (z_sum + c2 (item origin points idx), (count + 1)%Z))
    (range (- window) (window + 1)) (0, 0%Z).

Definition _smooth_height_transitions (points : list point3) (window : Z)
  : result (list point3) :=
  let n := len points in
  mapM (fun i =>
          let '(z_sum, count) := height_window points n window i in
          avg_z <- py_div z_sum (IZR count) ;;
          let orig_z := c2 (item origin points i) in
          let new_z := 0.7 * orig_z + 0.3 * avg_z in
          Ok (c0 (item origin points i), c1 (item origin points i), new_z))
       (range0 n).

Definition generate_stadium_path (length radius : R) (segments_per_curve : Z)
  : result (list point3) :=
  let half_length := length / 2 in
  right_curve <-
    mapM (fun i =>
            q <- py_div (PI * IZR i) (IZR segments_per_curve) ;;
            let angle := PI / 2 - q in
            Ok (half_length + radius * cos angle, radius * sin angle, 0))
         (range0 segments_per_curve) ;;
  let segments_straight := Z.max 4 (py_int (length / 5)) in
  bottom_line <-
    mapM (fun i =>
            t <- py_div (IZR i) (IZR segments_straight) ;;
            Ok (half_length - length * t, - radius, 0))
         (range0 segments_straight) ;;
  left_curve <-
    mapM (fun i =>
            q <- py_div (PI * IZR i) (IZR segments_per_curve) ;;
            let angle := - PI / 2 - q in
            Ok (- half_length + radius * cos angle, radius * sin angle, 0))
         (range0 segments_per_curve) ;;
  top_line <-
    mapM (fun i =>
            t <- py_div (IZR i) (IZR segments_straight) ;;
            Ok (- half_length + length * t, radius, 0))
         (range0 segments_straight) ;;
  Ok (right_curve ++ bottom_line ++ left_curve ++ top_line).

Definition generate_oval_path (radius_x radius_y : R) (segments : Z)
  : result (list point3) :=
  mapM (fun i =>
          angle <- py_div (2 * PI * IZR i) (IZR segments) ;;
          Ok (radius_x * cos angle, radius_y * sin angle, 0))
       (range0 segments).

Definition generate_circle_path (radius : R) (segments : Z)
  : result (list point3) :=
  generate_oval_path radius radius segments.

(** First pass of [generate_figure8_path]: the point of parameter
    [t = 2 pi i / segments], kept with [t]. *)
Definition figure8_raw (a : R) (segments : Z) (i : Z) : result (R * R * R) :=
  t <- py_div (2 * PI * IZR i) (IZR segments) ;;
  let denom := 1 + sin t ^ 2 in
  x <- py_div (a * cos t) denom ;;
  y <- py_div (a * sin t * cos t) denom ;;
  Ok (x, y, t).

(** Second pass: the elevation of the bridge. *)
Definition figure8_height (bridge_height cross_zone ramp_zone : R)
  (p : R * R * R) : result point3 :=
  let '(x, y, t) := p in
  let dist_from_center := Rabs x in
  z <- (if Rlt_dec dist_from_center (cross_zone + ramp_zone) then
          height_factor <-
            (if Rlt_dec dist_from_center cross_zone then Ok 1
             else
               ramp_progress <- py_div (dist_from_center - cross_zone) ramp_zone ;;
               Ok (1 - _smooth_step ramp_progress)) ;;
          Ok (if Rlt_dec t PI then bridge_height * height_factor else 0)
        else Ok 0) ;;
  Ok (x, y, z).

Definition generate_figure8_path (size bridge_height : R) (segments : Z)
  : result (list point3) :=
  let a := size * 1.8 in
  raw_points <- mapM (figure8_raw a segments) (range0 segments) ;;
  let cross_zone := a * 0.4 in
  let ramp_zone := a * 0.3 in
  points <- mapM (figure8_height bridge_height cross_zone ramp_zone) raw_points ;;
  _smooth_height_transitions points 8.






Definition create_figure8_track (name : string) (location : point3)
  (size track_width track_thickness bridge_height barrier_height
   barrier_width : R) (include_barriers : bool) (segments : Z)
  : result (list object) :=
  let objects := [] in
  let '(x, y, z) := location in
  path_points <- generate_figure8_path size bridge_height segments ;;
  path_points <- _resample_path_uniform path_points (Some (track_width / 3)) 100 ;;
  path_points <- _limit_path_curvature path_points track_width 50 ;;
  let path_points := map (fun '(px, py, pz) => (px + x, py + y, pz + z)) path_points in
  track_surface <-
    _create_track_along_path (name ++ "_Surface") path_points
      track_width track_thickness true ;;
  let objects := objects ++ [track_surface] in
  if include_barriers then
    let half_width := track_width / 2 in
    outer_barrier <-
      _create_barrier_along_path (name ++ "_Outer_Barrier") path_points
        (half_width + barrier_width / 2) barrier_width barrier_height
        track_thickness (Some half_width) true ;;
    let objects := objects ++ [outer_barrier] in
    inner_barrier <-
      _create_barrier_along_path (name ++ "_Inner_Barrier") path_points
        (- (half_width + barrier_width / 2)) barrier_width barrier_height
        track_thickness (Some half_width) true ;;
    let objects := objects ++ [inner_barrier] in
    Ok objects
  else Ok objects.

Definition create_custom_track (name : string) (waypoints : list point2)
  (location : point3) (height_profile : option (list R))
  (track_width track_thickness barrier_height barrier_width : R)
  (include_barriers : bool) (segments_per_section : Z)
  : result (list object) :=
  let objects := [] in
  let '(x, y, z) := location in
  path_points <- generate_custom_path waypoints height_profile segments_per_section true ;;
  path_points <- _resample_path_uniform path_points (Some (track_width / 3)) 100 ;;
  path_points <- _limit_path_curvature path_points track_width 50 ;;
  let path_points := map (fun '(px, py, pz) => (px + x, py + y, pz + z)) path_points in
  track_surface <-
    _create_track_along_path (name ++ "_Surface") path_points
      track_width track_thickness true ;;
  let objects := objects ++ [track_surface] in
  if include_barriers then
    let half_width := track_width / 2 in
    outer_barrier <-
      _create_barrier_along_path (name ++ "_Outer_Barrier") path_points
        (half_width + barrier_width / 2) barrier_width barrier_height
        track_thickness (Some half_width) true ;;
    let objects := objects ++ [outer_barrier] in
    inner_barrier <-
      _create_barrier_along_path (name ++ "_Inner_Barrier") path_points
        (- (half_width + barrier_width / 2)) barrier_width barrier_height
        track_thickness (Some half_width) true ;;
    let objects := objects ++ [inner_barrier] in
    Ok objects
  else Ok objects.

End Presets.

(** ** Notions used to state further properties *)

Module Notions.

(** A point of the segment from [p] to [q]. *)
Definition between (p q : point3) (t : R) : point3 :=
  (c0 p + (c0 q - c0 p) * t, c1 p + (c1 q - c1 p) * t, c2 p + (c2 q - c2 p) * t).

(** A point on the closed polyline through [path]. *)
Definition on_polyline (path : list point3) (s : point3) : Prop :=
  exists i t,
    (0 <= i < len path)%Z /\ 0 <= t < 1
    /\ s = between (item origin path i) (item origin path ((i + 1) mod len path)%Z) t.

(** The distance of [p] and [q] in the ground plane. *)
Definition planar_distance (p q : point3) : R :=
  sqrt ((c0 q - c0 p) * (c0 q - c0 p) + (c1 q - c1 p) * (c1 q - c1 p)).

(** An octagon with sides 2 and 2 sqrt 2: every corner turns by an
    eighth of a turn. *)
Definition octagon : list point3 :=
  [(2, 0, 0); (4, 0, 0); (6, 2, 0); (6, 4, 0);
   (4, 6, 0); (2, 6, 0); (0, 4, 0); (0, 2, 0)].

(** What the mesh library asks of the faces it is given: every face
    names four different vertices of the mesh, and no face has all its
    vertices in another face -- no face is made twice. *)
Definition faces_well_formed (bm : Mesh.bmesh) : Prop :=
  (forall f, In f (Mesh.faces bm) ->
     List.length f = 4%nat /\ NoDup f
     /\ forall v, In v f -> (v < List.length (Mesh.verts bm))%nat)
  /\ (forall a b, (a < List.length (Mesh.faces bm))%nat ->
       (b < List.length (Mesh.faces bm))%nat -> a <> b ->
       ~ incl (nth a (Mesh.faces bm) []) (nth b (Mesh.faces bm) [])).


(** The squared distance of the sample [p] from the place [(cx, cy)] in
    the ground plane. *)
Definition planar_distance_sq (p : point3) (cx cy : R) : R :=
  (c0 p - cx) * (c0 p - cx) + (c1 p - cy) * (c1 p - cy).

(** The four vertices of an elliptic ring at the parameter
    [2 pi i / segments]: outer and inner on top, outer and inner at the
    bottom. *)
Definition ring_profile (outer_radius_x outer_radius_y inner_radius_x
  inner_radius_y height : R) (segments : Z) (i : Z) : list point3 :=
  let angle := 2 * PI * IZR i / IZR segments in
  [ (outer_radius_x * cos angle, outer_radius_y * sin angle, height);
    (inner_radius_x * cos angle, inner_radius_y * sin angle, height);
    (outer_radius_x * cos angle, outer_radius_y * sin angle, 0);
    (inner_radius_x * cos angle, inner_radius_y * sin angle, 0) ].



End Notions.

(** * Properties *)

(** Subscripts of a literal list. *)
Ltac eval_items :=
  unfold item;
  repeat match goal with
         | |- context [Z.to_nat ?z] =>
             let k := eval vm_compute in (Z.to_nat z) in
             change (Z.to_nat z) with k
         end;
  cbn [nth].

(** ** The runtime *)

Section Runtime.

Lemma py_sqrt_ok (x : R) : 0 <= x -> py_sqrt x = Ok (sqrt x).
Proof.
  intros Hx. unfold py_sqrt. destruct (Rlt_dec x 0); [lra | reflexivity].
Qed.

Lemma py_div_ok (x y : R) : y <> 0 -> py_div x y = Ok (x / y).
Proof.
  intros Hy. unfold py_div. destruct (Req_dec_T y 0); [contradiction | reflexivity].
Qed.

Lemma py_div_zero (x : R) : py_div x 0 = Raise ZeroDivisionError.
Proof.
  unfold py_div. destruct (Req_dec_T 0 0); [reflexivity | contradiction].
Qed.

Lemma py_acos_ok (x : R) : -1 <= x <= 1 -> py_acos x = Ok (acos x).
Proof.
  intros [Hl Hu]. unfold py_acos.
  destruct (Rlt_dec x (-1)); [lra |]. destruct (Rlt_dec 1 x); [lra | reflexivity].
Qed.

Lemma py_asin_ok (x : R) : -1 <= x <= 1 -> py_asin x = Ok (asin x).
Proof.
  intros [Hl Hu]. unfold py_asin.
  destruct (Rlt_dec x (-1)); [lra |]. destruct (Rlt_dec 1 x); [lra | reflexivity].
Qed.

Lemma sqrt_val (x v : R) : 0 <= v -> v * v = x -> sqrt x = v.
Proof. intros Hv Hx. apply sqrt_lem_1; [rewrite <- Hx; nra | exact Hv | exact Hx]. Qed.

Lemma sum_sq_nonneg (x y : R) : 0 <= x * x + y * y.
Proof. nra. Qed.

Lemma sum_sq3_nonneg (x y z : R) : 0 <= x * x + y * y + z * z.
Proof. nra. Qed.

Lemma sum_pow2_nonneg (x y : R) : 0 <= x ^ 2 + y ^ 2.
Proof. nra. Qed.

Context {A B : Type}.

Lemma mapM_pure (f : A -> result B) (g : A -> B) (l : list A) :
  (forall a, In a l -> f a = Ok (g a)) -> mapM f l = Ok (map g l).
Proof.
  induction l as [| a l IH]; intros H; simpl.
  - reflexivity.
  - rewrite (H a) by (left; reflexivity). simpl.
    rewrite IH by (intros; apply H; right; assumption). reflexivity.
Qed.

Lemma mapM_is_ok (f : A -> result B) (l : list A) :
  (forall a, In a l -> is_ok (f a)) -> is_ok (mapM f l).
Proof.
  induction l as [| a l IH]; intros H; simpl.
  - eexists; reflexivity.
  - destruct (H a) as [b Hb]; [left; reflexivity |]. rewrite Hb. simpl.
    destruct IH as [bs Hbs]; [intros; apply H; right; assumption |].
    rewrite Hbs. simpl. eexists; reflexivity.
Qed.

Lemma mapM_ext_in (f g : A -> result B) (l : list A) :
  (forall a, In a l -> f a = g a) -> mapM f l = mapM g l.
Proof.
  induction l as [| a l IH]; intros H; simpl.
  - reflexivity.
  - rewrite (H a) by (left; reflexivity).
    rewrite IH by (intros; apply H; right; assumption). reflexivity.
Qed.

Lemma mapM_length (f : A -> result B) (l : list A) (bs : list B) :
  mapM f l = Ok bs -> List.length bs = List.length l.
Proof.
  revert bs. induction l as [| a l IH]; intros bs H; simpl in H.
  - inversion H. reflexivity.
  - destruct (f a) as [b | e]; simpl in H; [| discriminate].
    destruct (mapM f l) as [bs' | e]; simpl in H; [| discriminate].
    inversion H. simpl. f_equal. apply IH. reflexivity.
Qed.

Lemma mapM_nth (f : A -> result B) (l : list A) (bs : list B) (da : A) (db : B) :
  mapM f l = Ok bs ->
  forall k, (k < List.length l)%nat -> f (nth k l da) = Ok (nth k bs db).
Proof.
  revert bs. induction l as [| a l IH]; intros bs H k Hk; simpl in *.
  - lia.
  - destruct (f a) as [b | e] eqn:Hfa; simpl in H; [| discriminate].
    destruct (mapM f l) as [bs' | e]; simpl in H; [| discriminate].
    inversion H; subst bs. destruct k as [| k]; simpl.
    + assumption.
    + apply IH; [reflexivity | lia].
Qed.

End Runtime.

Lemma range_length (lo hi : Z) : List.length (range lo hi) = Z.to_nat (hi - lo).
Proof. unfold range. rewrite length_map, length_seq. reflexivity. Qed.

Lemma range_In (lo hi i : Z) : In i (range lo hi) <-> (lo <= i < hi)%Z.
Proof.
  unfold range. rewrite in_map_iff. split.
  - intros [k [Hk Hin]]. apply in_seq in Hin. lia.
  - intros H. exists (Z.to_nat (i - lo)). split; [lia |].
    apply in_seq. lia.
Qed.

Lemma range_nth (lo hi : Z) (k : nat) (d : Z) :
  (k < Z.to_nat (hi - lo))%nat -> nth k (range lo hi) d = (lo + Z.of_nat k)%Z.
Proof.
  intros Hk. unfold range.
  rewrite (nth_indep _ d (lo + Z.of_nat 0)%Z) by (rewrite length_map, length_seq; exact Hk).
  rewrite (map_nth (fun k => (lo + Z.of_nat k)%Z)), seq_nth by exact Hk.
  reflexivity.
Qed.

Lemma range0_len_In {A : Type} (l : list A) (i : Z) :
  In i (range0 (len l)) <-> (0 <= i < len l)%Z.
Proof. unfold range0. apply range_In. Qed.

Lemma mod_in_range (k n : Z) : (0 < n)%Z -> (0 <= k mod n < n)%Z.
Proof. intros Hn. apply Z.mod_pos_bound. exact Hn. Qed.

(** ** Adaptive corridor profile *)

Module CorridorFacts.

Import Corridor.

(** The product under Heron's root is a polynomial of the squared side
    lengths. *)
Lemma heron_squares (a b c : R) :
  let s := (a + b + c) / 2 in
  16 * (s * (s - a) * (s - b) * (s - c)) =
  2 * (a * a) * (b * b) + 2 * (b * b) * (c * c) + 2 * (c * c) * (a * a)
  - (a * a) * (a * a) - (b * b) * (b * b) - (c * c) * (c * c).
Proof. intros s. unfold s. field. Qed.

(** For the side lengths of a triangle it is a quarter of the squared
    cross product of two of its edges. *)
Lemma heron_cross (x0 y0 x1 y1 x2 y2 : R) :
  let a := sqrt ((x1 - x2) ^ 2 + (y1 - y2) ^ 2) in
  let b := sqrt ((x0 - x2) ^ 2 + (y0 - y2) ^ 2) in
  let c := sqrt ((x0 - x1) ^ 2 + (y0 - y1) ^ 2) in
  let s := (a + b + c) / 2 in
  s * (s - a) * (s - b) * (s - c) =
  ((x1 - x0) * (y2 - y1) - (y1 - y0) * (x2 - x1)) ^ 2 / 4.
Proof.
  intros a b c s.
  assert (Ha : a * a = (x1 - x2) ^ 2 + (y1 - y2) ^ 2)
    by (apply sqrt_sqrt, sum_pow2_nonneg).
  assert (Hb : b * b = (x0 - x2) ^ 2 + (y0 - y2) ^ 2)
    by (apply sqrt_sqrt, sum_pow2_nonneg).
  assert (Hc : c * c = (x0 - x1) ^ 2 + (y0 - y1) ^ 2)
    by (apply sqrt_sqrt, sum_pow2_nonneg).
  pose proof (heron_squares a b c) as H. cbv zeta in H. fold s in H.
  rewrite Ha, Hb, Hc in H.
  apply Rmult_eq_reg_l with 16; [| lra]. rewrite H. field.
Qed.

(** [_compute_curvature_radius] never raises. *)
Lemma curvature_radius_total (path_points : list point3) (index : Z) :
  is_ok (_compute_curvature_radius path_points index).
Proof.
  unfold _compute_curvature_radius.
  destruct (len path_points <? 3)%Z; [eexists; reflexivity |].
  rewrite !py_sqrt_ok by apply sum_pow2_nonneg. cbn [bind].
  match goal with |- context [Rle_dec ?x 0] => destruct (Rle_dec x 0) as [Hle | Hgt] end;
    [eexists; reflexivity |].
  rewrite py_sqrt_ok by lra. cbn [bind].
  match goal with |- context [Rlt_dec ?x 0.0001] => destruct (Rlt_dec x 0.0001) as [Hs | Hb] end;
    [eexists; reflexivity |].
  rewrite py_div_ok by lra. cbn [bind]. eexists; reflexivity.
Qed.

(** A triple of samples on one line has the infinite radius. *)
Lemma curvature_radius_collinear (path_points : list point3) (index : Z) :
  turn_direction_at path_points (len path_points) index = 0 ->
  _compute_curvature_radius path_points index = Ok PosInf.
Proof.
  intros Hcross. unfold _compute_curvature_radius.
  destruct (len path_points <? 3)%Z; [reflexivity |].
  rewrite !py_sqrt_ok by apply sum_pow2_nonneg. cbn [bind].
  rewrite heron_cross.
  unfold turn_direction_at in Hcross. rewrite Hcross.
  destruct (Rle_dec (0 ^ 2 / 4) 0) as [_ | Hn]; [reflexivity | exfalso; lra].
Qed.

Lemma curvature_radii_total (path_points : list point3) (w : Z) :
  exists radii, _compute_curvature_radii path_points w = Ok radii
                /\ List.length radii = List.length path_points.
Proof.
  unfold _compute_curvature_radii.
  destruct (mapM_is_ok (_compute_curvature_radius path_points)
              (range0 (len path_points))) as [raw Hraw].
  { intros; apply curvature_radius_total. }
  rewrite Hraw. cbn [bind]. eexists; split; [reflexivity |].
  rewrite length_map. unfold range0. rewrite range_length. unfold len. lia.
Qed.

Lemma turn_directions_length (path_points : list point3) (tangents : list point2) :
  List.length (_compute_turn_directions path_points tangents)
  = List.length path_points.
Proof.
  unfold _compute_turn_directions. rewrite length_map.
  unfold range0. rewrite range_length. unfold len. lia.
Qed.

(** *** The offset rule *)

Lemma offsets_wide (r : xfloat) (half_width cross : R) :
  xgt r (half_width * 3) = true ->
  _get_adaptive_offsets r half_width cross = (half_width, half_width).
Proof. intros H. unfold _get_adaptive_offsets. rewrite H. reflexivity. Qed.

Lemma offsets_tight (r half_width cross : R) :
  r <= half_width * 3 ->
  _get_adaptive_offsets (Finite r) half_width cross =
  let inner := Rmax 0.1 (Rmin half_width (0.85 * r - 0.1)) in
  if Rgt_dec cross 0.001 then (inner, half_width)
  else if Rlt_dec cross (-0.001) then (half_width, inner)
  else (half_width, half_width).
Proof.
  intros H. unfold _get_adaptive_offsets, xgt.
  destruct (Rgt_dec r (half_width * 3)); [lra |].
  cbn [xmul xsub min_fin]. replace (r * 0.85 - 0.1) with (0.85 * r - 0.1) by ring.
  reflexivity.
Qed.

(** Both offsets are positive and at most the larger of [half_width]
    and the floor [0.1]. *)
Lemma offsets_bounds (r : xfloat) (half_width cross : R) :
  0 < half_width ->
  let '(l, rt) := _get_adaptive_offsets r half_width cross in
  (0 < l <= Rmax half_width 0.1) /\ (0 < rt <= Rmax half_width 0.1).
Proof.
  intros Hw. unfold _get_adaptive_offsets.
  pose proof (Rmax_l half_width 0.1) as Hm.
  destruct (xgt r (half_width * 3)); [lra |].
  set (inner := Rmax 0.1 (min_fin half_width (xsub (xmul r 0.85) 0.1))).
  assert (Hin : 0 < inner <= Rmax half_width 0.1).
  { unfold inner. split.
    - pose proof (Rmax_l 0.1 (min_fin half_width (xsub (xmul r 0.85) 0.1))). lra.
    - apply Rmax_lub; [apply Rmax_r |].
      destruct r as [r |]; cbn [xmul xsub min_fin].
      + pose proof (Rmin_l half_width (r * 0.85 - 0.1)). lra.
      + lra. }
  destruct (Rgt_dec cross 0.001); [lra |].
  destruct (Rlt_dec cross (-0.001)); lra.
Qed.

(** *** Independence of the elevation *)

Lemma xy_item (p q : list point3) (i : Z) :
  map xy p = map xy q -> xy (item origin p i) = xy (item origin q i).
Proof.
  intros H. unfold item.
  change (xy origin) with (0, 0) in *.
  rewrite <- (map_nth xy p origin), <- (map_nth xy q origin), H. reflexivity.
Qed.

Lemma xy_len (p q : list point3) : map xy p = map xy q -> len p = len q.
Proof.
  intros H. unfold len. f_equal.
  rewrite <- (length_map xy p), <- (length_map xy q), H. reflexivity.
Qed.

Lemma c0_item (p q : list point3) (i : Z) :
  map xy p = map xy q -> c0 (item origin p i) = c0 (item origin q i).
Proof. intros H. apply (f_equal fst (xy_item p q i H)). Qed.

Lemma c1_item (p q : list point3) (i : Z) :
  map xy p = map xy q -> c1 (item origin p i) = c1 (item origin q i).
Proof. intros H. apply (f_equal snd (xy_item p q i H)). Qed.

Lemma curvature_radius_xy (p q : list point3) (i : Z) :
  map xy p = map xy q ->
  _compute_curvature_radius p i = _compute_curvature_radius q i.
Proof.
  intros H. unfold _compute_curvature_radius.
  rewrite (xy_len p q H).
  rewrite !(c0_item p q _ H), !(c1_item p q _ H). reflexivity.
Qed.

Lemma curvature_radii_xy (p q : list point3) (w : Z) :
  map xy p = map xy q ->
  _compute_curvature_radii p w = _compute_curvature_radii q w.
Proof.
  intros H. unfold _compute_curvature_radii. rewrite (xy_len p q H).
  rewrite (mapM_ext_in (_compute_curvature_radius p) (_compute_curvature_radius q)).
  - reflexivity.
  - intros; apply curvature_radius_xy; exact H.
Qed.

Lemma turn_directions_xy (p q : list point3) (tp tq : list point2) :
  map xy p = map xy q ->
  _compute_turn_directions p tp = _compute_turn_directions q tq.
Proof.
  intros H. unfold _compute_turn_directions. rewrite (xy_len p q H).
  apply map_ext. intros i. unfold turn_direction_at.
  rewrite !(c0_item p q _ H), !(c1_item p q _ H). reflexivity.
Qed.

End CorridorFacts.

(** ** Loops *)

Section Loops.

Context {A S : Type}.

(** A monadic fold whose every round succeeds and keeps an invariant
    succeeds and keeps it. *)
Lemma foldM_invariant (P : S -> Prop) (f : S -> A -> result S) (l : list A) :
  (forall s a, In a l -> P s -> exists s', f s a = Ok s' /\ P s') ->
  forall s, P s -> exists s', foldM f l s = Ok s' /\ P s'.
Proof.
  induction l as [| a l IH]; intros Hf s Hs; simpl.
  - exists s; split; [reflexivity | assumption].
  - destruct (Hf s a) as [s1 [H1 P1]]; [left; reflexivity | assumption |].
    rewrite H1. cbn [bind]. apply IH; [| assumption].
    intros s0 a0 Hin; apply Hf; right; assumption.
Qed.

Lemma foldM_app (f : S -> A -> result S) (l1 l2 : list A) (s : S) :
  foldM f (l1 ++ l2) s = bind (foldM f l1 s) (foldM f l2).
Proof.
  revert s. induction l1 as [| a l1 IH]; intros s; simpl.
  - reflexivity.
  - destruct (f s a) as [s1 | e]; cbn [bind]; [apply IH | reflexivity].
Qed.

(** A loop with enough fuel stops with its condition false: here for a
    real-valued measure that every round lowers by at least [step]. *)
Lemma while_loop_exit (mu : S -> R) (step : R) (cond : S -> bool)
  (body : S -> S) :
  0 < step ->
  (forall s, cond s = true -> mu (body s) <= mu s - step) ->
  (forall s, cond s = true -> 0 <= mu s) ->
  forall fuel s, mu s < INR fuel * step ->
    cond (while_loop fuel cond body s) = false.
Proof.
  intros Hstep Hdec Hpos fuel. induction fuel as [| fuel IH]; intros s Hmu.
  - simpl in *. destruct (cond s) eqn:Hc; [| reflexivity].
    specialize (Hpos s Hc). lra.
  - cbn [while_loop]. destruct (cond s) eqn:Hc; [| exact Hc].
    apply IH. specialize (Hdec s Hc). rewrite S_INR in Hmu. lra.
Qed.

End Loops.

Lemma up_fuel (x c : R) : 0 < c -> x < INR (Z.to_nat (up (x / c))) * c \/ x < 0.
Proof.
  intros Hc. destruct (Rlt_dec x 0) as [Hn | Hp]; [right; exact Hn | left].
  destruct (archimed (x / c)) as [Hup _].
  assert (H0 : 0 <= x / c) by (apply Rle_mult_inv_pos; lra).
  assert (Hz : (0 <= up (x / c))%Z).
  { apply le_IZR. lra. }
  rewrite INR_IZR_INZ, Z2Nat.id by exact Hz.
  apply Rmult_lt_reg_r with (/ c); [apply Rinv_0_lt_compat; exact Hc |].
  rewrite Rmult_assoc, Rinv_r, Rmult_1_r by lra. exact Hup.
Qed.

(** ** Frame computer *)

Module FrameFacts.

Import Frame.

(** The unwrapping loops end: the unwrapped angle is within [pi] of the
    base angle, above by the first loop and -- when the first loop did
    not run -- below by the second. *)
Lemma unwrap_upper_loop (diff : R) :
  while_loop (unwrap_fuel diff)
    (fun d => if Rgt_dec d PI then true else false)
    (fun d => d - 2 * PI) diff <= PI.
Proof.
  pose proof PI_RGT_0 as Hpi.
  set (cond := fun d : R => if Rgt_dec d PI then true else false).
  set (body := fun d : R => d - 2 * PI).
  assert (Hexit : cond (while_loop (unwrap_fuel diff) cond body diff) = false).
  { destruct (up_fuel diff (2 * PI)) as [Hf | Hneg]; [lra | |].
    - apply (while_loop_exit (fun d => d) (2 * PI) cond body); [lra | | | exact Hf].
      + intros s _. unfold body. lra.
      + intros s Hs. unfold cond in Hs. destruct (Rgt_dec s PI); [lra | discriminate].
    - assert (Hc : cond diff = false).
      { unfold cond. destruct (Rgt_dec diff PI); [lra | reflexivity]. }
      destruct (unwrap_fuel diff); cbn [while_loop]; [exact Hc |].
      rewrite Hc. exact Hc. }
  unfold cond at 1 in Hexit.
  destruct (Rgt_dec (while_loop (unwrap_fuel diff) cond body diff) PI);
    [discriminate | lra].
Qed.

Lemma while_loop_invariant {S : Type} (P : S -> Prop) (cond : S -> bool)
  (body : S -> S) :
  (forall s, P s -> cond s = true -> P (body s)) ->
  forall fuel s, P s -> P (while_loop fuel cond body s).
Proof.
  intros Hstep fuel. induction fuel as [| fuel IH]; intros s Hs; cbn [while_loop].
  - exact Hs.
  - destruct (cond s) eqn:Hc; [apply IH, Hstep; assumption | exact Hs].
Qed.

(** Both unwrapping loops end within their fuel: the unwrapped angle is
    within [pi] of the base angle. *)
Lemma unwrap_range (base_angle angle : R) :
  base_angle - PI <= unwrap base_angle angle <= base_angle + PI.
Proof.
  pose proof PI_RGT_0 as Hpi. unfold unwrap.
  set (d1 := while_loop (unwrap_fuel (angle - base_angle))
               (fun d => if Rgt_dec d PI then true else false)
               (fun d => d - 2 * PI) (angle - base_angle)).
  assert (H1 : d1 <= PI) by apply unwrap_upper_loop.
  set (cond := fun d : R => if Rlt_dec d (- PI) then true else false).
  set (body := fun d : R => d + 2 * PI).
  assert (Hup : while_loop (unwrap_fuel (- d1)) cond body d1 <= PI).
  { apply (while_loop_invariant (fun d => d <= PI)); [| exact H1].
    intros s _ Hc. unfold cond in Hc. unfold body.
    destruct (Rlt_dec s (- PI)); [lra | discriminate]. }
  assert (Hexit : cond (while_loop (unwrap_fuel (- d1)) cond body d1) = false).
  { destruct (up_fuel (- d1) (2 * PI)) as [Hf | Hneg]; [lra | |].
    - apply (while_loop_exit (fun d => - d) (2 * PI) cond body); [lra | | | exact Hf].
      + intros s _. unfold body. lra.
      + intros s Hs. unfold cond in Hs. destruct (Rlt_dec s (- PI)); [lra | discriminate].
    - assert (Hc : cond d1 = false).
      { unfold cond. destruct (Rlt_dec d1 (- PI)); [lra | reflexivity]. }
      destruct (unwrap_fuel (- d1)); cbn [while_loop]; [exact Hc |].
      rewrite Hc. exact Hc. }
  unfold cond at 1 in Hexit.
  destruct (Rlt_dec (while_loop (unwrap_fuel (- d1)) cond body d1) (- PI));
    [discriminate |]. lra.
Qed.

Lemma raw_tangent_total (path_points : list point3) (n w i : Z) :
  is_ok (raw_tangent_at path_points n w i).
Proof.
  unfold raw_tangent_at.
  match goal with |- is_ok (bind (foldM ?f ?l ?s0) _) =>
    destruct (foldM_invariant (fun _ => True) f l) with (s := s0)
      as [[[tx ty] ws] [Hfold _]] end.
  { intros [[tx ty] ws] offset Hin _. apply range_In in Hin.
    rewrite py_div_ok by (apply not_0_IZR; lia). cbn [bind].
    eexists; split; [reflexivity | exact I]. }
  { exact I. }
  rewrite Hfold. cbn [bind].
  assert (Hnorm : forall a b : R,
    is_ok (length <- py_sqrt (a * a + b * b) ;;
           if Rgt_dec length 0.001 then
             tx <- py_div a length ;; ty <- py_div b length ;; Ok (tx, ty)
           else Ok (1, 0))).
  { intros a b. rewrite py_sqrt_ok by apply sum_sq_nonneg. cbn [bind].
    destruct (Rgt_dec (sqrt (a * a + b * b)) 0.001).
    - rewrite !py_div_ok by lra. cbn [bind]. eexists; reflexivity.
    - eexists; reflexivity. }
  destruct (Rgt_dec ws 0).
  - rewrite !py_div_ok by lra. cbn [bind]. apply Hnorm.
  - cbn [bind]. apply Hnorm.
Qed.

(** A raw tangent is either the normalised average direction or the
    fixed direction [(1, 0)] of the fallback. *)
Lemma raw_tangents_total (path_points : list point3) (w : Z) :
  exists raw, raw_tangents path_points w = Ok raw
              /\ List.length raw = List.length path_points.
Proof.
  unfold raw_tangents.
  destruct (mapM_is_ok (raw_tangent_at path_points (len path_points) w)
              (range0 (len path_points))) as [raw Hraw].
  { intros; apply raw_tangent_total. }
  exists raw; split; [exact Hraw |].
  rewrite (mapM_length _ _ _ Hraw). unfold range0. rewrite range_length.
  unfold len. lia.
Qed.

Lemma smooth_offsets :
  range (- smooth_radius) (smooth_radius + 1) = [-2; -1; 0; 1; 2]%Z.
Proof. reflexivity. Qed.

Lemma smoothed_tangent_spec (raw : list point2) (n i : Z) :
  exists a, smoothed_tangent_at raw n i = Ok (cos a, sin a).
Proof.
  unfold smoothed_tangent_at. rewrite smooth_offsets.
  cbn [mapM Z.abs Z.add Pos.add Pos.succ].
  rewrite !py_div_ok by (apply not_0_IZR; lia). cbn [bind].
  cbn [sum fold_left Z.abs Z.add Pos.add Pos.succ].
  rewrite py_div_ok.
  - cbn [bind]. eexists; reflexivity.
  - change (IZR (1 + 2)) with 3. change (IZR (1 + 1)) with 2.
    change (IZR (1 + 0)) with 1. lra.
Qed.

Lemma smooth_tangents_total (path_points : list point3) (w : Z) :
  exists ts, _compute_smooth_tangents path_points w = Ok ts
             /\ List.length ts = List.length path_points
             /\ forall k, (k < List.length path_points)%nat ->
                  exists a, nth k ts (0, 0) = (cos a, sin a).
Proof.
  unfold _compute_smooth_tangents.
  destruct (raw_tangents_total path_points w) as [raw [Hraw Hlen]].
  rewrite Hraw. cbn [bind].
  destruct (mapM_is_ok (smoothed_tangent_at raw (len path_points))
              (range0 (len path_points))) as [ts Hts].
  { intros i _. destruct (smoothed_tangent_spec raw (len path_points) i) as [a Ha].
    eexists; exact Ha. }
  assert (Hl : List.length ts = List.length path_points).
  { rewrite (mapM_length _ _ _ Hts). unfold range0. rewrite range_length.
    unfold len. lia. }
  exists ts; split; [exact Hts | split; [exact Hl |]].
  intros k Hk.
  pose proof (mapM_nth _ _ _ 0%Z (0, 0) Hts k) as Hn.
  unfold range0 in Hn at 1. rewrite range_length in Hn. unfold len in Hn at 1.
  specialize (Hn ltac:(lia)).
  destruct (smoothed_tangent_spec raw (len path_points)
              (nth k (range0 (len path_points)) 0%Z)) as [a Ha].
  rewrite Ha in Hn. inversion Hn as [Heq].
  exists a. symmetry. exact Heq.
Qed.

End FrameFacts.

(** ** Corridor mesh builder *)

Module MeshFacts.

Import Corridor Frame Mesh Vocabulary.

Lemma enumerate_length {A : Type} (l : list A) :
  List.length (enumerate l) = List.length l.
Proof.
  unfold enumerate, range0. rewrite length_combine, range_length.
  unfold len. lia.
Qed.

Lemma enumerate_nth {A : Type} (l : list A) (k : nat) (d : A) :
  (k < List.length l)%nat ->
  nth k (enumerate l) (0%Z, d) = (Z.of_nat k, nth k l d).
Proof.
  intros Hk. unfold enumerate. rewrite combine_nth.
  - unfold range0. rewrite range_nth by (unfold len; lia). f_equal.
  - unfold range0. rewrite range_length. unfold len. lia.
Qed.

(** The lists built from chunks of a fixed size. *)
Lemma nth_flat_map_chunks {A B : Type} (f : A -> list B) (c : nat)
  (l : list A) (da : A) (db : B) :
  (forall a, List.length (f a) = c) ->
  forall i k, (i < List.length l)%nat -> (k < c)%nat ->
    nth (c * i + k) (flat_map f l) db = nth k (f (nth i l da)) db.
Proof.
  intros Hc. induction l as [| a l IH]; intros i k Hi Hk; simpl in Hi.
  - lia.
  - simpl. destruct i as [| i].
    + rewrite Nat.mul_0_r, Nat.add_0_l. rewrite app_nth1 by (rewrite Hc; exact Hk).
      reflexivity.
    + rewrite app_nth2 by (rewrite Hc; nia). rewrite Hc.
      replace (c * S i + k - c)%nat with (c * i + k)%nat by nia.
      apply IH; [lia | exact Hk].
Qed.

Lemma length_flat_map_chunks {A B : Type} (f : A -> list B) (c : nat)
  (l : list A) :
  (forall a, List.length (f a) = c) ->
  List.length (flat_map f l) = (c * List.length l)%nat.
Proof.
  intros Hc. induction l as [| a l IH]; simpl.
  - lia.
  - rewrite length_app, Hc, IH. nia.
Qed.

Lemma ids4_eq (a b c d a' b' c' d' : nat) :
  a = a' -> b = b' -> c = c' -> d = d' -> [a; b; c; d] = [a'; b'; c'; d'].
Proof. intros; subst; reflexivity. Qed.

Lemma track_profile_length tangents offsets thickness ip :
  List.length (track_profile tangents offsets thickness ip) = 4%nat.
Proof. reflexivity. Qed.

Lemma track_section_step tangents offsets thickness bm secs ip :
  track_section tangents offsets thickness (bm, secs) ip =
  (mk_bmesh (verts bm ++ track_profile tangents offsets thickness ip) (faces bm),
   secs ++ [section_ids (List.length (verts bm)) 0]).
Proof.
  destruct ip as [i [[x y] z]]. unfold track_section, track_profile, profile.
  cbn [fst snd c0 c1 c2].
  destruct (item (0, 0) tangents i) as [tx ty].
  destruct (offsets i) as [lo ro]. cbn [fst snd].
  unfold verts_new. cbn [verts faces]. rewrite !length_app. cbn [List.length].
  rewrite <- !app_assoc. cbn [app]. unfold section_ids.
  rewrite !Rplus_0_r.
  f_equal. f_equal. f_equal. apply ids4_eq; lia.
Qed.

Lemma track_sections_fold tangents offsets thickness (l : list (Z * point3)) :
  forall bm secs,
  fold_left (track_section tangents offsets thickness) l (bm, secs) =
  (mk_bmesh (verts bm ++ flat_map (track_profile tangents offsets thickness) l)
            (faces bm),
   secs ++ map (section_ids (List.length (verts bm))) (seq 0 (List.length l))).
Proof.
  induction l as [| ip l IH]; intros bm secs.
  - simpl. rewrite !app_nil_r. destruct bm; reflexivity.
  - cbn [fold_left]. rewrite track_section_step, IH. cbn [verts faces].
    rewrite length_app, track_profile_length.
    cbn [flat_map List.length seq map]. rewrite <- !app_assoc. cbn [app].
    f_equal. f_equal. f_equal.
    rewrite <- seq_shift, map_map. apply map_ext. intros k.
    unfold section_ids. apply ids4_eq; lia.
Qed.

Lemma stitch_step all_sections n bm i :
  stitch all_sections n bm i =
  mk_bmesh (verts bm) (faces bm ++ stitch_quads all_sections n i).
Proof.
  unfold stitch, stitch_quads, span_quads, faces_new. cbn [verts faces].
  rewrite <- !app_assoc. reflexivity.
Qed.

Lemma stitch_fold all_sections n (l : list Z) :
  forall bm,
  fold_left (stitch all_sections n) l bm =
  mk_bmesh (verts bm) (faces bm ++ flat_map (stitch_quads all_sections n) l).
Proof.
  induction l as [| i l IH]; intros bm.
  - simpl. rewrite app_nil_r. destruct bm; reflexivity.
  - cbn [fold_left]. rewrite stitch_step, IH. cbn [verts faces flat_map].
    rewrite <- app_assoc. reflexivity.
Qed.

Lemma sections_item (n : nat) (i : Z) :
  (0 <= i < Z.of_nat n)%Z ->
  item [] (map (section_ids 0) (seq 0 n)) i = section_ids 0 (Z.to_nat i).
Proof.
  intros Hi. unfold item.
  rewrite (nth_indep _ [] (section_ids 0 0)) by (rewrite length_map, length_seq; lia).
  rewrite map_nth, seq_nth by lia. reflexivity.
Qed.

End MeshFacts.

Module TrackMesh.

Import Corridor Frame Mesh Vocabulary MeshFacts FrameFacts CorridorFacts.

(** What [_create_track_along_path] builds on a path of three samples
    or more: it returns, the vertices are the profiles of the samples in
    order and the faces are the quads of the spans in order. *)
Lemma track_mesh_spec (name : string) (path : list point3)
  (width thickness : R) (adaptive : bool) :
  (3 <= len path)%Z ->
  exists tangents radii obj,
    _compute_smooth_tangents path (Z.max 3 (len path / 20)) = Ok tangents
    /\ (if adaptive then _compute_curvature_radii path 2 = Ok radii else radii = [])
    /\ _create_track_along_path name path width thickness adaptive = Ok obj
    /\ obj_name obj = name
    /\ let offsets i :=
         if adaptive then
           _get_adaptive_offsets (item PosInf radii i) (width / 2)
             (item 0 (_compute_turn_directions path tangents) i)
         else (width / 2, width / 2) in
       verts (obj_mesh obj)
       = flat_map (track_profile tangents offsets thickness) (enumerate path)
       /\ faces (obj_mesh obj)
          = flat_map (stitch_quads (map (section_ids 0) (seq 0 (List.length path)))
                        (len path))
              (range0 (len path)).
Proof.
  intros Hn. unfold _create_track_along_path.
  destruct (len path <? 3)%Z eqn:Hlt; [apply Z.ltb_lt in Hlt; lia |].
  destruct (smooth_tangents_total path (Z.max 3 (len path / 20)))
    as [tangents [Ht _]].
  rewrite Ht. cbn [bind]. exists tangents.
  destruct adaptive.
  - destruct (curvature_radii_total path 2) as [radii [Hr _]].
    rewrite Hr. cbn [bind]. exists radii.
    rewrite track_sections_fold, stitch_fold. cbn [verts faces bmesh_new app].
    rewrite enumerate_length.
    eexists; repeat split; reflexivity.
  - cbn [bind]. exists [].
    rewrite track_sections_fold, stitch_fold. cbn [verts faces bmesh_new app].
    rewrite enumerate_length.
    eexists; repeat split; reflexivity.
Qed.

End TrackMesh.

(** ** Path conditioner: curvature limiting *)

Module ConditionerFacts.

Import Conditioner Vocabulary.

Lemma set_nth_length {A : Type} (l : list A) (k : nat) (v : A) :
  List.length (set_nth l k v) = List.length l.
Proof.
  revert k. induction l as [| a l IH]; intros [| k]; simpl; try reflexivity.
  rewrite IH. reflexivity.
Qed.

Lemma set_nth_same {A : Type} (l : list A) (k : nat) (v d : A) :
  (k < List.length l)%nat -> nth k (set_nth l k v) d = v.
Proof.
  revert k. induction l as [| a l IH]; intros [| k] Hk; simpl in *; try lia.
  - reflexivity.
  - apply IH. lia.
Qed.

Lemma set_nth_other {A : Type} (l : list A) (k j : nat) (v d : A) :
  j <> k -> nth j (set_nth l k v) d = nth j l d.
Proof.
  revert k j. induction l as [| a l IH]; intros [| k] [| j] Hjk; simpl;
    try reflexivity; try lia.
  apply IH. lia.
Qed.

Lemma set_item_length {A : Type} (l : list A) (i : Z) (v : A) :
  len (set_item l i v) = len l.
Proof. unfold len, set_item. rewrite set_nth_length. reflexivity. Qed.

Lemma item_set_item_same {A : Type} (l : list A) (i : Z) (v d : A) :
  (0 <= i < len l)%Z -> item d (set_item l i v) i = v.
Proof.
  intros Hi. unfold item, set_item. apply set_nth_same. unfold len in Hi. lia.
Qed.

Lemma item_set_item_other {A : Type} (l : list A) (i j : Z) (v d : A) :
  (0 <= i)%Z -> (0 <= j)%Z -> j <> i -> item d (set_item l i v) j = item d l j.
Proof.
  intros Hi Hj Hne. unfold item, set_item. apply set_nth_other. lia.
Qed.

Lemma clamp_unit (x : R) : -1 <= Rmax (-1) (Rmin 1 x) <= 1.
Proof.
  split; [apply Rmax_l |].
  apply Rmax_lub; [lra | apply Rmin_l].
Qed.

(** The turn measured at a sample: the call returns; the angle lies in
    [0, pi]; the segment length is [0] for a sample next to a segment
    shorter than [0.001] and at least [0.001] otherwise. *)
Lemma turn_angle_total (points : list point3) (n i : Z) :
  exists angle seg_len direction,
    get_turn_angle points n i = Ok (angle, seg_len, direction)
    /\ 0 <= angle <= PI
    /\ (seg_len = 0 \/ 0.001 <= seg_len).
Proof.
  pose proof PI_RGT_0 as Hpi.
  unfold get_turn_angle.
  rewrite !py_sqrt_ok by apply sum_sq_nonneg. cbn [bind].
  match goal with |- context [Rlt_dec ?l1 0.001] =>
    destruct (Rlt_dec l1 0.001) as [H1 | H1] end.
  { exists 0, 0, 0. repeat split; lra. }
  match goal with |- context [Rlt_dec ?l2 0.001] =>
    destruct (Rlt_dec l2 0.001) as [H2 | H2] end.
  { exists 0, 0, 0. repeat split; lra. }
  rewrite !py_div_ok by lra. cbn [bind].
  rewrite py_acos_ok by apply clamp_unit. cbn [bind].
  do 3 eexists. split; [reflexivity |]. split.
  - apply acos_bound.
  - right. lra.
Qed.

Lemma safe_sin_range (ratio : R) :
  0.05 <= Rmax 0.05 (Rmin 0.99 (ratio * 0.8)) <= 0.99.
Proof.
  split; [apply Rmax_l |]. apply Rmax_lub; [lra | apply Rmin_l].
Qed.

Lemma safe_angle_total (half_width segment_length : R) :
  half_width <> 0 \/ segment_length < 0.001 ->
  is_ok (get_safe_angle half_width segment_length).
Proof.
  intros H. unfold get_safe_angle.
  destruct (Rlt_dec segment_length 0.001) as [Hs | Hs]; [eexists; reflexivity |].
  destruct H as [H | H]; [| lra].
  rewrite py_div_ok by lra. cbn [bind].
  destruct (Rge_dec _ 1); [eexists; reflexivity |].
  rewrite py_asin_ok by (pose proof (safe_sin_range (segment_length / (2 * half_width))); lra).
  cbn [bind]. eexists; reflexivity.
Qed.

Lemma excess_total (half_width : R) (n : Z) (points : list point3) (i : Z) :
  half_width <> 0 ->
  exists e, excess_at half_width n points i = Ok e /\ 0 <= e.
Proof.
  intros Hw. unfold excess_at.
  destruct (turn_angle_total points n i) as [a [s [d [Ht _]]]].
  rewrite Ht. cbn [bind].
  destruct (safe_angle_total half_width s (or_introl Hw)) as [v Hv].
  rewrite Hv. cbn [bind].
  eexists; split; [reflexivity |].
  destruct (Rgt_dec a v); lra.
Qed.

(** One visit: the excess of the sample in the current state decides;
    a sample in excess moves toward the midpoint of its neighbours by
    [min(0.3, excess / pi)], any other sample stays. *)
Lemma relax_visit_spec (half_width : R) (n : Z) (points : list point3)
  (max_excess : R) (i : Z) (e : R) :
  excess_at half_width n points i = Ok e ->
  0 <= max_excess ->
  relax_visit half_width n (points, max_excess) i =
  Ok (if Rgt_dec e 0
      then set_item points i
             (toward (item origin points i) (neighbour_midpoint n points i)
                (Rmin 0.3 (e / PI)))
      else points,
      Rmax max_excess e).
Proof.
  intros He Hm. unfold excess_at in He. unfold relax_visit.
  destruct (get_turn_angle points n i) as [[[a s] d] | ex]; cbn [bind] in *;
    [| discriminate].
  destruct (get_safe_angle half_width s) as [v | ex]; cbn [bind] in *;
    [| discriminate].
  inversion He as [He']. clear He.
  destruct (Rgt_dec a v) as [Hgt | Hle].
  - destruct (Rgt_dec (a - v) 0) as [_ | Hn]; [| lra].
    reflexivity.
  - destruct (Rgt_dec 0 0) as [Hn | _]; [lra |].
    rewrite Rmax_left by lra. reflexivity.
Qed.


Lemma bind_ret {A : Type} (m : result A) : bind m (fun a => Ok a) = m.
Proof. destruct m; reflexivity. Qed.

Lemma range0_succ (k : Z) : (0 <= k)%Z -> range0 (k + 1) = range0 k ++ [k].
Proof.
  intros Hk. unfold range0, range.
  replace (Z.to_nat (k + 1 - 0)) with (S (Z.to_nat (k - 0))) by lia.
  rewrite seq_S, map_app. cbn [map]. repeat f_equal. lia.
Qed.

Lemma sweep_prefix_zero (half_width : R) (n : Z) (points : list point3) :
  sweep_prefix half_width n points 0 = Ok (points, 0).
Proof. reflexivity. Qed.

Lemma sweep_prefix_succ (half_width : R) (n : Z) (points : list point3) (k : Z) :
  (0 <= k)%Z ->
  sweep_prefix half_width n points (k + 1) =
  bind (sweep_prefix half_width n points k)
       (fun st => relax_visit half_width n st k).
Proof.
  intros Hk. unfold sweep_prefix. rewrite range0_succ by exact Hk.
  rewrite foldM_app.
  destruct (foldM (relax_visit half_width n) (range0 k) (points, 0)) as [st | e];
    cbn [bind foldM]; [apply bind_ret | reflexivity].
Qed.

Lemma sweep_is_prefix (half_width : R) (n : Z) (points : list point3) :
  sweep half_width n points = sweep_prefix half_width n points n.
Proof. reflexivity. Qed.

Lemma sweep_prefix_inv (half_width : R) (n : Z) (points : list point3) :
  half_width <> 0 ->
  forall k : nat, (Z.of_nat k <= len points)%Z ->
    exists st, sweep_prefix half_width n points (Z.of_nat k) = Ok st
               /\ prefix_inv half_width n points (Z.of_nat k) st.
Proof.
  intros Hw. induction k as [| k IH]; intros Hk.
  - exists (points, 0). split; [reflexivity |].
    unfold prefix_inv. repeat split; try lra; try reflexivity.
    intros i Hi. lia.
  - destruct IH as [[cur m] [Hpre Hinv]]; [lia |].
    replace (Z.of_nat (S k)) with (Z.of_nat k + 1)%Z by lia.
    rewrite sweep_prefix_succ by lia. rewrite Hpre. cbn [bind].
    destruct Hinv as [Hlen [Hm [Hfix [Hrest Hdone]]]].
    destruct (excess_total half_width n cur (Z.of_nat k) Hw) as [e [He He0]].
    rewrite (relax_visit_spec _ _ _ _ _ e He Hm).
    eexists; split; [reflexivity |].
    unfold prefix_inv.
    assert (Hmax : 0 <= Rmax m e) by (pose proof (Rmax_l m e); lra).
    destruct (Rgt_dec e 0) as [Hpos | Hzero].
    + split; [rewrite set_item_length; exact Hlen |].
      split; [exact Hmax |].
      split; [intros Hz; pose proof (Rmax_r m e); lra |].
      split.
      * intros j Hj. rewrite item_set_item_other by lia. apply Hrest. lia.
      * intros i Hi. destruct (Z.eq_dec i (Z.of_nat k)) as [-> | Hne].
        -- exists cur, m, e.
           repeat split; try assumption; try lra; try apply Rmax_r.
           destruct (Rgt_dec e 0); [| lra].
           rewrite item_set_item_same by lia.
           rewrite (Hrest (Z.of_nat k)) by lia. reflexivity.
        -- destruct (Hdone i ltac:(lia)) as [b [mi [ei [H1 [H2 [H3 H4]]]]]].
           exists b, mi, ei. pose proof (Rmax_l m e).
           repeat split; try assumption; try lra.
           rewrite item_set_item_other by lia. exact H4.
    + assert (e = 0) by lra. subst e.
      split; [exact Hlen |]. split; [exact Hmax |].
      split; [intros Hz; apply Hfix; rewrite Rmax_left in Hz by lra; exact Hz |].
      split.
      * intros j Hj. apply Hrest. lia.
      * intros i Hi. destruct (Z.eq_dec i (Z.of_nat k)) as [-> | Hne].
        -- exists cur, m, 0.
           repeat split; try assumption; try lra; try apply Rmax_r.
           destruct (Rgt_dec 0 0); [lra |]. apply Hrest. lia.
        -- destruct (Hdone i ltac:(lia)) as [b [mi [ei [H1 [H2 [H3 H4]]]]]].
           exists b, mi, ei. pose proof (Rmax_l m 0).
           repeat split; try assumption; lra.
Qed.

(** A sweep returns; it visits the samples in order, each in the state
    its predecessors left. *)
Lemma sweep_spec (half_width : R) (points : list point3) :
  half_width <> 0 ->
  exists points' max_excess,
    sweep half_width (len points) points = Ok (points', max_excess)
    /\ prefix_inv half_width (len points) points (len points) (points', max_excess).
Proof.
  intros Hw.
  destruct (sweep_prefix_inv half_width (len points) points Hw
              (List.length points)) as [[p' mx] [H1 H2]].
  { unfold len. lia. }
  exists p', mx. split; [exact H1 | exact H2].
Qed.

End ConditionerFacts.

Module RelaxFacts.

Import Conditioner Vocabulary ConditionerFacts.

Lemma sweep_length (half_width : R) (points points' : list point3) (mx : R) :
  half_width <> 0 ->
  sweep half_width (len points) points = Ok (points', mx) ->
  len points' = len points.
Proof.
  intros Hw H. destruct (sweep_spec half_width points Hw) as [p [m [H1 H2]]].
  rewrite H in H1. inversion H1; subst p m. apply H2.
Qed.

(** The outer loop returns after [iterations] sweeps at most; every
    sweep but the last left an excess of [0.01] or more; a sweep that
    left less is the last; a loop that ends before its cap ends on a
    sweep that left less. *)
Lemma relax_spec (half_width : R) (n : Z) :
  half_width <> 0 ->
  forall (iterations : nat) (points : list point3),
    len points = n ->
    exists final log,
      relax half_width n iterations points = Ok (final, log)
      /\ len final = n
      /\ sweeps half_width n points log final
      /\ (List.length log <= iterations)%nat
      /\ (forall k, (S k < List.length log)%nat -> 0.01 <= nth k log 0)
      /\ (forall k, (k < List.length log)%nat -> nth k log 0 < 0.01 ->
            S k = List.length log)
      /\ ((List.length log < iterations)%nat ->
            log <> [] /\ last log 0 < 0.01).
Proof.
  intros Hw. induction iterations as [| it IH]; intros points Hn.
  - exists points, []. cbn [relax List.length].
    repeat split; try assumption; try constructor; try lia.
  - cbn [relax].
    destruct (sweep_spec half_width points Hw) as [p' [mx [Hs Hinv]]].
    rewrite Hn in Hs. rewrite Hs. cbn [bind].
    assert (Hlen' : len p' = n).
    { rewrite <- Hn. apply (sweep_length half_width points p' mx Hw).
      rewrite Hn. exact Hs. }
    destruct (Rlt_dec mx 0.01) as [Hsmall | Hbig].
    + exists p', [mx]. cbn [List.length].
      split; [reflexivity |]. split; [exact Hlen' |].
      split; [econstructor; [exact Hs | constructor] |].
      split; [lia |].
      split; [intros k Hk; lia |].
      split; [intros k Hk _; lia |].
      intros _. split; [discriminate | exact Hsmall].
    + destruct (IH p' Hlen') as [final [log [Hr [Hfl [Hsw [Hle [Hbefore [Hlast Hcap]]]]]]]].
      rewrite Hr. cbn [bind]. exists final, (mx :: log). cbn [List.length].
      split; [reflexivity |]. split; [exact Hfl |].
      split; [econstructor; [exact Hs | exact Hsw] |].
      split; [lia |].
      split.
      { intros [| k] Hk; cbn [nth]; [lra | apply Hbefore; lia]. }
      split.
      { intros [| k] Hk Hlt; cbn [nth] in Hlt; [lra |].
        f_equal. apply Hlast; [lia | exact Hlt]. }
      intros Hlt. destruct (Hcap ltac:(lia)) as [Hne Hl].
      split; [discriminate |].
      destruct log as [| x log]; [contradiction | exact Hl].
Qed.

Lemma limit_log_spec (path : list point3) (track_width : R) (max_iterations : Z) :
  (4 <= len path)%Z ->
  limit_path_curvature_log path track_width max_iterations =
  relax (track_width / 2) (len path) (Z.to_nat max_iterations) path.
Proof.
  intros Hn. unfold limit_path_curvature_log.
  destruct (len path <? 4)%Z eqn:Hlt; [apply Z.ltb_lt in Hlt; lia | reflexivity].
Qed.

(** The curvature limiter never raises on a non-zero width, and keeps
    the number of samples. *)
Lemma limit_total (path : list point3) (track_width : R) (max_iterations : Z) :
  track_width <> 0 ->
  exists final, _limit_path_curvature path track_width max_iterations = Ok final
                /\ len final = len path.
Proof.
  intros Hw. unfold _limit_path_curvature, limit_path_curvature_log.
  destruct (len path <? 4)%Z eqn:Hlt.
  - cbn [bind]. exists path. split; reflexivity.
  - destruct (relax_spec (track_width / 2) (len path) ltac:(lra)
                (Z.to_nat max_iterations) path eq_refl)
      as [final [log [Hr [Hl _]]]].
    rewrite Hr. cbn [bind]. exists final. split; [reflexivity | exact Hl].
Qed.

End RelaxFacts.

(** ** Path conditioner: uniform resampling *)

Module ResampleFacts.

Import Conditioner Vocabulary.

Lemma while_loop_false {S : Type} (fuel : nat) (cond : S -> bool)
  (body : S -> S) (s : S) :
  cond s = false -> while_loop fuel cond body s = s.
Proof. intros H. destruct fuel; cbn [while_loop]; [| rewrite H]; reflexivity. Qed.

Lemma segment_length_at_ok (path : list point3) (n i : Z) :
  segment_length_at path n i = Ok (segment_length path n i).
Proof.
  unfold segment_length_at, segment_length.
  apply py_sqrt_ok, sum_sq3_nonneg.
Qed.

Lemma segment_lengths_ok (path : list point3) (n : Z) (l : list Z) :
  mapM (segment_length_at path n) l = Ok (map (segment_length path n) l).
Proof. apply mapM_pure. intros; apply segment_length_at_ok. Qed.

(** The segment-advancing loop ends: the state it returns fails the
    loop condition. *)
Lemma advance_exit (segment_lengths : list R) (n : Z) (st : R * Z) :
  advance_cond segment_lengths (advance segment_lengths n st) = false.
Proof.
  unfold advance.
  match goal with |- advance_cond _ (while_loop _ ?c ?b _) = _ =>
    set (cond := c); set (body := b) end.
  assert (Hcond : forall s, cond s = advance_cond segment_lengths s).
  { intros [p c]. reflexivity. }
  rewrite <- Hcond.
  assert (Hc : forall s, cond s = true ->
            fst s >= item 0 segment_lengths (snd s)
            /\ item 0 segment_lengths (snd s) > 0.001).
  { intros [p c] H. unfold cond in H. cbn [fst snd].
    destruct (Rge_dec p (item 0 segment_lengths c));
      destruct (Rgt_dec (item 0 segment_lengths c) 0.001);
      cbn in H; try discriminate. split; assumption. }
  destruct (up_fuel (fst st) 0.001) as [Hf | Hneg]; [lra | |].
  - apply (while_loop_exit (fun s => fst s) 0.001 cond body); [lra | | | exact Hf].
    + intros [p c] H. destruct (Hc _ H) as [H1 H2]. cbn [fst snd] in *.
      unfold body. cbn [fst]. lra.
    + intros s H. destruct (Hc _ H). lra.
  - rewrite while_loop_false; destruct (cond st) eqn:E; try reflexivity;
      destruct (Hc _ E); lra.
Qed.

Lemma advance_stuck (segment_lengths : list R) (n : Z) (progress : R) (cur : Z) :
  item 0 segment_lengths cur <= 0.001 ->
  advance segment_lengths n (progress, cur) = (progress, cur).
Proof.
  intros H. unfold advance. apply while_loop_false.
  destruct (Rgt_dec (item 0 segment_lengths cur) 0.001); [lra |].
  apply andb_false_r.
Qed.

Lemma resample_step_total path segment_lengths n spacing st k :
  exists st', resample_step path segment_lengths n spacing st k = Ok st'
              /\ List.length (fst (fst st')) = S (List.length (fst (fst st))).
Proof.
  destruct st as [[res cur] prog]. unfold resample_step.
  destruct (advance segment_lengths n (prog, cur)) as [prog' cur'].
  destruct (Rgt_dec (item 0 segment_lengths cur') 0.001).
  - rewrite py_div_ok by lra. cbn [bind]. eexists; split; [reflexivity |].
    cbn [fst]. rewrite length_app. cbn. lia.
  - cbn [bind]. eexists; split; [reflexivity |].
    cbn [fst]. rewrite length_app. cbn. lia.
Qed.

Lemma resample_fold_total path segment_lengths n spacing (l : list Z) :
  forall st,
  exists st', foldM (resample_step path segment_lengths n spacing) l st = Ok st'
              /\ List.length (fst (fst st'))
                 = (List.length (fst (fst st)) + List.length l)%nat.
Proof.
  induction l as [| k l IH]; intros st.
  - exists st. split; [reflexivity | cbn; lia].
  - cbn [foldM].
    destruct (resample_step_total path segment_lengths n spacing st k)
      as [st1 [H1 L1]].
    rewrite H1. cbn [bind]. destruct (IH st1) as [st2 [H2 L2]].
    exists st2. split; [exact H2 |]. rewrite L2, L1. cbn. lia.
Qed.

(** The resampler on a path of three samples or more, a non-zero
    spacing and a positive number of samples to produce: it returns
    that many samples. *)
Lemma resample_count (path : list point3) (spacing : R) (min_points : Z) :
  (3 <= len path)%Z ->
  spacing <> 0 ->
  let total_length :=
    fold_left Rplus (map (segment_length path (len path)) (range0 (len path))) 0 in
  let target_points := Z.max min_points (py_int (total_length / spacing)) in
  (0 < target_points)%Z ->
  exists resampled,
    _resample_path_uniform path (Some spacing) min_points = Ok resampled
    /\ len resampled = target_points.
Proof.
  intros Hn Hs total_length target_points Hpos.
  unfold _resample_path_uniform.
  destruct (len path <? 3)%Z eqn:Hlt; [apply Z.ltb_lt in Hlt; lia |].
  rewrite segment_lengths_ok. cbn [bind]. fold total_length.
  rewrite py_div_ok by exact Hs. cbn [bind]. fold target_points.
  rewrite py_div_ok by (apply not_0_IZR; lia). cbn [bind].
  match goal with |- context [foldM ?f ?l ?s] =>
    destruct (resample_fold_total path
                (map (segment_length path (len path)) (range0 (len path)))
                (len path) (total_length / IZR target_points) l s)
      as [[[res cur] prog] [Hf Hl]] end.
  rewrite Hf. cbn [bind]. exists res. split; [reflexivity |].
  cbn [fst List.length] in Hl. unfold len. rewrite Hl.
  unfold range0. rewrite range_length. lia.
Qed.

(** In the track pipeline: spacing a third of the width and at least
    100 samples. *)
Lemma resample_pipeline (path : list point3) (track_width : R) :
  (3 <= len path)%Z ->
  track_width <> 0 ->
  exists resampled,
    _resample_path_uniform path (Some (track_width / 3)) 100 = Ok resampled
    /\ (100 <= len resampled)%Z.
Proof.
  intros Hn Hw.
  destruct (resample_count path (track_width / 3) 100 Hn ltac:(lra) ltac:(lia))
    as [res [H1 H2]].
  exists res. split; [exact H1 | rewrite H2; lia].
Qed.

Lemma resample_short (path : list point3) (spacing : option R) (min_points : Z) :
  (len path < 3)%Z -> _resample_path_uniform path spacing min_points = Ok path.
Proof.
  intros H. unfold _resample_path_uniform.
  apply Z.ltb_lt in H. rewrite H. reflexivity.
Qed.

(** The walk never leaves a segment of length [0.001] or less: every
    later sample is the start of that segment. *)
Lemma resample_fold_stuck path segment_lengths n spacing cur (l : list Z) :
  item 0 segment_lengths cur <= 0.001 ->
  forall res prog,
  exists prog',
    foldM (resample_step path segment_lengths n spacing) l (res, cur, prog)
    = Ok (res ++ repeat (item origin path cur) (List.length l), cur, prog').
Proof.
  intros Hshort. induction l as [| k l IH]; intros res prog.
  - exists prog. cbn. rewrite app_nil_r. reflexivity.
  - cbn [foldM]. unfold resample_step at 1.
    rewrite advance_stuck by exact Hshort.
    destruct (Rgt_dec (item 0 segment_lengths cur) 0.001); [lra |].
    cbn [bind]. rewrite !Rmult_0_r, !Rplus_0_r.
    replace (c0 (item origin path cur), c1 (item origin path cur),
             c2 (item origin path cur)) with (item origin path cur)
      by (destruct (item origin path cur) as [[x y] z]; reflexivity).
    destruct (IH (res ++ [item origin path cur]) (prog + spacing)) as [prog' Hp].
    exists prog'. etransitivity; [exact Hp |]. cbn [List.length repeat].
    rewrite <- app_assoc. reflexivity.
Qed.

Lemma range0_item (n i : Z) :
  (0 <= i < n)%Z -> forall d, nth (Z.to_nat i) (range0 n) d = i.
Proof.
  intros Hi d. unfold range0. rewrite range_nth by lia. lia.
Qed.

Lemma segment_lengths_item (path : list point3) (n i : Z) :
  (0 <= i < n)%Z ->
  item 0 (map (segment_length path n) (range0 n)) i = segment_length path n i.
Proof.
  intros Hi. unfold item.
  rewrite (nth_indep _ 0 (segment_length path n 0%Z))
    by (rewrite length_map; unfold range0; rewrite range_length; lia).
  rewrite map_nth, range0_item by exact Hi. reflexivity.
Qed.

End ResampleFacts.

(** ** Barriers and the pipeline *)

Module BarrierMesh.

Import Corridor Frame Mesh Vocabulary MeshFacts FrameFacts CorridorFacts.

Lemma barrier_section_step tangents actual_offset half_width height base bm secs ip :
  barrier_section tangents actual_offset half_width height base (bm, secs) ip =
  (mk_bmesh (verts bm ++ barrier_profile tangents actual_offset half_width height base ip)
            (faces bm),
   secs ++ [section_ids (List.length (verts bm)) 0]).
Proof.
  destruct ip as [i [[x y] z]]. unfold barrier_section, barrier_profile, profile.
  cbn [fst snd c0 c1 c2].
  destruct (item (0, 0) tangents i) as [tx ty]. cbn [fst snd].
  unfold verts_new. cbn [verts faces]. rewrite !length_app. cbn [List.length].
  rewrite <- !app_assoc. cbn [app]. unfold section_ids.
  rewrite !Rplus_0_r.
  f_equal. f_equal. f_equal. apply ids4_eq; lia.
Qed.

Lemma barrier_sections_fold tangents actual_offset half_width height base
  (l : list (Z * point3)) :
  forall bm secs,
  fold_left (barrier_section tangents actual_offset half_width height base) l (bm, secs) =
  (mk_bmesh (verts bm ++ flat_map (barrier_profile tangents actual_offset
                                     half_width height base) l)
            (faces bm),
   secs ++ map (section_ids (List.length (verts bm))) (seq 0 (List.length l))).
Proof.
  induction l as [| ip l IH]; intros bm secs.
  - simpl. rewrite !app_nil_r. destruct bm; reflexivity.
  - cbn [fold_left]. rewrite barrier_section_step, IH. cbn [verts faces].
    rewrite length_app.
    replace (List.length (barrier_profile tangents actual_offset half_width
                            height base ip)) with 4%nat by reflexivity.
    cbn [flat_map List.length seq map]. rewrite <- !app_assoc. cbn [app].
    f_equal. f_equal. f_equal.
    rewrite <- seq_shift, map_map. apply map_ext. intros k.
    unfold section_ids. apply ids4_eq; lia.
Qed.

(** [_create_barrier_along_path] never raises; its vertices are the
    barrier profiles of the samples in order and its faces the quads of
    the spans in order. *)
Lemma barrier_mesh_spec (name : string) (path : list point3)
  (offset width height base : R) (track_half_width : option R)
  (adaptive_offset : bool) :
  exists tangents (actual_offset : Z -> R) obj,
    _compute_smooth_tangents path (Z.max 3 (len path / 20)) = Ok tangents
    /\ _create_barrier_along_path name path offset width height base
         track_half_width adaptive_offset = Ok obj
    /\ obj_name obj = name
    /\ verts (obj_mesh obj)
       = flat_map (barrier_profile tangents actual_offset (width / 2) height base)
           (enumerate path)
    /\ faces (obj_mesh obj)
       = flat_map (stitch_quads (map (section_ids 0) (seq 0 (List.length path)))
                     (len path))
           (range0 (len path)).
Proof.
  unfold _create_barrier_along_path.
  destruct (smooth_tangents_total path (Z.max 3 (len path / 20)))
    as [tangents [Ht _]].
  rewrite Ht. cbn [bind]. exists tangents.
  destruct (curvature_radii_total path 2) as [radii [Hr _]].
  destruct adaptive_offset, track_half_width as [thw |]; cbn [bind];
    try (rewrite Hr; cbn [bind]);
    rewrite barrier_sections_fold, stitch_fold; cbn [verts faces bmesh_new app];
    rewrite enumerate_length;
    eexists; eexists; repeat split; reflexivity.
Qed.

End BarrierMesh.

Module PipelineFacts.

Import Corridor Frame Mesh Conditioner Pipeline Vocabulary.
Import ResampleFacts RelaxFacts TrackMesh BarrierMesh.

Lemma map_len {A B : Type} (f : A -> B) (l : list A) : len (map f l) = len l.
Proof. unfold len. rewrite length_map. reflexivity. Qed.

(** The pipeline on a path of three samples or more and a non-zero
    width returns its objects: the surface, and the two barriers when
    asked for; neither the width nor the thickness is looked at
    otherwise. *)
Lemma pipeline_total (name : string) (path : list point3)
  (track_width track_thickness barrier_height barrier_width : R)
  (include_barriers : bool) (location : point3) (resample : bool) :
  (3 <= len path)%Z ->
  track_width <> 0 ->
  exists objects,
    create_track_from_path name path track_width track_thickness
      barrier_height barrier_width include_barriers location resample
    = Ok objects
    /\ List.length objects = (if include_barriers then 3 else 1)%nat.
Proof.
  intros Hn Hw. unfold create_track_from_path.
  destruct location as [[x y] z].
  assert (Hres : exists p1,
    (if resample then _resample_path_uniform path (Some (track_width / 3)) 100
     else Ok path) = Ok p1 /\ (3 <= len p1)%Z).
  { destruct resample.
    - destruct (resample_pipeline path track_width Hn Hw) as [r [H1 H2]].
      exists r. split; [exact H1 | lia].
    - exists path. split; [reflexivity | exact Hn]. }
  destruct Hres as [p1 [Hp1 Hl1]]. rewrite Hp1. cbn [bind].
  destruct (limit_total p1 track_width 50 Hw) as [p2 [Hp2 Hl2]].
  rewrite Hp2. cbn [bind].
  match goal with |- context [map ?f p2] => set (offset_path := map f p2) end.
  assert (Hl3 : (3 <= len offset_path)%Z).
  { unfold offset_path. rewrite map_len.
    change (3 <= len p2)%Z. rewrite Hl2. exact Hl1. }
  destruct (track_mesh_spec (name ++ "_Surface") offset_path track_width
              track_thickness true Hl3) as [tg [rd [obj [_ [_ [Hobj _]]]]]].
  rewrite Hobj. cbn [bind].
  destruct include_barriers.
  - destruct (barrier_mesh_spec (name ++ "_Outer_Barrier") offset_path
                (track_width / 2 + barrier_width / 2) barrier_width
                barrier_height track_thickness (Some (track_width / 2)) true)
      as [t1 [a1 [o1 [_ [Ho1 _]]]]].
    rewrite Ho1. cbn [bind].
    destruct (barrier_mesh_spec (name ++ "_Inner_Barrier") offset_path
                (- (track_width / 2 + barrier_width / 2)) barrier_width
                barrier_height track_thickness (Some (track_width / 2)) true)
      as [t2 [a2 [o2 [_ [Ho2 _]]]]].
    rewrite Ho2. cbn [bind]. eexists; split; reflexivity.
  - eexists; split; reflexivity.
Qed.

Lemma track_short (name : string) (path : list point3) (width thickness : R)
  (adaptive : bool) :
  (len path < 3)%Z ->
  _create_track_along_path name path width thickness adaptive
  = Raise (ValueError "路径至少需要3个点").
Proof.
  intros H. unfold _create_track_along_path.
  apply Z.ltb_lt in H. rewrite H. reflexivity.
Qed.

(** A path of fewer than three samples passes the conditioner
    unchanged and is rejected by the surface builder. *)
Lemma pipeline_short (name : string) (path : list point3)
  (track_width track_thickness barrier_height barrier_width : R)
  (include_barriers : bool) (location : point3) (resample : bool) :
  (len path < 3)%Z ->
  create_track_from_path name path track_width track_thickness
    barrier_height barrier_width include_barriers location resample
  = Raise (ValueError "路径至少需要3个点").
Proof.
  intros Hn. unfold create_track_from_path.
  destruct location as [[x y] z].
  assert (Hres :
    (if resample then _resample_path_uniform path (Some (track_width / 3)) 100
     else Ok path) = Ok path).
  { destruct resample; [apply resample_short; exact Hn | reflexivity]. }
  rewrite Hres. cbn [bind].
  unfold _limit_path_curvature, limit_path_curvature_log.
  destruct (len path <? 4)%Z eqn:H4; [| apply Z.ltb_ge in H4; lia].
  cbn [bind]. rewrite track_short; [reflexivity |].
  rewrite map_len. exact Hn.
Qed.

End PipelineFacts.

(** ** Path synthesizer *)

Module SynthFacts.

Import Synth.

Lemma getitem_ok {A : Type} (l : list A) (i : Z) :
  (0 <= i < len l)%Z -> is_ok (getitem l i).
Proof.
  intros Hi. unfold getitem.
  destruct (i <? 0)%Z eqn:Hneg; [apply Z.ltb_lt in Hneg; lia |].
  destruct (nth_error l (Z.to_nat i)) as [a |] eqn:Hnth.
  - eexists; reflexivity.
  - apply nth_error_None in Hnth. unfold len in Hi. lia.
Qed.

Lemma angle_diff_total (dx1 dy1 dx2 dy2 : R) :
  is_ok (angle_diff dx1 dy1 dx2 dy2).
Proof.
  unfold angle_diff. rewrite !py_sqrt_ok by apply sum_sq_nonneg. cbn [bind].
  destruct (Rlt_dec _ 0.001); [eexists; reflexivity |].
  destruct (Rlt_dec _ 0.001); [eexists; reflexivity |].
  rewrite !py_div_ok by lra. cbn [bind]. eexists; reflexivity.
Qed.

Lemma estimate_total (p0 p1 p2 p3 : point2) :
  is_ok (_estimate_section_curvature p0 p1 p2 p3).
Proof.
  unfold _estimate_section_curvature.
  destruct (angle_diff_total (fst p1 - fst p0) (snd p1 - snd p0)
              (fst p2 - fst p1) (snd p2 - snd p1)) as [a Ha].
  destruct (angle_diff_total (fst p2 - fst p1) (snd p2 - snd p1)
              (fst p3 - fst p2) (snd p3 - snd p2)) as [b Hb].
  rewrite Ha. cbn [bind]. rewrite Hb. cbn [bind]. eexists; reflexivity.
Qed.

Lemma section_points_total (waypoints : list point2) (height_profile : list R)
  (segments_per_section : Z) (adaptive_subdivision : bool) (i : Z) :
  (0 < len waypoints)%Z ->
  len height_profile = len waypoints ->
  (0 <= i < len waypoints)%Z ->
  is_ok (section_points waypoints height_profile (len waypoints)
           segments_per_section adaptive_subdivision i).
Proof.
  intros Hn Hh Hi. unfold section_points.
  assert (Hm : forall k, (0 <= k mod len waypoints < len height_profile)%Z).
  { intros k. rewrite Hh. apply Z.mod_pos_bound. exact Hn. }
  destruct (getitem_ok height_profile _ (Hm (i - 1)%Z)) as [h0 H0].
  destruct (getitem_ok height_profile i ltac:(lia)) as [h1 H1].
  destruct (getitem_ok height_profile _ (Hm (i + 1)%Z)) as [h2 H2].
  destruct (getitem_ok height_profile _ (Hm (i + 2)%Z)) as [h3 H3].
  rewrite H0. cbn [bind]. rewrite H1. cbn [bind].
  rewrite H2. cbn [bind]. rewrite H3. cbn [bind].
  assert (Hsec : forall actual_segments : Z,
    is_ok (mapM (fun j =>
             t <- py_div (IZR j) (IZR actual_segments) ;;
             Ok (catmull_rom (fst (item (0, 0) waypoints ((i - 1) mod len waypoints)))
                   (fst (item (0, 0) waypoints i))
                   (fst (item (0, 0) waypoints ((i + 1) mod len waypoints)))
                   (fst (item (0, 0) waypoints ((i + 2) mod len waypoints))) t,
                 catmull_rom (snd (item (0, 0) waypoints ((i - 1) mod len waypoints)))
                   (snd (item (0, 0) waypoints i))
                   (snd (item (0, 0) waypoints ((i + 1) mod len waypoints)))
                   (snd (item (0, 0) waypoints ((i + 2) mod len waypoints))) t,
                 catmull_rom h0 h1 h2 h3 t))
           (range0 actual_segments))).
  { intros actual_segments. apply mapM_is_ok. intros j Hj.
    apply range_In in Hj. rewrite py_div_ok by (apply not_0_IZR; lia).
    cbn [bind]. eexists; reflexivity. }
  destruct adaptive_subdivision.
  - destruct (estimate_total (item (0, 0) waypoints ((i - 1) mod len waypoints))
                (item (0, 0) waypoints i)
                (item (0, 0) waypoints ((i + 1) mod len waypoints))
                (item (0, 0) waypoints ((i + 2) mod len waypoints))) as [c Hc].
    rewrite Hc. cbn [bind]. apply Hsec.
  - cbn [bind]. apply Hsec.
Qed.

(** [generate_custom_path] rejects fewer than three control points
    before it looks at anything else. *)
Lemma generate_rejects_short (waypoints : list point2)
  (height_profile : option (list R)) (segments_per_section : Z)
  (adaptive_subdivision : bool) :
  (len waypoints < 3)%Z ->
  generate_custom_path waypoints height_profile segments_per_section
    adaptive_subdivision
  = Raise (ValueError "至少需要3个控制点").
Proof.
  intros H. unfold generate_custom_path.
  apply Z.ltb_lt in H. rewrite H. reflexivity.
Qed.

(** On three control points or more, with no height profile or one
    height per control point, it returns, whatever the points. *)
Lemma generate_total (waypoints : list point2)
  (height_profile : option (list R)) (segments_per_section : Z)
  (adaptive_subdivision : bool) :
  (3 <= len waypoints)%Z ->
  match height_profile with
  | None => True
  | Some h => len h = len waypoints
  end ->
  is_ok (generate_custom_path waypoints height_profile segments_per_section
           adaptive_subdivision).
Proof.
  intros Hn Hh. unfold generate_custom_path.
  destruct (len waypoints <? 3)%Z eqn:Hlt; [apply Z.ltb_lt in Hlt; lia |].
  set (hp := match height_profile with
             | None => repeat 0 (Z.to_nat (len waypoints))
             | Some h => h
             end).
  assert (Hlen : len hp = len waypoints).
  { unfold hp. destruct height_profile as [h |]; [exact Hh |].
    unfold len. rewrite repeat_length. unfold len. lia. }
  match goal with |- is_ok (foldM ?f ?l ?s0) =>
    destruct (foldM_invariant (fun _ => True) f l) with (s := s0)
      as [pts [Hf _]] end.
  - intros pts i Hi _. apply range0_len_In in Hi.
    destruct (section_points_total waypoints hp segments_per_section
                adaptive_subdivision i ltac:(lia) Hlen Hi) as [sec Hsec].
    rewrite Hsec. cbn [bind]. eexists; split; [reflexivity | exact I].
  - exact I.
  - eexists; exact Hf.
Qed.

End SynthFacts.

(** * The claims *)

(** ** Adaptive corridor profile: C3, C4, C10 *)

Module CorridorClaims.

Import Corridor Vocabulary CorridorFacts Inputs.

(** The radius at a sample whose triangle has the side lengths [a], [b]
    and [c] and the area [area]. *)
Lemma curvature_radius_value (path_points : list point3) (index : Z)
  (a b c area : R) :
  (3 <= len path_points)%Z ->
  let n := len path_points in
  let p0 := item origin path_points ((index - 1) mod n)%Z in
  let p1 := item origin path_points index in
  let p2 := item origin path_points ((index + 1) mod n)%Z in
  0 <= a -> 0 <= b -> 0 <= c -> 0.0001 <= area ->
  a * a = (c0 p1 - c0 p2) ^ 2 + (c1 p1 - c1 p2) ^ 2 ->
  b * b = (c0 p0 - c0 p2) ^ 2 + (c1 p0 - c1 p2) ^ 2 ->
  c * c = (c0 p0 - c0 p1) ^ 2 + (c1 p0 - c1 p1) ^ 2 ->
  area * area = (a + b + c) / 2 * ((a + b + c) / 2 - a)
                * ((a + b + c) / 2 - b) * ((a + b + c) / 2 - c) ->
  _compute_curvature_radius path_points index
  = Ok (Finite (a * b * c / (4 * area))).
Proof.
  intros Hn n p0 p1 p2 Ha Hb Hc Harea Ea Eb Ec Es.
  unfold _compute_curvature_radius. fold n.
  destruct (n <? 3)%Z eqn:Hlt; [apply Z.ltb_lt in Hlt; unfold n in Hlt; lia |].
  fold p0 p1 p2.
  rewrite !py_sqrt_ok by apply sum_pow2_nonneg. cbn [bind].
  rewrite (sqrt_val _ a Ha Ea), (sqrt_val _ b Hb Eb), (sqrt_val _ c Hc Ec).
  destruct (Rle_dec _ 0) as [Hle | Hgt]; [exfalso; nra |].
  rewrite py_sqrt_ok by lra. cbn [bind].
  rewrite (sqrt_val _ area ltac:(lra) Es).
  destruct (Rlt_dec area 0.0001); [lra |].
  rewrite py_div_ok by lra. reflexivity.
Qed.

Lemma xmin_same (x : R) : xmin (Finite x) (Finite x) = Finite x.
Proof. cbn [xmin]. rewrite Rmin_left by lra. reflexivity. Qed.

Lemma item_repeat {A : Type} (v d : A) (k : nat) (i : Z) :
  item d (repeat v k) i = v \/ item d (repeat v k) i = d.
Proof.
  unfold item. destruct (Nat.lt_ge_cases (Z.to_nat i) k) as [H | H].
  - left. apply nth_repeat_lt. exact H.
  - right. apply nth_overflow. rewrite repeat_length. exact H.
Qed.

(** Where all raw radii are one finite value, so is the smoothed one. *)
Lemma window_min_repeat (x : R) (k : nat) (n w i : Z) :
  (0 <= i < Z.of_nat k)%Z ->
  window_min (repeat (Finite x) k) n w i = Finite x.
Proof.
  intros Hi. unfold window_min.
  assert (H0 : item PosInf (repeat (Finite x) k) i = Finite x).
  { unfold item. apply nth_repeat_lt. lia. }
  rewrite H0. generalize (range (- w) (w + 1)). intros l.
  induction l as [| o l IH]; cbn [fold_left]; [reflexivity |].
  destruct (item_repeat (Finite x) PosInf k ((i + o) mod n)%Z) as [E | E];
    rewrite E; [rewrite xmin_same | cbn [xmin]]; exact IH.
Qed.

(** The small triangle: every sample has the radius 0.025 and turns
    left by the cross product 0.0012. *)
Lemma small_triangle_radii :
  _compute_curvature_radii small_triangle 2 = Ok (repeat (Finite 0.025) 3).
Proof.
  unfold _compute_curvature_radii.
  change (len small_triangle) with 3%Z. change (range0 3) with [0; 1; 2]%Z.
  cbn [mapM].
  rewrite (curvature_radius_value small_triangle 0 0.03 0.04 0.05 0.0006);
    [| unfold len; cbn; lia
     | change (len small_triangle) with 3%Z; cbv zeta;
       change (item origin small_triangle ((0 - 1) mod 3)) with ((0.03, 0.04, 0) : point3);
       change (item origin small_triangle ((0 + 1) mod 3)) with ((0.03, 0, 0) : point3);
       change (item origin small_triangle 0) with ((0, 0, 0) : point3);
       unfold c0, c1; cbn [fst snd]; lra ..].
  rewrite (curvature_radius_value small_triangle 1 0.04 0.05 0.03 0.0006);
    [| unfold len; cbn; lia
     | change (len small_triangle) with 3%Z; cbv zeta;
       change (item origin small_triangle ((1 - 1) mod 3)) with ((0, 0, 0) : point3);
       change (item origin small_triangle ((1 + 1) mod 3)) with ((0.03, 0.04, 0) : point3);
       change (item origin small_triangle 1) with ((0.03, 0, 0) : point3);
       unfold c0, c1; cbn [fst snd]; lra ..].
  rewrite (curvature_radius_value small_triangle 2 0.05 0.03 0.04 0.0006);
    [| unfold len; cbn; lia
     | change (len small_triangle) with 3%Z; cbv zeta;
       change (item origin small_triangle ((2 - 1) mod 3)) with ((0.03, 0, 0) : point3);
       change (item origin small_triangle ((2 + 1) mod 3)) with ((0, 0, 0) : point3);
       change (item origin small_triangle 2) with ((0.03, 0.04, 0) : point3);
       unfold c0, c1; cbn [fst snd]; lra ..].
  cbn [bind].
  replace (0.03 * 0.04 * 0.05 / (4 * 0.0006)) with 0.025 by lra.
  replace (0.04 * 0.05 * 0.03 / (4 * 0.0006)) with 0.025 by lra.
  replace (0.05 * 0.03 * 0.04 / (4 * 0.0006)) with 0.025 by lra.
  change [Finite 0.025; Finite 0.025; Finite 0.025] with (repeat (Finite 0.025) 3).
  cbn [map]. rewrite !window_min_repeat by lia. reflexivity.
Qed.

Lemma small_triangle_turn :
  item 0 (_compute_turn_directions small_triangle []) 0 = 0.0012.
Proof.
  unfold _compute_turn_directions.
  change (len small_triangle) with 3%Z. change (range0 3) with [0; 1; 2]%Z.
  cbn [map]. change (item 0 (?a :: _) 0) with a.
  unfold turn_direction_at.
  change (item origin small_triangle ((0 - 1) mod 3)) with ((0.03, 0.04, 0) : point3).
  change (item origin small_triangle ((0 + 1) mod 3)) with ((0.03, 0, 0) : point3).
  change (item origin small_triangle 0) with ((0, 0, 0) : point3).
  unfold c0, c1; cbn [fst snd]. lra.
Qed.

Lemma adaptive_offsets_value (path : list point3) (tangents : list point2)
  (half_width : R) (radii : list xfloat) :
  _compute_curvature_radii path 2 = Ok radii ->
  adaptive_offsets_of_path path tangents half_width =
  Ok (map (fun i => _get_adaptive_offsets (item PosInf radii i) half_width
                      (item 0 (_compute_turn_directions path tangents) i))
          (range0 (len path))).
Proof. intros H. unfold adaptive_offsets_of_path. rewrite H. reflexivity. Qed.

(** C3: [_get_adaptive_offsets] gives both sides the full half width
    when the radius exceeds three half widths (an infinite radius
    does); otherwise the side inside the turn -- the left one for a
    cross product above 0.001, the right one for a cross product below
    -0.001 -- gets [max(0.1, min(half_width, 0.85 * R - 0.1))], the
    outside keeps the half width, and a straight sample, with a cross
    product within 0.001 of zero, keeps it on both sides. *)
Theorem C3_adaptive_offset_rule (radius : xfloat) (half_width cross : R) :
  (match radius with
   | Finite r => r > 3 * half_width
   | PosInf => True
   end ->
   _get_adaptive_offsets radius half_width cross = (half_width, half_width))
  /\ (forall r, radius = Finite r -> r <= 3 * half_width ->
        let inner := Rmax 0.1 (Rmin half_width (0.85 * r - 0.1)) in
        (cross > 0.001 ->
           _get_adaptive_offsets radius half_width cross = (inner, half_width))
        /\ (cross < -0.001 ->
              _get_adaptive_offsets radius half_width cross = (half_width, inner))
        /\ (-0.001 <= cross <= 0.001 ->
              _get_adaptive_offsets radius half_width cross
              = (half_width, half_width))).
Proof.
  split.
  - intros H. apply offsets_wide. destruct radius as [r |]; cbn [xgt]; [| reflexivity].
    destruct (Rgt_dec r (half_width * 3)); [reflexivity | lra].
  - intros r -> Hr inner.
    rewrite offsets_tight by lra. fold inner.
    repeat split; intros Hc;
      destruct (Rgt_dec cross 0.001); try lra; try reflexivity;
      destruct (Rlt_dec cross (-0.001)); try lra; reflexivity.
Qed.

Lemma C3_adaptive_offset_rule_witness :
  2 <= 3 * 3 /\ 1 > 0.001
  /\ _get_adaptive_offsets (Finite 2) 3 1
     = (Rmax 0.1 (Rmin 3 (0.85 * 2 - 0.1)), 3).
Proof.
  split; [lra |]. split; [lra |].
  apply (proj2 (C3_adaptive_offset_rule (Finite 2) 3 1) 2 eq_refl); lra.
Defined.

(** C4, as the code has it: for every path and every positive half
    width the offsets are computed for every sample, both are positive
    and at most the larger of the half width and the floor 0.1; they
    are at most the half width whenever the half width is 0.1 or
    more. *)
Theorem C4_offsets_positive_bounded (path : list point3)
  (tangents : list point2) (half_width : R) :
  0 < half_width ->
  exists offsets,
    adaptive_offsets_of_path path tangents half_width = Ok offsets
    /\ List.length offsets = List.length path
    /\ forall o, In o offsets ->
         0 < fst o <= Rmax half_width 0.1
         /\ 0 < snd o <= Rmax half_width 0.1
         /\ (0.1 <= half_width -> fst o <= half_width /\ snd o <= half_width).
Proof.
  intros Hw. destruct (curvature_radii_total path 2) as [radii [Hr _]].
  rewrite (adaptive_offsets_value path tangents half_width radii Hr).
  eexists; split; [reflexivity |]. split.
  - rewrite length_map. unfold range0. rewrite range_length. unfold len. lia.
  - intros o Ho. apply in_map_iff in Ho. destruct Ho as [i [<- _]].
    pose proof (offsets_bounds (item PosInf radii i) half_width
                  (item 0 (_compute_turn_directions path tangents) i) Hw) as Hb.
    destruct (_get_adaptive_offsets _ _ _) as [l r]. cbn [fst snd].
    destruct Hb as [Hl Hrt]. repeat split; try lra.
    + rewrite Rmax_left in Hl by lra. lra.
    + rewrite Rmax_left in Hrt by lra. lra.
Qed.

Lemma C4_offsets_positive_bounded_witness :
  0 < 3
  /\ exists offsets,
       adaptive_offsets_of_path small_triangle [] 3 = Ok offsets
       /\ List.length offsets = List.length small_triangle
       /\ forall o, In o offsets ->
            0 < fst o <= Rmax 3 0.1
            /\ 0 < snd o <= Rmax 3 0.1
            /\ (0.1 <= 3 -> fst o <= 3 /\ snd o <= 3).
Proof.
  split; [lra |]. apply (C4_offsets_positive_bounded small_triangle [] 3). lra.
Defined.

(** C4 as stated fails: on the small triangle with the half width 0.05
    the first sample gets the left offset 0.1, above the half width. *)
Lemma C4_counterexample :
  0 < 0.05
  /\ exists offsets,
       adaptive_offsets_of_path small_triangle [] 0.05 = Ok offsets
       /\ In (0.1, 0.05) offsets
       /\ ~ (forall o, In o offsets ->
               0 < fst o <= 0.05 /\ 0 < snd o <= 0.05).
Proof.
  split; [lra |].
  rewrite (adaptive_offsets_value _ _ _ _ small_triangle_radii).
  eexists; split; [reflexivity |].
  assert (Hin : In (0.1, 0.05)
            (map (fun i => _get_adaptive_offsets
                             (item PosInf (repeat (Finite 0.025) 3) i) 0.05
                             (item 0 (_compute_turn_directions small_triangle []) i))
                 (range0 (len small_triangle)))).
  { change (len small_triangle) with 3%Z. change (range0 3) with [0; 1; 2]%Z.
    left. rewrite small_triangle_turn.
    change (item PosInf (repeat (Finite 0.025) 3) 0) with (Finite 0.025).
    rewrite offsets_tight by lra. cbv zeta.
    destruct (Rgt_dec 0.0012 0.001); [| lra].
    rewrite Rmax_left; [reflexivity |].
    pose proof (Rmin_l 0.05 (0.85 * 0.025 - 0.1)). lra. }
  split; [exact Hin |].
  intros H. specialize (H _ Hin). cbn [fst snd] in H. lra.
Qed.

(** C10: two paths that agree in x and y have the same curvature radii,
    the same turn directions and the same adaptive offsets, whatever
    their elevations. *)
Theorem C10_elevation_independence (p q : list point3)
  (tp tq : list point2) (window : Z) (half_width : R) :
  map xy p = map xy q ->
  _compute_curvature_radii p window = _compute_curvature_radii q window
  /\ _compute_turn_directions p tp = _compute_turn_directions q tq
  /\ adaptive_offsets_of_path p tp half_width
     = adaptive_offsets_of_path q tq half_width.
Proof.
  intros H. split; [apply curvature_radii_xy; exact H |].
  split; [apply turn_directions_xy; exact H |].
  unfold adaptive_offsets_of_path.
  rewrite (curvature_radii_xy p q 2 H), (turn_directions_xy p q tp tq H),
    (xy_len p q H).
  reflexivity.
Qed.

Lemma C10_elevation_independence_witness :
  map xy small_triangle = map xy small_triangle_raised
  /\ _compute_curvature_radii small_triangle 2
     = _compute_curvature_radii small_triangle_raised 2
  /\ _compute_turn_directions small_triangle []
     = _compute_turn_directions small_triangle_raised []
  /\ adaptive_offsets_of_path small_triangle [] 3
     = adaptive_offsets_of_path small_triangle_raised [] 3.
Proof.
  split; [reflexivity |].
  apply (C10_elevation_independence small_triangle small_triangle_raised). reflexivity.
Defined.

End CorridorClaims.

(** ** Mesh builders: C6, C9 *)

Module MeshClaims.

Import Corridor Frame Mesh Vocabulary Inputs.
Import MeshFacts FrameFacts TrackMesh BarrierMesh.

Lemma stitch_quads_length secs n i : List.length (stitch_quads secs n i) = 4%nat.
Proof. reflexivity. Qed.

Lemma succ_mod_nat (i n : nat) :
  (i < n)%nat ->
  Z.to_nat ((Z.of_nat i + 1) mod Z.of_nat n) = (S i mod n)%nat.
Proof.
  intros Hi. replace (Z.of_nat i + 1)%Z with (Z.of_nat (S i)) by lia.
  rewrite <- Nat2Z.inj_mod. apply Nat2Z.id.
Qed.

(** The faces of span [i] in a mesh stitched over [n] sections. *)
Lemma stitched_span (n i k : nat) :
  (i < n)%nat -> (k < 4)%nat ->
  nth (4 * i + k)
    (flat_map (stitch_quads (map (section_ids 0) (seq 0 n)) (Z.of_nat n))
       (range0 (Z.of_nat n))) []
  = nth k (span_quads (section_ids 0 i) (section_ids 0 (S i mod n))) [].
Proof.
  intros Hi Hk.
  rewrite (nth_flat_map_chunks _ 4 _ 0%Z) by
    (try apply stitch_quads_length; try (unfold range0; rewrite range_length); lia).
  unfold range0. rewrite range_nth by lia. rewrite Z.add_0_l.
  unfold stitch_quads.
  rewrite !sections_item by (try apply Z.mod_pos_bound; lia).
  rewrite Nat2Z.id, succ_mod_nat by exact Hi. reflexivity.
Qed.

(** C6: on a path of [n >= 3] samples the roadway builder returns a
    mesh with four vertices per sample -- the profile of sample [i] at
    the indices [4 i .. 4 i + 3] -- and [4 n] quads, four per span: the
    top, bottom, left-side and right-side quad between sample [i] and
    sample [(i + 1) mod n], the last span closing the loop. *)
Theorem C6_track_mesh_topology (name : string) (path : list point3)
  (width thickness : R) (adaptive : bool) :
  (3 <= len path)%Z ->
  let n := List.length path in
  exists tangents offsets obj,
    _create_track_along_path name path width thickness adaptive = Ok obj
    /\ verts (obj_mesh obj)
       = flat_map (track_profile tangents offsets thickness) (enumerate path)
    /\ List.length (verts (obj_mesh obj)) = (4 * n)%nat
    /\ List.length (faces (obj_mesh obj)) = (4 * n)%nat
    /\ forall i, (i < n)%nat ->
         let j := (S i mod n)%nat in
         nth (4 * i) (faces (obj_mesh obj)) []
           = [4 * i; 4 * j; 4 * j + 1; 4 * i + 1]%nat
         /\ nth (4 * i + 1) (faces (obj_mesh obj)) []
            = [4 * i + 3; 4 * i + 2; 4 * j + 2; 4 * j + 3]%nat
         /\ nth (4 * i + 2) (faces (obj_mesh obj)) []
            = [4 * i + 3; 4 * j + 3; 4 * j; 4 * i]%nat
         /\ nth (4 * i + 3) (faces (obj_mesh obj)) []
            = [4 * i + 1; 4 * j + 1; 4 * j + 2; 4 * i + 2]%nat.
Proof.
  intros Hn n.
  destruct (track_mesh_spec name path width thickness adaptive Hn)
    as [tangents [radii [obj [_ [_ [Hobj [_ [Hv Hf]]]]]]]].
  exists tangents. eexists. exists obj.
  split; [exact Hobj |]. split; [exact Hv |].
  split.
  { rewrite Hv, (length_flat_map_chunks _ 4), enumerate_length by reflexivity.
    reflexivity. }
  split.
  { rewrite Hf, (length_flat_map_chunks _ 4) by reflexivity.
    unfold range0. rewrite range_length. unfold len. fold n. lia. }
  intros i Hi j. rewrite Hf. unfold len. fold n.
  replace (4 * i)%nat with (4 * i + 0)%nat at 1 by lia.
  rewrite !stitched_span by lia. fold j.
  unfold span_quads, section_ids. cbn [nth].
  repeat split; apply ids4_eq; lia.
Qed.

Lemma C6_track_mesh_topology_witness :
  (3 <= len square)%Z
  /\ exists tangents offsets obj,
       _create_track_along_path "Track" square 6 0.3 true = Ok obj
       /\ verts (obj_mesh obj)
          = flat_map (track_profile tangents offsets 0.3) (enumerate square)
       /\ List.length (verts (obj_mesh obj)) = (4 * List.length square)%nat
       /\ List.length (faces (obj_mesh obj)) = (4 * List.length square)%nat
       /\ forall i, (i < List.length square)%nat ->
            let j := (S i mod List.length square)%nat in
            nth (4 * i) (faces (obj_mesh obj)) []
              = [4 * i; 4 * j; 4 * j + 1; 4 * i + 1]%nat
            /\ nth (4 * i + 1) (faces (obj_mesh obj)) []
               = [4 * i + 3; 4 * i + 2; 4 * j + 2; 4 * j + 3]%nat
            /\ nth (4 * i + 2) (faces (obj_mesh obj)) []
               = [4 * i + 3; 4 * j + 3; 4 * j; 4 * i]%nat
            /\ nth (4 * i + 3) (faces (obj_mesh obj)) []
               = [4 * i + 1; 4 * j + 1; 4 * j + 2; 4 * i + 2]%nat.
Proof.
  assert (H : (3 <= len square)%Z) by (unfold len; cbn; lia).
  split; [exact H |].
  exact (C6_track_mesh_topology "Track" square 6 0.3 true H).
Defined.

(** C9: on a path of three samples or more every tangent of
    [_compute_smooth_tangents] is [(cos a, sin a)] for an angle [a],
    hence of length one, and both mesh builders place the vertices of
    a sample along [(-ty, tx)], the tangent [(tx, ty)] of that sample
    turned a quarter to the left. *)
Theorem C9_unit_tangents_left_normals (name : string) (path : list point3)
  (window : Z) (width thickness : R) (adaptive : bool)
  (offset bwidth height base : R) (track_half_width : option R)
  (adaptive_offset : bool) :
  (3 <= len path)%Z ->
  let n := List.length path in
  (exists tangents,
     _compute_smooth_tangents path window = Ok tangents
     /\ List.length tangents = n
     /\ forall k, (k < n)%nat ->
          (exists a, nth k tangents (0, 0) = (cos a, sin a))
          /\ fst (nth k tangents (0, 0)) ^ 2 + snd (nth k tangents (0, 0)) ^ 2 = 1)
  /\ (exists tangents offsets obj,
        _compute_smooth_tangents path (Z.max 3 (len path / 20)) = Ok tangents
        /\ _create_track_along_path name path width thickness adaptive = Ok obj
        /\ forall k j, (k < n)%nat -> (j < 4)%nat ->
             let t := nth k tangents (0, 0) in
             nth (4 * k + j) (verts (obj_mesh obj)) origin
             = nth j (profile (- snd t) (fst t)
                        (fst (offsets (Z.of_nat k))) (snd (offsets (Z.of_nat k)))
                        0 thickness (nth k path origin)) origin)
  /\ (exists tangents actual_offset obj,
        _compute_smooth_tangents path (Z.max 3 (len path / 20)) = Ok tangents
        /\ _create_barrier_along_path name path offset bwidth height base
             track_half_width adaptive_offset = Ok obj
        /\ forall k j, (k < n)%nat -> (j < 4)%nat ->
             let t := nth k tangents (0, 0) in
             let p := nth k path origin in
             nth (4 * k + j) (verts (obj_mesh obj)) origin
             = nth j (profile (- snd t) (fst t) (bwidth / 2) (bwidth / 2) 0 height
                        (c0 p + (- snd t) * actual_offset (Z.of_nat k),
                         c1 p + fst t * actual_offset (Z.of_nat k),
                         c2 p + base)) origin).
Proof.
  intros Hn n. split; [| split].
  - destruct (smooth_tangents_total path window) as [ts [Ht [Hl Hk]]].
    exists ts. split; [exact Ht |]. split; [exact Hl |].
    intros k Hlt. destruct (Hk k Hlt) as [a Ha].
    split; [exists a; exact Ha |].
    rewrite Ha. cbn [fst snd].
    pose proof (sin2_cos2 a) as Hsc. unfold Rsqr in Hsc. lra.
  - destruct (track_mesh_spec name path width thickness adaptive Hn)
      as [tangents [radii [obj [Ht [_ [Hobj [_ [Hv _]]]]]]]].
    cbv zeta in Hv.
    match type of Hv with context [track_profile tangents ?f thickness] =>
      exists tangents, f, obj end.
    split; [exact Ht |]. split; [exact Hobj |].
    intros k j Hk Hj t. rewrite Hv.
    rewrite (nth_flat_map_chunks _ 4 _ (0%Z, origin))
      by (try reflexivity; try rewrite enumerate_length; assumption).
    rewrite enumerate_nth by exact Hk.
    unfold track_profile. cbn [fst snd]. unfold item. rewrite Nat2Z.id.
    reflexivity.
  - destruct (barrier_mesh_spec name path offset bwidth height base
                track_half_width adaptive_offset)
      as [tangents [ao [obj [Ht [Hobj [_ [Hv _]]]]]]].
    exists tangents, ao, obj.
    split; [exact Ht |]. split; [exact Hobj |].
    intros k j Hk Hj t p. rewrite Hv.
    rewrite (nth_flat_map_chunks _ 4 _ (0%Z, origin))
      by (try reflexivity; try rewrite enumerate_length; assumption).
    rewrite enumerate_nth by exact Hk.
    unfold barrier_profile. cbn [fst snd]. unfold item. rewrite Nat2Z.id.
    reflexivity.
Qed.

Lemma C9_unit_tangents_left_normals_witness :
  (3 <= len square)%Z /\
  let n := List.length square in
  (exists tangents,
     _compute_smooth_tangents square 3%Z = Ok tangents
     /\ List.length tangents = n
     /\ forall k, (k < n)%nat ->
          (exists a, nth k tangents (0, 0) = (cos a, sin a))
          /\ fst (nth k tangents (0, 0)) ^ 2 + snd (nth k tangents (0, 0)) ^ 2 = 1)
  /\ (exists tangents offsets obj,
        _compute_smooth_tangents square (Z.max 3 (len square / 20)) = Ok tangents
        /\ _create_track_along_path "Track" square 6 0.3 true = Ok obj
        /\ forall k j, (k < n)%nat -> (j < 4)%nat ->
             let t := nth k tangents (0, 0) in
             nth (4 * k + j) (verts (obj_mesh obj)) origin
             = nth j (profile (- snd t) (fst t)
                        (fst (offsets (Z.of_nat k))) (snd (offsets (Z.of_nat k)))
                        0 0.3 (nth k square origin)) origin)
  /\ (exists tangents actual_offset obj,
        _compute_smooth_tangents square (Z.max 3 (len square / 20)) = Ok tangents
        /\ _create_barrier_along_path "Track" square 3.06 0.12 0.6 0.3
             (Some 3) true = Ok obj
        /\ forall k j, (k < n)%nat -> (j < 4)%nat ->
             let t := nth k tangents (0, 0) in
             let p := nth k square origin in
             nth (4 * k + j) (verts (obj_mesh obj)) origin
             = nth j (profile (- snd t) (fst t) (0.12 / 2) (0.12 / 2) 0 0.6
                        (c0 p + (- snd t) * actual_offset (Z.of_nat k),
                         c1 p + fst t * actual_offset (Z.of_nat k),
                         c2 p + 0.3)) origin).
Proof.
  assert (H : (3 <= len square)%Z) by (unfold len; cbn; lia).
  split; [exact H |].
  exact (C9_unit_tangents_left_normals "Track" square 3 6 0.3 true 3.06 0.12 0.6 0.3
           (Some 3) true H).
Defined.

End MeshClaims.

(** ** Path conditioner: C2, C7 *)

Module ConditionerClaims.

Import Conditioner Vocabulary Inputs ConditionerFacts ResampleFacts.

Lemma asin_inj (x y : R) :
  -1 <= x <= 1 -> -1 <= y <= 1 -> asin x = asin y -> x = y.
Proof.
  intros Hx Hy H. rewrite <- (sin_asin x Hx), <- (sin_asin y Hy), H. reflexivity.
Qed.

Lemma safe_angle_ratio (track_width L : R) :
  0 < track_width -> L / (2 * (track_width / 2)) = L / track_width.
Proof. intros H. field. lra. Qed.

(** C2, as the code has it: for a positive corridor width [W] the safe
    angle of a segment length [L] is 0.1 when [L < 0.001]; otherwise it
    is [pi * 0.4] when [L >= W] and [2 * asin(max(0.05, 0.8 * L / W))]
    when [L < W], which is [2 * asin(0.8 * L / W)] from
    [L >= 0.0625 * W] on. *)
Theorem C2_safe_angle (track_width L : R) :
  0 < track_width ->
  let half_width := track_width / 2 in
  (L < 0.001 -> get_safe_angle half_width L = Ok 0.1)
  /\ (0.001 <= L -> track_width <= L ->
        get_safe_angle half_width L = Ok (PI * 0.4))
  /\ (0.001 <= L -> L < track_width ->
        get_safe_angle half_width L
        = Ok (2 * asin (Rmax 0.05 (0.8 * L / track_width))))
  /\ (0.001 <= L -> 0.0625 * track_width <= L < track_width ->
        get_safe_angle half_width L = Ok (2 * asin (0.8 * L / track_width))).
Proof.
  intros Hw half_width. unfold half_width, get_safe_angle.
  assert (Hge : track_width <= L -> L / track_width >= 1).
  { intros H. apply Rle_ge. apply Rmult_le_reg_r with track_width; [lra |].
    unfold Rdiv. rewrite Rmult_assoc, Rinv_l by lra. lra. }
  assert (Hlt : L < track_width -> L / track_width < 1).
  { intros H. apply Rmult_lt_reg_r with track_width; [lra |].
    unfold Rdiv. rewrite Rmult_assoc, Rinv_l by lra. lra. }
  assert (Hsafe : 0.001 <= L -> L < track_width ->
            (if Rlt_dec L 0.001 then Ok 0.1
             else ratio <- py_div L (2 * (track_width / 2)) ;;
                  if Rge_dec ratio 1 then Ok (PI * 0.4)
                  else a <- py_asin (Rmax 0.05 (Rmin 0.99 (ratio * 0.8))) ;;
                       Ok (2 * a))
            = Ok (2 * asin (Rmax 0.05 (0.8 * L / track_width)))).
  { intros H1 H2. destruct (Rlt_dec L 0.001); [lra |].
    rewrite py_div_ok by lra. cbn [bind]. rewrite safe_angle_ratio by exact Hw.
    specialize (Hlt H2). destruct (Rge_dec (L / track_width) 1); [lra |].
    rewrite py_asin_ok
      by (pose proof (safe_sin_range (L / track_width)); lra).
    cbn [bind]. rewrite Rmin_right by lra.
    replace (L / track_width * 0.8) with (0.8 * L / track_width) by (field; lra).
    reflexivity. }
  split; [| split; [| split]].
  - intros H. destruct (Rlt_dec L 0.001); [reflexivity | lra].
  - intros H1 H2. destruct (Rlt_dec L 0.001); [lra |].
    rewrite py_div_ok by lra. cbn [bind]. rewrite safe_angle_ratio by exact Hw.
    specialize (Hge H2). destruct (Rge_dec (L / track_width) 1); [reflexivity | lra].
  - exact Hsafe.
  - intros H1 [H2 H3]. rewrite (Hsafe H1 H3). rewrite Rmax_right; [reflexivity |].
    apply Rmult_le_reg_r with track_width; [lra |].
    unfold Rdiv. rewrite Rmult_assoc, Rinv_l by lra. lra.
Qed.

Lemma C2_safe_angle_witness :
  0 < 6 /\ 0.001 <= 3 /\ 0.0625 * 6 <= 3 < 6
  /\ get_safe_angle (6 / 2) 3 = Ok (2 * asin (0.8 * 3 / 6)).
Proof.
  assert (H6 : 0 < 6) by lra.
  split; [exact H6 |]. split; [lra |]. split; [lra |].
  apply (proj2 (proj2 (proj2 (C2_safe_angle 6 3 H6)))); lra.
Defined.

(** C2 as stated fails: for the segment length 0.06 and the width 6 the
    safe angle is [2 * asin 0.05], not [2 * asin(0.8 * 0.06 / 6)]. *)
Lemma C2_counterexample :
  0.06 < 6
  /\ get_safe_angle (6 / 2) 0.06 = Ok (2 * asin 0.05)
  /\ get_safe_angle (6 / 2) 0.06 <> Ok (2 * asin (0.8 * 0.06 / 6)).
Proof.
  assert (Hv : get_safe_angle (6 / 2) 0.06 = Ok (2 * asin 0.05)).
  { unfold get_safe_angle. destruct (Rlt_dec 0.06 0.001); [lra |].
    rewrite py_div_ok by lra. cbn [bind].
    destruct (Rge_dec (0.06 / (2 * (6 / 2))) 1); [lra |].
    rewrite Rmin_right by lra. rewrite Rmax_left by lra.
    rewrite py_asin_ok by lra. reflexivity. }
  split; [lra |]. split; [exact Hv |].
  rewrite Hv. intros H. inversion H as [He].
  assert (Ha : asin 0.05 = asin (0.8 * 0.06 / 6)) by lra.
  apply asin_inj in Ha; lra.
Qed.

(** C7, where the code departs from it: a path of three samples or
    more whose first sample is repeated is resampled, for any non-zero
    spacing and positive minimum count, to that many or more copies of
    its first sample; the walk never leaves the first segment. *)
Theorem C7_resample_stuck_on_repeated_sample (path : list point3)
  (spacing : R) (min_points : Z) :
  (3 <= len path)%Z ->
  spacing <> 0 ->
  (0 < min_points)%Z ->
  item origin path 0 = item origin path 1 ->
  exists k : nat,
    (min_points <= Z.of_nat k)%Z
    /\ _resample_path_uniform path (Some spacing) min_points
       = Ok (repeat (item origin path 0) k).
Proof.
  intros Hn Hs Hmin Hdup.
  unfold _resample_path_uniform.
  destruct (len path <? 3)%Z eqn:Hlt; [apply Z.ltb_lt in Hlt; lia |].
  rewrite segment_lengths_ok. cbn [bind].
  rewrite py_div_ok by exact Hs. cbn [bind].
  set (target_points := Z.max min_points _).
  rewrite py_div_ok by (apply not_0_IZR; lia). cbn [bind].
  set (segment_lengths := map (segment_length path (len path)) (range0 (len path))).
  assert (Hshort : item 0 segment_lengths 0 <= 0.001).
  { unfold segment_lengths. rewrite segment_lengths_item by lia.
    unfold segment_length. rewrite Z.mod_small by lia.
    change (0 + 1)%Z with 1%Z. rewrite <- Hdup.
    replace (sqrt _) with 0; [lra |].
    symmetry. apply sqrt_lem_1; lra. }
  match goal with |- context [foldM (resample_step _ _ _ ?sp) ?l ?s] =>
    destruct (resample_fold_stuck path segment_lengths (len path) sp 0%Z l Hshort [] 0)
      as [prog' Hp] end.
  exists (Z.to_nat target_points). split; [lia |].
  etransitivity.
  { apply (f_equal (fun m => bind m _)). exact Hp. }
  cbn [bind app]. unfold range0. rewrite range_length.
  repeat f_equal. lia.
Qed.

Lemma C7_resample_stuck_on_repeated_sample_witness :
  (3 <= len doubled_start)%Z /\ 6 / 3 <> 0 /\ (0 < 100)%Z
  /\ item origin doubled_start 0 = item origin doubled_start 1
  /\ exists k : nat,
       (100 <= Z.of_nat k)%Z
       /\ _resample_path_uniform doubled_start (Some (6 / 3)) 100
          = Ok (repeat (item origin doubled_start 0) k).
Proof.
  assert (H1 : (3 <= len doubled_start)%Z) by (unfold len; cbn; lia).
  assert (H2 : 6 / 3 <> 0) by lra.
  assert (H3 : (0 < 100)%Z) by lia.
  assert (H4 : item origin doubled_start 0 = item origin doubled_start 1)
    by reflexivity.
  split; [exact H1 |]. split; [exact H2 |]. split; [exact H3 |].
  split; [exact H4 |].
  exact (C7_resample_stuck_on_repeated_sample doubled_start (6 / 3) 100 H1 H2 H3 H4).
Defined.

End ConditionerClaims.

(** ** Errors and degeneracies: C5, C8 *)

Module DegeneracyClaims.

Import Corridor Frame Mesh Conditioner Synth Pipeline Vocabulary Inputs.
Import CorridorFacts FrameFacts ResampleFacts RelaxFacts TrackMesh PipelineFacts
  SynthFacts CorridorClaims.

(** A sample whose neighbours at every offset of the window coincide
    in pairs has the zero sum of directions and gets the fixed tangent
    [(1, 0)]. *)
Lemma raw_tangent_fallback (path : list point3) (n window i : Z) :
  (forall o, (1 <= o <= window)%Z ->
     xy (item origin path ((i - o) mod n)%Z)
     = xy (item origin path ((i + o) mod n)%Z)) ->
  raw_tangent_at path n window i = Ok (1, 0).
Proof.
  intros Hsame. unfold raw_tangent_at.
  match goal with |- bind (foldM ?f ?l ?s0) _ = _ =>
    destruct (foldM_invariant
                (fun st : R * R * R => fst (fst st) = 0 /\ snd (fst st) = 0) f l)
      with (s := s0) as [[[tx ty] ws] [Hfold [Hx Hy]]] end.
  { intros [[tx ty] ws] o Hin [Hx Hy]. cbn [fst snd] in Hx, Hy. subst tx ty.
    apply range_In in Hin.
    rewrite py_div_ok by (apply not_0_IZR; lia). cbn [bind].
    eexists; split; [reflexivity |]. cbn [fst snd].
    pose proof (Hsame o ltac:(lia)) as Hxy. unfold xy in Hxy.
    inversion Hxy as [[H0 H1]]. rewrite H0, H1. split; ring. }
  { split; reflexivity. }
  cbn [fst snd] in Hx, Hy. subst tx ty. rewrite Hfold. cbn [bind].
  assert (Hzero : (length <- py_sqrt (0 * 0 + 0 * 0) ;;
                   if Rgt_dec length 0.001 then
                     tx <- py_div 0 length ;; ty <- py_div 0 length ;; Ok (tx, ty)
                   else Ok (1, 0)) = Ok (1, 0)).
  { rewrite py_sqrt_ok by lra. cbn [bind].
    replace (0 * 0 + 0 * 0) with 0 by ring. rewrite sqrt_0.
    destruct (Rgt_dec 0 0.001); [lra | reflexivity]. }
  destruct (Rgt_dec ws 0).
  - rewrite !py_div_ok by lra. cbn [bind].
    replace (0 / ws) with 0 by (field; lra). exact Hzero.
  - cbn [bind]. exact Hzero.
Qed.

Lemma resample_any (path : list point3) (track_width : R) :
  track_width <> 0 ->
  is_ok (_resample_path_uniform path (Some (track_width / 3)) 100).
Proof.
  intros Hw. destruct (Z_lt_le_dec (len path) 3) as [Hs | Hl].
  - rewrite resample_short by exact Hs. eexists; reflexivity.
  - destruct (resample_pipeline path track_width Hl Hw) as [r [Hr _]].
    exists r. exact Hr.
Qed.

(** The raw tangents of [repeated_pair]: the first sample, between the
    two coinciding samples, gets [(1, 0)]; its neighbours point along
    the y axis. *)
Lemma repeated_pair_raw_tangents :
  raw_tangents repeated_pair 3 = Ok [(1, 0); (0, 1); (0, -1)].
Proof.
  unfold raw_tangents.
  change (len repeated_pair) with 3%Z. change (range0 3) with [0; 1; 2]%Z.
  cbn [mapM].
  rewrite raw_tangent_fallback.
  2:{ intros o Ho. assert (o = 1 \/ o = 2 \/ o = 3)%Z as [-> | [-> | ->]] by lia;
        reflexivity. }
  cbn [bind].
  assert (H1 : raw_tangent_at repeated_pair 3 3 1 = Ok (0, 1)).
  { unfold raw_tangent_at. change (range 1 (3 + 1)) with [1; 2; 3]%Z.
    cbn [foldM]. repeat (rewrite py_div_ok by lra; cbn [bind]).
    unfold repeated_pair. eval_items. unfold c0, c1. cbn [fst snd].
    match goal with |- context [Rgt_dec ?w 0] =>
      destruct (Rgt_dec w 0); [| exfalso; lra] end.
    repeat (rewrite py_div_ok by lra; cbn [bind]). cbn [bind].
    rewrite py_sqrt_ok by nra. cbn [bind].
    rewrite (sqrt_val _ (3 / 11)) by lra.
    destruct (Rgt_dec (3 / 11) 0.001); [| lra].
    rewrite !py_div_ok by lra. cbn [bind].
    f_equal. f_equal; lra. }
  assert (H2 : raw_tangent_at repeated_pair 3 3 2 = Ok (0, -1)).
  { unfold raw_tangent_at. change (range 1 (3 + 1)) with [1; 2; 3]%Z.
    cbn [foldM]. repeat (rewrite py_div_ok by lra; cbn [bind]).
    unfold repeated_pair. eval_items. unfold c0, c1. cbn [fst snd].
    match goal with |- context [Rgt_dec ?w 0] =>
      destruct (Rgt_dec w 0); [| exfalso; lra] end.
    repeat (rewrite py_div_ok by lra; cbn [bind]). cbn [bind].
    rewrite py_sqrt_ok by nra. cbn [bind].
    rewrite (sqrt_val _ (3 / 11)) by lra.
    destruct (Rgt_dec (3 / 11) 0.001); [| lra].
    rewrite !py_div_ok by lra. cbn [bind].
    f_equal. f_equal; lra. }
  rewrite H1. cbn [bind]. rewrite H2. reflexivity.
Qed.

(** C8, as the code has it: for a positive width every stage returns
    on every path, repeated samples and collinear triples included --
    the resampler, the curvature limiter, the frame computer, the
    curvature radii, and on three samples or more the surface builder
    and the whole pipeline; the synthesizer returns on any three
    control points or more.  A sample whose sum of directions is zero
    gets the fixed tangent [(1, 0)].  A collinear triple has the
    infinite radius, an infinite radius leaves both offsets at the half
    width, and so does the zero cross product of a collinear triple
    whatever the smoothed radius. *)
Theorem C8_degeneracies_handled (path : list point3) (track_width : R)
  (window : Z) :
  0 < track_width ->
  let n := len path in
  (is_ok (_resample_path_uniform path (Some (track_width / 3)) 100)
   /\ is_ok (_limit_path_curvature path track_width 50)
   /\ is_ok (_compute_smooth_tangents path window)
   /\ is_ok (_compute_curvature_radii path 2)
   /\ ((3 <= n)%Z ->
       forall name thickness barrier_height barrier_width barriers location resample,
         is_ok (_create_track_along_path name path track_width thickness true)
         /\ is_ok (create_track_from_path name path track_width thickness
                     barrier_height barrier_width barriers location resample))
   /\ (forall waypoints segments adaptive,
         (3 <= len waypoints)%Z ->
         is_ok (generate_custom_path waypoints None segments adaptive)))
  /\ (forall i,
        (forall o, (1 <= o <= window)%Z ->
           xy (item origin path ((i - o) mod n)%Z)
           = xy (item origin path ((i + o) mod n)%Z)) ->
        raw_tangent_at path n window i = Ok (1, 0))
  /\ (forall i half_width,
        turn_direction_at path n i = 0 ->
        _compute_curvature_radius path i = Ok PosInf
        /\ (forall cross,
              _get_adaptive_offsets PosInf half_width cross
              = (half_width, half_width))
        /\ (forall radius,
              _get_adaptive_offsets radius half_width (turn_direction_at path n i)
              = (half_width, half_width))).
Proof.
  intros Hw n. split; [| split].
  - split; [apply resample_any; lra |].
    split.
    { destruct (limit_total path track_width 50 ltac:(lra)) as [f [Hf _]].
      exists f; exact Hf. }
    split.
    { destruct (smooth_tangents_total path window) as [ts [Ht _]].
      exists ts; exact Ht. }
    split.
    { destruct (curvature_radii_total path 2) as [r [Hr _]]. exists r; exact Hr. }
    split.
    { intros Hn name thickness bh bw barriers location resample. split.
      - destruct (track_mesh_spec name path track_width thickness true Hn)
          as [tg [rd [obj [_ [_ [Hobj _]]]]]].
        exists obj; exact Hobj.
      - destruct (pipeline_total name path track_width thickness bh bw barriers
                    location resample Hn ltac:(lra)) as [objs [Ho _]].
        exists objs; exact Ho. }
    intros waypoints segments adaptive Hlen.
    apply generate_total; [exact Hlen | exact I].
  - intros i Hsame. apply raw_tangent_fallback. exact Hsame.
  - intros i half_width Hcross.
    split; [apply curvature_radius_collinear; exact Hcross |].
    split; [intros cross; reflexivity |].
    intros radius. rewrite Hcross. unfold _get_adaptive_offsets.
    destruct (xgt radius (half_width * 3)); [reflexivity |].
    destruct (Rgt_dec 0 0.001); [lra |].
    destruct (Rlt_dec 0 (-0.001)); [lra | reflexivity].
Qed.

Lemma C8_degeneracies_handled_witness :
  0 < 6
  /\ is_ok (_resample_path_uniform repeated_pair (Some (6 / 3)) 100)
  /\ raw_tangent_at repeated_pair (len repeated_pair) 3 0 = Ok (1, 0).
Proof.
  assert (H6 : 0 < 6) by lra.
  pose proof (C8_degeneracies_handled repeated_pair 6 3 H6) as H.
  cbv zeta in H. destruct H as [[Hres _] [Hraw _]].
  split; [exact H6 |]. split; [exact Hres |].
  apply Hraw. intros o Ho.
  assert (o = 1 \/ o = 2 \/ o = 3)%Z as [-> | [-> | ->]] by lia; reflexivity.
Defined.

(** C8 as stated fails: on [repeated_pair] the first sample has the
    zero sum of directions and gets the tangent [(1, 0)], which is the
    direction of neither neighbour: the sample before it has [(0, -1)]
    and the sample after it [(0, 1)]. *)
Lemma C8_counterexample :
  raw_tangents repeated_pair 3 = Ok [(1, 0); (0, 1); (0, -1)]
  /\ (1, 0) <> (0, -1) /\ (1, 0) <> (0, 1).
Proof.
  split; [exact repeated_pair_raw_tangents |].
  split; intros H; inversion H; lra.
Qed.

(** C5, as the code has it: fewer than three control points make
    [generate_custom_path] raise its [ValueError] at once, and a path
    of fewer than three samples makes [create_track_from_path] raise
    the [ValueError] of the surface builder, with no mesh made; the
    width and the thickness are not checked: on three samples or more
    every non-zero width and every thickness, barrier height and
    barrier width give the meshes. *)
Theorem C5_configuration_checks :
  (forall waypoints height_profile segments adaptive,
     (len waypoints < 3)%Z ->
     generate_custom_path waypoints height_profile segments adaptive
     = Raise (ValueError "至少需要3个控制点"))
  /\ (forall name path width thickness barrier_height barrier_width barriers
             location resample,
        (len path < 3)%Z ->
        create_track_from_path name path width thickness barrier_height
          barrier_width barriers location resample
        = Raise (ValueError "路径至少需要3个点"))
  /\ (forall name path width thickness barrier_height barrier_width barriers
             location resample,
        (3 <= len path)%Z -> width <> 0 ->
        exists objects,
          create_track_from_path name path width thickness barrier_height
            barrier_width barriers location resample = Ok objects
          /\ List.length objects = (if barriers then 3 else 1)%nat).
Proof.
  split; [| split].
  - intros. apply generate_rejects_short. assumption.
  - intros. apply pipeline_short. assumption.
  - intros. apply pipeline_total; assumption.
Qed.

Lemma C5_configuration_checks_witness :
  (len [(0, 0); (1, 1)] < 3)%Z
  /\ generate_custom_path [(0, 0); (1, 1)] None 16 true
     = Raise (ValueError "至少需要3个控制点").
Proof.
  assert (H : (len [(0, 0); (1, 1)] < 3)%Z) by (unfold len; cbn; lia).
  split; [exact H |].
  exact (proj1 C5_configuration_checks [(0, 0); (1, 1)] None 16%Z true H).
Defined.

(** C5 as stated fails: a thickness of zero, and a negative width with
    a negative thickness, are accepted and meshed. *)
Lemma C5_counterexample :
  0 <= 0 /\ -6 <= 0 /\ -1 <= 0
  /\ (exists objects,
        create_track_from_path "Track" square 6 0 0.6 0.12 true (0, 0, 0) true
        = Ok objects /\ List.length objects = 3%nat)
  /\ (exists objects,
        create_track_from_path "Track" square (-6) (-1) 0.6 0.12 true (0, 0, 0) true
        = Ok objects /\ List.length objects = 3%nat).
Proof.
  assert (H : (3 <= len square)%Z) by (unfold len; cbn; lia).
  split; [lra |]. split; [lra |]. split; [lra |]. split.
  - apply (pipeline_total "Track" square 6 0 0.6 0.12 true (0, 0, 0) true H). lra.
  - apply (pipeline_total "Track" square (-6) (-1) 0.6 0.12 true (0, 0, 0) true H). lra.
Qed.

End DegeneracyClaims.

(** ** Curvature limiting: C1 *)

Module RelaxationClaims.

Import Conditioner Vocabulary Inputs ConditionerFacts RelaxFacts CorridorClaims.
Import DegeneracyClaims.

(** *** Monotonicity of the inverse trigonometric functions *)

Lemma asin_le (x y : R) : -1 <= x -> x <= y -> y <= 1 -> asin x <= asin y.
Proof.
  intros Hx Hxy Hy.
  destruct (Rle_lt_dec (asin x) (asin y)) as [H | H]; [exact H | exfalso].
  pose proof (asin_bound x) as Bx. pose proof (asin_bound y) as By.
  assert (Hs : sin (asin y) < sin (asin x))
    by (apply sin_increasing_1; lra).
  rewrite !sin_asin in Hs by lra. lra.
Qed.

Lemma acos_nonpos (x : R) : -1 <= x <= 0 -> PI / 2 <= acos x.
Proof.
  intros Hx.
  destruct (Rle_lt_dec (PI / 2) (acos x)) as [H | H]; [exact H | exfalso].
  pose proof (acos_bound x) as B. pose proof PI_RGT_0 as Hpi.
  assert (Hc : cos (PI / 2) < cos (acos x))
    by (apply cos_decreasing_1; lra).
  rewrite cos_PI2, cos_acos in Hc by lra. lra.
Qed.

Lemma PI_gt_3 : 3 < PI.
Proof. pose proof PI2_3_2. lra. Qed.

(** *** Values of the measurements *)

Lemma turn_angle_degenerate (points : list point3) (n i : Z) :
  xy (item origin points ((i - 1) mod n)%Z) = xy (item origin points i)
  \/ xy (item origin points ((i + 1) mod n)%Z) = xy (item origin points i) ->
  get_turn_angle points n i = Ok (0, 0, 0).
Proof.
  intros H. unfold get_turn_angle.
  rewrite !py_sqrt_ok by apply sum_sq_nonneg. cbn [bind].
  destruct H as [H | H]; unfold xy in H; inversion H as [[H0 H1]].
  - rewrite H0, H1.
    replace ((c0 (item origin points i) - c0 (item origin points i))
             * (c0 (item origin points i) - c0 (item origin points i))
             + (c1 (item origin points i) - c1 (item origin points i))
               * (c1 (item origin points i) - c1 (item origin points i)))
      with 0 by ring.
    rewrite sqrt_0. destruct (Rlt_dec 0 0.001); [reflexivity | lra].
  - rewrite H0, H1.
    replace ((c0 (item origin points i) - c0 (item origin points i))
             * (c0 (item origin points i) - c0 (item origin points i))
             + (c1 (item origin points i) - c1 (item origin points i))
               * (c1 (item origin points i) - c1 (item origin points i)))
      with 0 by ring.
    rewrite sqrt_0.
    destruct (Rlt_dec _ 0.001); [reflexivity |].
    destruct (Rlt_dec 0 0.001); [reflexivity | lra].
Qed.

(** A sample at the place of one of its neighbours is never in excess. *)
Lemma excess_degenerate (half_width : R) (n : Z) (points : list point3) (i : Z) :
  xy (item origin points ((i - 1) mod n)%Z) = xy (item origin points i)
  \/ xy (item origin points ((i + 1) mod n)%Z) = xy (item origin points i) ->
  excess_at half_width n points i = Ok 0.
Proof.
  intros H. unfold excess_at. rewrite turn_angle_degenerate by exact H.
  cbn [bind]. unfold get_safe_angle.
  destruct (Rlt_dec 0 0.001); [| lra]. cbn [bind].
  destruct (Rgt_dec 0 0.1); [lra | reflexivity].
Qed.

Lemma turn_angle_value (points : list point3) (n i : Z) (len1 len2 : R) :
  let p := item origin points ((i - 1) mod n)%Z in
  let c := item origin points i in
  let q := item origin points ((i + 1) mod n)%Z in
  let dx1 := c0 c - c0 p in
  let dy1 := c1 c - c1 p in
  let dx2 := c0 q - c0 c in
  let dy2 := c1 q - c1 c in
  0.001 <= len1 -> 0.001 <= len2 ->
  len1 * len1 = dx1 * dx1 + dy1 * dy1 ->
  len2 * len2 = dx2 * dx2 + dy2 * dy2 ->
  get_turn_angle points n i =
  Ok (acos (Rmax (-1) (Rmin 1 (dx1 / len1 * (dx2 / len2) + dy1 / len1 * (dy2 / len2)))),
      (len1 + len2) / 2,
      dx1 / len1 * (dy2 / len2) - dy1 / len1 * (dx2 / len2)).
Proof.
  intros p c q dx1 dy1 dx2 dy2 H1 H2 E1 E2. unfold get_turn_angle.
  fold p c q. fold dx1 dy1 dx2 dy2.
  rewrite !py_sqrt_ok by apply sum_sq_nonneg. cbn [bind].
  rewrite (sqrt_val _ len1) by lra. rewrite (sqrt_val _ len2) by lra.
  destruct (Rlt_dec len1 0.001); [lra |].
  destruct (Rlt_dec len2 0.001); [lra |].
  rewrite !py_div_ok by lra. cbn [bind].
  rewrite py_acos_ok by apply clamp_unit. reflexivity.
Qed.

Lemma safe_angle_long (half_width s : R) :
  0 < half_width -> 0.001 <= s -> 2 * half_width <= s ->
  get_safe_angle half_width s = Ok (PI * 0.4).
Proof.
  intros Hw Hs Hl. unfold get_safe_angle.
  destruct (Rlt_dec s 0.001); [lra |].
  rewrite py_div_ok by lra. cbn [bind].
  destruct (Rge_dec (s / (2 * half_width)) 1) as [_ | Hn]; [reflexivity |].
  exfalso. apply Hn. apply Rle_ge.
  apply Rmult_le_reg_r with (2 * half_width); [lra |].
  unfold Rdiv. rewrite Rmult_assoc, Rinv_l by lra. lra.
Qed.

Lemma safe_angle_short (half_width s : R) :
  0 < half_width -> 0.001 <= s -> s < 2 * half_width ->
  get_safe_angle half_width s
  = Ok (2 * asin (Rmax 0.05 (Rmin 0.99 (s / (2 * half_width) * 0.8)))).
Proof.
  intros Hw Hs Hl. unfold get_safe_angle.
  destruct (Rlt_dec s 0.001); [lra |].
  rewrite py_div_ok by lra. cbn [bind].
  destruct (Rge_dec (s / (2 * half_width)) 1) as [Hge | _].
  - exfalso. apply Rge_le in Hge.
    apply (Rmult_le_compat_r (2 * half_width)) in Hge; [| lra].
    unfold Rdiv in Hge. rewrite Rmult_assoc, Rinv_l in Hge by lra. lra.
  - rewrite py_asin_ok
      by (pose proof (safe_sin_range (s / (2 * half_width))); lra).
    reflexivity.
Qed.

(** *** The kinked path *)

Lemma sharp_turn_range : 0 < sharp_turn < PI / 2.
Proof. pose proof PI_gt_3. unfold sharp_turn. lra. Qed.

Lemma sharp_turn_cos : 0 < cos sharp_turn <= 1.
Proof.
  pose proof sharp_turn_range as H. split.
  - apply cos_gt_0; lra.
  - apply COS_bound.
Qed.

Lemma sharp_turn_tan : 0 < tan sharp_turn.
Proof. apply tan_gt_0; apply sharp_turn_range. Qed.

Lemma sharp_turn_leg :
  8 / cos sharp_turn * (8 / cos sharp_turn)
  = 8 * 8 + (8 * tan sharp_turn) * (8 * tan sharp_turn).
Proof.
  pose proof sharp_turn_cos as Hc.
  pose proof (sin2_cos2 sharp_turn) as Hsc. unfold Rsqr in Hsc.
  unfold tan. field_simplify_eq; [| lra]. nra.
Qed.

Lemma half_width_kinked : 1.001 / 2 <> 0 /\ 0 < 1.001 / 2 /\ 2 * (1.001 / 2) = 1.001.
Proof. lra. Qed.

Lemma kinked_excess_0 : excess_at (1.001 / 2) 6 kinked 0 = Ok 0.
Proof. apply excess_degenerate. left. reflexivity. Qed.

Lemma inv_sqrt2_le : / sqrt 2 <= 0.75.
Proof.
  assert (H : 4 / 3 <= sqrt 2).
  { rewrite <- (sqrt_val (16 / 9) (4 / 3)) by lra. apply sqrt_le_1; lra. }
  replace 0.75 with (/ (4 / 3)) by lra.
  apply Rinv_le_contravar; lra.
Qed.

Lemma kinked_excess_1 : excess_at (1.001 / 2) 6 kinked 1 = Ok 0.
Proof.
  unfold excess_at.
  rewrite (turn_angle_value kinked 6 1 1 1);
    [| lra | lra
     | unfold kinked; eval_items; unfold c0, c1; cbn [fst snd]; lra
     | unfold kinked; eval_items; unfold c0, c1; cbn [fst snd]; lra].
  cbn [bind].
  rewrite safe_angle_short by lra. cbn [bind].
  unfold kinked. eval_items. unfold c0, c1. cbn [fst snd].
  replace ((0 - 0) / 1 * ((1 - 0) / 1) + (0 - -1) / 1 * ((0 - 0) / 1)) with 0 by lra.
  rewrite Rmin_right by lra. rewrite Rmax_right by lra. rewrite acos_0.
  rewrite Rmin_right by lra. rewrite Rmax_right by lra.
  assert (Hs : PI / 4 <= asin ((1 + 1) / 2 / (2 * (1.001 / 2)) * 0.8)).
  { rewrite <- asin_inv_sqrt2. pose proof inv_sqrt2_le.
    assert (0 < / sqrt 2) by (apply Rinv_0_lt_compat, sqrt_lt_R0; lra).
    apply asin_le; lra. }
  destruct (Rgt_dec _ _); [lra | reflexivity].
Qed.

Lemma kinked_excess_2 : excess_at (1.001 / 2) 6 kinked 2 = Ok 0.005.
Proof.
  pose proof sharp_turn_cos as Hc. pose proof sharp_turn_range as Hr.
  pose proof sharp_turn_leg as Hleg.
  assert (Hlen : 8 <= 8 / cos sharp_turn).
  { apply Rmult_le_reg_r with (cos sharp_turn); [lra |].
    unfold Rdiv. rewrite Rmult_assoc, Rinv_l by lra. lra. }
  unfold excess_at.
  rewrite (turn_angle_value kinked 6 2 1 (8 / cos sharp_turn));
    [| lra | lra
     | unfold kinked; eval_items; unfold c0, c1; cbn [fst snd]; lra
     | unfold kinked; eval_items; unfold c0, c1; cbn [fst snd]; lra].
  cbn [bind].
  rewrite safe_angle_long by lra. cbn [bind].
  unfold kinked. eval_items. unfold c0, c1. cbn [fst snd].
  replace ((1 - 0) / 1 * ((9 - 1) / (8 / cos sharp_turn))
           + (0 - 0) / 1 * ((- (8 * tan sharp_turn) - 0) / (8 / cos sharp_turn)))
    with (cos sharp_turn) by (field; lra).
  rewrite Rmin_right by lra. rewrite Rmax_right by lra.
  rewrite acos_cos by lra.
  destruct (Rgt_dec sharp_turn (PI * 0.4)) as [_ | Hn];
    [| exfalso; unfold sharp_turn in Hn; lra].
  f_equal. unfold sharp_turn. ring.
Qed.

Lemma kinked_relaxed_excess_3 : excess_at (1.001 / 2) 6 kinked_relaxed 3 = Ok 0.
Proof. apply excess_degenerate. right. reflexivity. Qed.

Lemma kinked_relaxed_excess_4 : excess_at (1.001 / 2) 6 kinked_relaxed 4 = Ok 0.
Proof. apply excess_degenerate. left. reflexivity. Qed.

Lemma kinked_relaxed_excess_5 : excess_at (1.001 / 2) 6 kinked_relaxed 5 = Ok 0.
Proof. apply excess_degenerate. right. reflexivity. Qed.

(** The first sweep over [kinked] moves its third sample only and
    leaves the excess 0.005. *)
Lemma kinked_sweep :
  sweep (1.001 / 2) 6 kinked = Ok (kinked_relaxed, 0.005).
Proof.
  unfold sweep. change (range0 6) with [0; 1; 2; 3; 4; 5]%Z. cbn [foldM].
  rewrite (relax_visit_spec _ _ _ _ _ 0 kinked_excess_0) by lra. cbn [bind].
  destruct (Rgt_dec 0 0) as [Hf | _]; [lra |].
  rewrite Rmax_left by lra.
  rewrite (relax_visit_spec _ _ _ _ _ 0 kinked_excess_1) by lra. cbn [bind].
  destruct (Rgt_dec 0 0) as [Hf | _]; [lra |].
  rewrite Rmax_left by lra.
  rewrite (relax_visit_spec _ _ _ _ _ 0.005 kinked_excess_2) by lra. cbn [bind].
  destruct (Rgt_dec 0.005 0) as [_ | Hf]; [| lra].
  rewrite Rmax_right by lra. fold kinked_relaxed.
  rewrite (relax_visit_spec _ _ _ _ _ 0 kinked_relaxed_excess_3) by lra. cbn [bind].
  destruct (Rgt_dec 0 0) as [Hf | _]; [lra |].
  rewrite Rmax_left by lra.
  rewrite (relax_visit_spec _ _ _ _ _ 0 kinked_relaxed_excess_4) by lra. cbn [bind].
  destruct (Rgt_dec 0 0) as [Hf | _]; [lra |].
  rewrite Rmax_left by lra.
  rewrite (relax_visit_spec _ _ _ _ _ 0 kinked_relaxed_excess_5) by lra. cbn [bind].
  destruct (Rgt_dec 0 0) as [Hf | _]; [lra |].
  rewrite Rmax_left by lra. reflexivity.
Qed.

Lemma kinked_factor : Rmin 0.3 (0.005 / PI) = 0.005 / PI /\ 0.00125 <= 0.005 / PI.
Proof.
  pose proof PI_gt_3 as H3. pose proof PI_4 as H4.
  assert (Hinv : / 4 <= / PI <= / 3).
  { split; apply Rinv_le_contravar; lra. }
  split.
  - apply Rmin_right. unfold Rdiv. lra.
  - unfold Rdiv. lra.
Qed.

(** After the sweep that ended the relaxation, the second sample of
    [kinked_relaxed] turns by a right angle or more next to segments of
    mean length above the width: its excess is a tenth of [pi] or
    more. *)
Lemma kinked_relaxed_excess_1 :
  exists e, excess_at (1.001 / 2) 6 kinked_relaxed 1 = Ok e /\ 0.01 <= e.
Proof.
  pose proof kinked_factor as [Hf Hfl]. pose proof sharp_turn_tan as Ht.
  pose proof PI_gt_3 as H3.
  set (X := c0 (item origin kinked_relaxed 2) - c0 (item origin kinked_relaxed 1)).
  set (Y := c1 (item origin kinked_relaxed 2) - c1 (item origin kinked_relaxed 1)).
  assert (HX : 1.004 <= X).
  { unfold X, kinked_relaxed, kinked, set_item, toward, neighbour_midpoint.
    eval_items. cbn [set_nth nth]. unfold c0. cbn [fst snd]. rewrite Hf. lra. }
  assert (HY : Y < 0).
  { unfold Y, kinked_relaxed, kinked, set_item, toward, neighbour_midpoint.
    eval_items. cbn [set_nth nth]. unfold c1. cbn [fst snd]. rewrite Hf. nra. }
  set (L := sqrt (X * X + Y * Y)).
  assert (HL : X <= L).
  { unfold L. rewrite <- (sqrt_square X) at 1 by lra. apply sqrt_le_1; nra. }
  assert (HLL : L * L = X * X + Y * Y) by (apply sqrt_sqrt; nra).
  unfold excess_at.
  rewrite (turn_angle_value kinked_relaxed 6 1 1 L);
    [| lra | lra
     | unfold kinked_relaxed, kinked, set_item; eval_items; cbn [set_nth nth];
       unfold c0, c1; cbn [fst snd]; lra
     | exact HLL].
  cbn [bind]. rewrite safe_angle_long by lra. cbn [bind].
  change (c0 (item origin kinked_relaxed ((1 + 1) mod 6))
          - c0 (item origin kinked_relaxed 1)) with X.
  change (c1 (item origin kinked_relaxed ((1 + 1) mod 6))
          - c1 (item origin kinked_relaxed 1)) with Y.
  set (dot := _ / 1 * (X / L) + _ / 1 * (Y / L)).
  assert (Hdot : dot <= 0).
  { unfold dot, kinked_relaxed, kinked, set_item. eval_items. cbn [set_nth nth].
    unfold c0, c1. cbn [fst snd].
    assert (0 < / L) by (apply Rinv_0_lt_compat; lra).
    unfold Rdiv. rewrite Rinv_1. nra. }
  assert (Hclamp : -1 <= Rmax (-1) (Rmin 1 dot) <= 0).
  { split; [apply Rmax_l |]. apply Rmax_lub; [lra |].
    pose proof (Rmin_r 1 dot). lra. }
  pose proof (acos_nonpos _ Hclamp) as Hacos.
  eexists. split; [reflexivity |].
  destruct (Rgt_dec _ (PI * 0.4)); lra.
Qed.

Lemma sweeps_length (half_width : R) (n : Z) (points final : list point3)
  (log : list R) :
  half_width <> 0 ->
  sweeps half_width n points log final -> len points = n -> len final = n.
Proof.
  intros Hw H. induction H as [p | p p' q mx log Hs _ IH]; intros Hn.
  - exact Hn.
  - apply IH. rewrite <- Hn. apply (sweep_length half_width p p' mx Hw).
    rewrite Hn. exact Hs.
Qed.

(** The last sweep of a relaxation that ran one. *)
Lemma sweeps_last (half_width : R) (n : Z) (points final : list point3)
  (log : list R) :
  half_width <> 0 ->
  sweeps half_width n points log final -> len points = n -> log <> [] ->
  exists before,
    len before = n /\ sweep half_width n before = Ok (final, last log 0).
Proof.
  intros Hw H. induction H as [p | p p' q mx log Hs Hrest IH]; intros Hn Hne.
  - contradiction.
  - assert (Hn' : len p' = n).
    { rewrite <- Hn. apply (sweep_length half_width p p' mx Hw).
      rewrite Hn. exact Hs. }
    destruct log as [| x log].
    + assert (Hq : p' = q) by (inversion Hrest; reflexivity). subst q.
      exists p. split; [exact Hn | exact Hs].
    + destruct (IH Hn' ltac:(discriminate)) as [b [Hb1 Hb2]].
      exists b. split; [exact Hb1 | exact Hb2].
Qed.

(** C1, as the code has it: on a closed path of four samples or more
    and a positive width the limiter returns after [max_iterations]
    sweeps at most (50 by default).  Every sweep visits the samples in
    order; a sample is measured in the state that the visits before it
    in the same sweep left, and if its turn angle exceeds its safe
    angle there it moves toward the midpoint of its two circular
    neighbours by [min(0.3, excess / pi)].  Every sweep but the last
    returned a worst excess of 0.01 or more, a sweep that returned less
    is the last, and a relaxation that stops before the cap stops on a
    sweep in which every sample, when it was visited, exceeded its safe
    angle by less than 0.01. *)
Theorem C1_curvature_relaxation (path : list point3) (track_width : R)
  (max_iterations : Z) :
  (4 <= len path)%Z ->
  0 < track_width ->
  let n := len path in
  let half_width := track_width / 2 in
  exists final log,
    limit_path_curvature_log path track_width max_iterations = Ok (final, log)
    /\ _limit_path_curvature path track_width max_iterations = Ok final
    /\ len final = n
    /\ sweeps half_width n path log final
    /\ (List.length log <= Z.to_nat max_iterations)%nat
    /\ (forall k, (S k < List.length log)%nat -> 0.01 <= nth k log 0)
    /\ (forall k, (k < List.length log)%nat -> nth k log 0 < 0.01 ->
          S k = List.length log)
    /\ ((List.length log < Z.to_nat max_iterations)%nat ->
        exists before,
          sweep half_width n before = Ok (final, last log 0)
          /\ last log 0 < 0.01
          /\ forall i, (0 <= i < n)%Z ->
               exists visited m e,
                 sweep_prefix half_width n before i = Ok (visited, m)
                 /\ excess_at half_width n visited i = Ok e
                 /\ e < 0.01)
    /\ (forall points points' max_excess,
          len points = n ->
          sweep half_width n points = Ok (points', max_excess) ->
          prefix_inv half_width n points n (points', max_excess)).
Proof.
  intros Hn Hw n half_width.
  assert (Hhw : half_width <> 0) by (unfold half_width; lra).
  destruct (relax_spec half_width n Hhw (Z.to_nat max_iterations) path eq_refl)
    as [final [log [Hr [Hlen [Hsw [Hcap [Hbig [Hlast Hearly]]]]]]]].
  assert (Hvisits : forall points points' max_excess,
            len points = n ->
            sweep half_width n points = Ok (points', max_excess) ->
            prefix_inv half_width n points n (points', max_excess)).
  { intros points points' mx Hl Hs.
    destruct (sweep_spec half_width points Hhw) as [p' [m [H1 H2]]].
    rewrite Hl in H1, H2. rewrite Hs in H1. inversion H1; subst p' m. exact H2. }
  exists final, log.
  split; [rewrite limit_log_spec by exact Hn; exact Hr |].
  split.
  { unfold _limit_path_curvature. rewrite limit_log_spec by exact Hn.
    fold n half_width. rewrite Hr. reflexivity. }
  split; [exact Hlen |]. split; [exact Hsw |]. split; [exact Hcap |].
  split; [exact Hbig |]. split; [exact Hlast |].
  split; [| exact Hvisits].
  intros Hstop. destruct (Hearly Hstop) as [Hne Hsmall].
  destruct (sweeps_last half_width n path final log Hhw Hsw eq_refl Hne)
    as [before [Hb Hs]].
  exists before. split; [exact Hs |]. split; [exact Hsmall |].
  intros i Hi.
  destruct (Hvisits before final (last log 0) Hb Hs) as [_ [_ [_ [_ Hdone]]]].
  destruct (Hdone i Hi) as [visited [m [e [H1 [H2 [H3 _]]]]]].
  exists visited, m, e. split; [exact H1 |]. split; [exact H2 | lra].
Qed.

Lemma C1_curvature_relaxation_witness :
  (4 <= len square)%Z /\ 0 < 6
  /\ exists final log,
       limit_path_curvature_log square 6 50 = Ok (final, log)
       /\ _limit_path_curvature square 6 50 = Ok final
       /\ len final = len square
       /\ (List.length log <= 50)%nat.
Proof.
  assert (H4 : (4 <= len square)%Z) by (unfold len; cbn; lia).
  assert (H6 : 0 < 6) by lra.
  split; [exact H4 |]. split; [exact H6 |].
  destruct (C1_curvature_relaxation square 6 50 H4 H6)
    as [final [log [H1 [H2 [H3 [_ [H5 _]]]]]]].
  exists final, log. split; [exact H1 |]. split; [exact H2 |].
  split; [exact H3 | exact H5].
Defined.

(** C1 as stated fails: on [kinked] with the width 1.001 the limiter
    stops after the first of its 50 sweeps, which returned the worst
    excess 0.005, and in the path it returns the second sample exceeds
    its safe angle by more than 0.01. *)
Lemma C1_counterexample :
  (4 <= len kinked)%Z /\ 0 < 1.001
  /\ limit_path_curvature_log kinked 1.001 50 = Ok (kinked_relaxed, [0.005])
  /\ _limit_path_curvature kinked 1.001 50 = Ok kinked_relaxed
  /\ 0.005 < 0.01
  /\ exists e,
       excess_at (1.001 / 2) (len kinked_relaxed) kinked_relaxed 1 = Ok e
       /\ 0.01 <= e.
Proof.
  assert (H4 : (4 <= len kinked)%Z) by (unfold len; cbn; lia).
  assert (Hlog : limit_path_curvature_log kinked 1.001 50
                 = Ok (kinked_relaxed, [0.005])).
  { rewrite limit_log_spec by exact H4.
    change (len kinked) with 6%Z. change (Z.to_nat 50) with 50%nat.
    cbn [relax]. rewrite kinked_sweep. cbn [bind].
    destruct (Rlt_dec 0.005 0.01); [reflexivity | lra]. }
  split; [exact H4 |]. split; [lra |]. split; [exact Hlog |].
  split; [unfold _limit_path_curvature; rewrite Hlog; reflexivity |].
  split; [lra |].
  change (len kinked_relaxed) with 6%Z. exact kinked_relaxed_excess_1.
Qed.

End RelaxationClaims.

(** * Further properties of the code *)

(** ** Path synthesizer *)

Module SynthExtras.

Import Synth SynthFacts Inputs.

Lemma foldM_append_sections {A B : Type} (f : A -> result (list B)) (l : list A) :
  forall init,
  foldM (fun pts i => sec <- f i ;; Ok (pts ++ sec)) l init
  = (secs <- mapM f l ;; Ok (init ++ List.concat secs)).
Proof.
  induction l as [| a l IH]; intros init; cbn [foldM mapM bind List.concat].
  - rewrite app_nil_r. reflexivity.
  - destruct (f a) as [sec | e]; cbn [bind]; [| reflexivity].
    rewrite IH. destruct (mapM f l) as [secs | e]; cbn [bind List.concat]; [| reflexivity].
    rewrite app_assoc. reflexivity.
Qed.

Lemma concat_length_bounds {B : Type} (lo hi : nat) (secs : list (list B)) :
  (forall s, In s secs -> (lo <= List.length s <= hi)%nat) ->
  (lo * List.length secs <= List.length (List.concat secs) <= hi * List.length secs)%nat.
Proof.
  induction secs as [| s secs IH]; intros H; cbn [List.concat List.length].
  - lia.
  - rewrite length_app.
    pose proof (H s (or_introl eq_refl)).
    pose proof (IH (fun s' Hs' => H s' (or_intror Hs'))). nia.
Qed.

Lemma py_int_floor (x : R) : 0 <= x -> IZR (py_int x) <= x < IZR (py_int x) + 1.
Proof.
  intros Hx. unfold py_int. destruct (Rle_dec 0 x); [| contradiction].
  destruct (base_Int_part x). lra.
Qed.

Lemma py_int_between (x : R) (lo hi : Z) :
  0 <= x -> IZR lo <= x -> x <= IZR hi -> (lo <= py_int x <= hi)%Z.
Proof.
  intros Hx Hlo Hhi. destruct (py_int_floor x Hx) as [H1 H2]. split.
  - apply Z.lt_succ_r. apply lt_IZR. rewrite succ_IZR. lra.
  - apply le_IZR. lra.
Qed.

Lemma getitem_item {A : Type} (d : A) (l : list A) (i : Z) :
  (0 <= i < len l)%Z -> getitem l i = Ok (item d l i).
Proof.
  intros Hi. unfold getitem, item.
  destruct (i <? 0)%Z eqn:Hneg; [apply Z.ltb_lt in Hneg; lia |].
  destruct (nth_error l (Z.to_nat i)) as [a |] eqn:Hnth.
  - rewrite (nth_error_nth _ _ d Hnth). reflexivity.
  - apply nth_error_None in Hnth. unfold len in Hi. lia.
Qed.

Lemma unit_direction (dx dy : R) :
  let l := sqrt (dx * dx + dy * dy) in
  0 < l -> (dx / l) * (dx / l) + (dy / l) * (dy / l) = 1.
Proof.
  intros l Hl.
  assert (Hll : l * l = dx * dx + dy * dy) by (apply sqrt_sqrt, sum_sq_nonneg).
  unfold Rdiv.
  replace (dx * / l * (dx * / l) + dy * / l * (dy * / l))
    with ((dx * dx + dy * dy) * (/ l * / l)) by ring.
  rewrite <- Hll. field. lra.
Qed.

(** The cross product of two unit vectors is at most one in size. *)
Lemma unit_cross_le (a b c d : R) :
  a * a + b * b = 1 -> c * c + d * d = 1 -> Rabs (a * d - b * c) <= 1.
Proof.
  intros H1 H2.
  assert (H : (a * d - b * c) * (a * d - b * c) + (a * c + b * d) * (a * c + b * d)
              = (a * a + b * b) * (c * c + d * d)) by ring.
  rewrite H1, H2 in H.
  set (t := a * d - b * c) in *. set (s := a * c + b * d) in *.
  clearbody t s. clear H1 H2.
  assert (Ht : t * t <= 1) by nra.
  apply Rabs_le. split.
  - destruct (Rle_lt_dec (-1) t) as [Hl | Hl]; [exact Hl | exfalso; nra].
  - destruct (Rle_lt_dec t 1) as [Hl | Hl]; [exact Hl | exfalso; nra].
Qed.

Lemma angle_diff_range (dx1 dy1 dx2 dy2 : R) :
  exists v, angle_diff dx1 dy1 dx2 dy2 = Ok v /\ 0 <= v <= 1.
Proof.
  unfold angle_diff. rewrite !py_sqrt_ok by apply sum_sq_nonneg. cbn [bind].
  destruct (Rlt_dec _ 0.001) as [H1 | H1]; [exists 0; split; [reflexivity | lra] |].
  destruct (Rlt_dec _ 0.001) as [H2 | H2]; [exists 0; split; [reflexivity | lra] |].
  rewrite !py_div_ok by lra. cbn [bind].
  eexists; split; [reflexivity |]. split; [apply Rabs_pos |].
  apply unit_cross_le; apply unit_direction; lra.
Qed.

Lemma estimate_range (p0 p1 p2 p3 : point2) :
  exists c, _estimate_section_curvature p0 p1 p2 p3 = Ok c /\ 0 <= c <= 1.
Proof.
  unfold _estimate_section_curvature.
  destruct (angle_diff_range (fst p1 - fst p0) (snd p1 - snd p0)
              (fst p2 - fst p1) (snd p2 - snd p1)) as [a [Ha Hra]].
  destruct (angle_diff_range (fst p2 - fst p1) (snd p2 - snd p1)
              (fst p3 - fst p2) (snd p3 - snd p2)) as [b [Hb Hrb]].
  rewrite Ha. cbn [bind]. rewrite Hb. cbn [bind].
  eexists; split; [reflexivity |].
  split; [pose proof (Rmax_l a b); lra | apply Rmax_lub; lra].
Qed.

Lemma catmull_rom_start (p0 p1 p2 p3 : R) : catmull_rom p0 p1 p2 p3 0 = p1.
Proof. unfold catmull_rom. lra. Qed.

Lemma catmull_rom_end (p0 p1 p2 p3 : R) : catmull_rom p0 p1 p2 p3 1 = p2.
Proof. unfold catmull_rom. lra. Qed.

(** One section: it starts at its control point and has between
    [segments] and [3 * segments] points, exactly [segments] without
    adaptive subdivision. *)
Lemma section_points_spec (waypoints : list point2) (heights : list R)
  (segments : Z) (adaptive : bool) (i : Z) :
  (0 < len waypoints)%Z -> len heights = len waypoints ->
  (0 <= i < len waypoints)%Z -> (1 <= segments)%Z ->
  exists sec,
    section_points waypoints heights (len waypoints) segments adaptive i = Ok sec
    /\ nth 0 sec origin
       = (fst (item (0, 0) waypoints i), snd (item (0, 0) waypoints i),
          item 0 heights i)
    /\ (Z.to_nat segments <= List.length sec <= 3 * Z.to_nat segments)%nat
    /\ (adaptive = false -> List.length sec = Z.to_nat segments).
Proof.
  intros Hn Hh Hi Hs. unfold section_points.
  assert (Hm : forall k, (0 <= k mod len waypoints < len heights)%Z).
  { intros k. rewrite Hh. apply Z.mod_pos_bound. exact Hn. }
  rewrite (getitem_item 0 heights _ (Hm (i - 1)%Z)). cbn [bind].
  rewrite (getitem_item 0 heights i) by lia. cbn [bind].
  rewrite (getitem_item 0 heights _ (Hm (i + 1)%Z)). cbn [bind].
  rewrite (getitem_item 0 heights _ (Hm (i + 2)%Z)). cbn [bind].
  set (p0 := item (0, 0) waypoints ((i - 1) mod len waypoints)).
  set (p1 := item (0, 0) waypoints i).
  set (p2 := item (0, 0) waypoints ((i + 1) mod len waypoints)).
  set (p3 := item (0, 0) waypoints ((i + 2) mod len waypoints)).
  set (h0 := item 0 heights ((i - 1) mod len waypoints)).
  set (h1 := item 0 heights i).
  set (h2 := item 0 heights ((i + 1) mod len waypoints)).
  set (h3 := item 0 heights ((i + 2) mod len waypoints)).
  set (point := fun j actual_segments =>
         t <- py_div (IZR j) (IZR actual_segments) ;;
         Ok (catmull_rom (fst p0) (fst p1) (fst p2) (fst p3) t,
             catmull_rom (snd p0) (snd p1) (snd p2) (snd p3) t,
             catmull_rom h0 h1 h2 h3 t)).
  assert (Hsec : forall actual_segments : Z,
            (1 <= actual_segments)%Z ->
            exists sec,
              mapM (fun j => point j actual_segments) (range0 actual_segments) = Ok sec
              /\ nth 0 sec origin = (fst p1, snd p1, h1)
              /\ List.length sec = Z.to_nat actual_segments).
  { intros a Ha.
    destruct (mapM_is_ok (fun j => point j a) (range0 a)) as [sec Hsec].
    { intros j Hj. apply range_In in Hj. unfold point.
      rewrite py_div_ok by (apply not_0_IZR; lia). cbn [bind]. eexists; reflexivity. }
    exists sec. split; [exact Hsec |].
    assert (Hl : List.length sec = Z.to_nat a).
    { rewrite (mapM_length _ _ _ Hsec). unfold range0. rewrite range_length. lia. }
    split; [| exact Hl].
    pose proof (mapM_nth _ _ _ 0%Z origin Hsec 0%nat) as H0.
    unfold range0 in H0 at 1. rewrite range_length in H0.
    specialize (H0 ltac:(lia)).
    unfold range0 in H0. rewrite range_nth in H0 by lia.
    unfold point in H0. rewrite py_div_ok in H0 by (apply not_0_IZR; lia).
    cbn [bind] in H0. change (IZR (0 + Z.of_nat 0)) with 0 in H0.
    replace (0 / IZR a) with 0 in H0 by (field; apply not_0_IZR; lia).
    rewrite !catmull_rom_start in H0. inversion H0 as [He]. symmetry. exact He. }
  destruct adaptive.
  - destruct (estimate_range p0 p1 p2 p3) as [c [Hc Hrc]].
    rewrite Hc. cbn [bind].
    set (x := IZR segments * Rmin 3 (1 + c * 2)).
    assert (Hsr : 1 <= IZR segments) by (apply IZR_le; lia).
    assert (Hmin : 1 <= Rmin 3 (1 + c * 2) <= 3).
    { split; [apply Rmin_glb; lra | apply Rmin_l]. }
    assert (Hx : IZR segments <= x <= IZR (3 * segments)).
    { unfold x. rewrite mult_IZR. split; nra. }
    destruct (py_int_between x segments (3 * segments) ltac:(lra)
                (proj1 Hx) (proj2 Hx)) as [Hlo Hhi].
    destruct (Hsec (py_int x) ltac:(lia)) as [sec [H1 [H2 H3]]].
    exists sec. split; [exact H1 |]. split; [exact H2 |].
    split; [| discriminate].
    change (Z.to_nat segments <= List.length sec <= 3 * Z.to_nat segments)%nat.
    rewrite H3. lia.
  - cbn [bind]. destruct (Hsec segments Hs) as [sec [H1 [H2 H3]]].
    exists sec. split; [exact H1 |]. split; [exact H2 |].
    split; [| intros _; exact H3].
    change (Z.to_nat segments <= List.length sec <= 3 * Z.to_nat segments)%nat.
    rewrite H3. lia.
Qed.

Lemma sections_spec (waypoints : list point2) (heights : list R)
  (segments : Z) (adaptive : bool) :
  (3 <= len waypoints)%Z -> len heights = len waypoints -> (1 <= segments)%Z ->
  exists secs,
    mapM (section_points waypoints heights (len waypoints) segments adaptive)
      (range0 (len waypoints)) = Ok secs
    /\ List.length secs = List.length waypoints
    /\ forall k, (k < List.length waypoints)%nat ->
         nth 0 (nth k secs []) origin
         = (fst (item (0, 0) waypoints (Z.of_nat k)),
            snd (item (0, 0) waypoints (Z.of_nat k)),
            item 0 heights (Z.of_nat k))
         /\ (Z.to_nat segments <= List.length (nth k secs [])
             <= 3 * Z.to_nat segments)%nat
         /\ (adaptive = false -> List.length (nth k secs []) = Z.to_nat segments).
Proof.
  intros Hn Hh Hs.
  destruct (mapM_is_ok
              (section_points waypoints heights (len waypoints) segments adaptive)
              (range0 (len waypoints))) as [secs Hsecs].
  { intros i Hi. apply range0_len_In in Hi.
    destruct (section_points_spec waypoints heights segments adaptive i
                ltac:(lia) Hh Hi Hs) as [sec [H _]].
    exists sec; exact H. }
  assert (Hl : List.length secs = List.length waypoints).
  { rewrite (mapM_length _ _ _ Hsecs). unfold range0. rewrite range_length.
    unfold len. lia. }
  exists secs. split; [exact Hsecs |]. split; [exact Hl |].
  intros k Hk.
  pose proof (mapM_nth _ _ _ 0%Z [] Hsecs k) as Hnth.
  unfold range0 in Hnth at 1. rewrite range_length in Hnth.
  specialize (Hnth ltac:(unfold len; lia)).
  unfold range0 in Hnth. rewrite range_nth in Hnth by (unfold len; lia).
  rewrite Z.add_0_l in Hnth.
  destruct (section_points_spec waypoints heights segments adaptive (Z.of_nat k)
              ltac:(lia) Hh ltac:(unfold len; lia) Hs) as [sec [H1 H2]].
  rewrite H1 in Hnth. inversion Hnth as [He]. rewrite <- He. exact H2.
Qed.

(** X1: on three control points or more, with one segment or more per
    section and no height profile or one height per control point,
    [generate_custom_path] returns a path that passes through every
    control point at its height, with between [segments] and
    [3 * segments] points per control point, and exactly [segments]
    without adaptive subdivision. *)
Theorem custom_path_through_control_points (waypoints : list point2)
  (height_profile : option (list R)) (segments : Z) (adaptive : bool) :
  (3 <= len waypoints)%Z ->
  (1 <= segments)%Z ->
  match height_profile with
  | None => True
  | Some h => len h = len waypoints
  end ->
  exists path,
    generate_custom_path waypoints height_profile segments adaptive = Ok path
    /\ (forall k, (0 <= k < len waypoints)%Z ->
          In (fst (item (0, 0) waypoints k), snd (item (0, 0) waypoints k),
              match height_profile with
              | None => 0
              | Some h => item 0 h k
              end) path)
    /\ (len waypoints * segments <= len path <= 3 * (len waypoints * segments))%Z
    /\ (adaptive = false -> len path = (len waypoints * segments)%Z).
Proof.
  intros Hn Hs Hh. unfold generate_custom_path.
  destruct (len waypoints <? 3)%Z eqn:Hlt; [apply Z.ltb_lt in Hlt; lia |].
  set (hs := match height_profile with
             | None => repeat 0 (Z.to_nat (len waypoints))
             | Some h => h
             end).
  assert (Hlen : len hs = len waypoints).
  { unfold hs. destruct height_profile as [h |]; [exact Hh |].
    unfold len. rewrite repeat_length. unfold len. lia. }
  assert (Hitem : forall k, (0 <= k < len waypoints)%Z ->
            item 0 hs k = match height_profile with
                          | None => 0
                          | Some h => item 0 h k
                          end).
  { intros k Hk. unfold hs. destruct height_profile as [h |]; [reflexivity |].
    unfold item. apply nth_repeat_lt. lia. }
  rewrite (foldM_append_sections
             (section_points waypoints hs (len waypoints) segments adaptive)).
  destruct (sections_spec waypoints hs segments adaptive Hn Hlen Hs)
    as [secs [Hsecs [Hl Hk]]].
  rewrite Hsecs. cbn [bind app].
  exists (List.concat secs). split; [reflexivity |].
  assert (Hbounds : (Z.to_nat segments * List.length secs
                     <= List.length (List.concat secs)
                     <= 3 * Z.to_nat segments * List.length secs)%nat).
  { apply concat_length_bounds. intros sec Hin.
    destruct (In_nth secs sec [] Hin) as [k [Hk1 Hk2]]. subst sec.
    apply Hk. lia. }
  split; [| split].
  - intros k Hk0. rewrite <- Hitem by exact Hk0.
    destruct (Hk (Z.to_nat k) ltac:(unfold len in Hk0; lia)) as [H1 [H2 _]].
    rewrite Z2Nat.id in H1 by lia. rewrite <- H1.
    apply in_concat. exists (nth (Z.to_nat k) secs []). split.
    + apply nth_In. unfold len in Hk0. lia.
    + apply nth_In. lia.
  - unfold len. rewrite Hl in Hbounds. nia.
  - intros Hf. unfold len.
    assert (Heq : List.length (List.concat secs)
                  = (Z.to_nat segments * List.length secs)%nat).
    { assert (Hb : (Z.to_nat segments * List.length secs
                    <= List.length (List.concat secs)
                    <= Z.to_nat segments * List.length secs)%nat).
      { apply concat_length_bounds. intros sec Hin.
        destruct (In_nth secs sec [] Hin) as [k [Hk1 Hk2]]. subst sec.
        destruct (Hk k ltac:(lia)) as [_ [_ H3]]. rewrite (H3 Hf). lia. }
      lia. }
    rewrite Heq, Hl. nia.
Qed.

Lemma custom_path_through_control_points_witness :
  (3 <= len ([(0, 0); (30, 20); (30, -20)]%R : list point2))%Z /\ (1 <= 16)%Z
  /\ exists path,
       generate_custom_path [(0, 0); (30, 20); (30, -20)] None 16 true = Ok path
       /\ In (30, 20, 0) path
       /\ (3 * 16 <= len path <= 3 * (3 * 16))%Z.
Proof.
  assert (H3 : (3 <= len ([(0, 0); (30, 20); (30, -20)]%R : list point2))%Z) by (unfold len; cbn; lia).
  assert (H1 : (1 <= 16)%Z) by lia.
  split; [exact H3 |]. split; [exact H1 |].
  destruct (custom_path_through_control_points [(0, 0); (30, 20); (30, -20)]
              None 16 true H3 H1 I) as [path [Hp [Hin [Hlen _]]]].
  exists path. split; [exact Hp |]. split.
  - exact (Hin 1%Z ltac:(unfold len; cbn; lia)).
  - exact Hlen.
Defined.

(** X2: a height profile shorter than the list of control points makes
    [generate_custom_path] raise [IndexError] on its first section. *)
Theorem custom_path_short_height_profile (waypoints : list point2)
  (heights : list R) (segments : Z) (adaptive : bool) :
  (3 <= len waypoints)%Z ->
  (len heights < len waypoints)%Z ->
  generate_custom_path waypoints (Some heights) segments adaptive
  = Raise IndexError.
Proof.
  intros Hn Hh. unfold generate_custom_path.
  destruct (len waypoints <? 3)%Z eqn:Hlt; [apply Z.ltb_lt in Hlt; lia |].
  assert (Hr : range0 (len waypoints) = 0%Z :: range 1 (len waypoints)).
  { unfold range0, range.
    replace (Z.to_nat (len waypoints - 0)) with (S (Z.to_nat (len waypoints - 1)))
      by lia.
    cbn [seq map]. f_equal. rewrite <- seq_shift, map_map.
    apply map_ext. intros k. lia. }
  rewrite Hr. cbn [foldM]. unfold section_points at 1.
  assert (Hg : getitem heights ((0 - 1) mod len waypoints) = Raise IndexError).
  { unfold getitem.
    replace ((0 - 1) mod len waypoints)%Z with (len waypoints - 1)%Z.
    2:{ apply (Z.mod_unique_pos _ _ (-1)); lia. }
    destruct (len waypoints - 1 <? 0)%Z eqn:Hneg; [reflexivity |].
    destruct (nth_error heights (Z.to_nat (len waypoints - 1))) eqn:Hnth;
      [| reflexivity].
    assert (Hsome : nth_error heights (Z.to_nat (len waypoints - 1)) <> None)
      by (rewrite Hnth; discriminate).
    apply nth_error_Some in Hsome. unfold len in Hh. unfold len in Hsome. lia. }
  rewrite Hg. reflexivity.
Qed.

Lemma custom_path_short_height_profile_witness :
  (3 <= len ([(0, 0); (30, 20); (30, -20)]%R : list point2))%Z
  /\ (len ([0; 3]%R : list R) < len ([(0, 0); (30, 20); (30, -20)]%R : list point2))%Z
  /\ generate_custom_path [(0, 0); (30, 20); (30, -20)] (Some [0; 3]) 16 true
     = Raise IndexError.
Proof.
  assert (H3 : (3 <= len ([(0, 0); (30, 20); (30, -20)]%R : list point2))%Z) by (unfold len; cbn; lia).
  assert (H2 : (len ([0; 3]%R : list R) < len ([(0, 0); (30, 20); (30, -20)]%R : list point2))%Z)
    by (unfold len; cbn; lia).
  split; [exact H3 |]. split; [exact H2 |].
  exact (custom_path_short_height_profile _ _ 16 true H3 H2).
Defined.

End SynthExtras.

(* ------------------------------------------------------------------ *)

Module ResampleExtras.

Import Conditioner Vocabulary Notions ResampleFacts FrameFacts Inputs.

Lemma segment_length_nonneg (path : list point3) (n i : Z) :
  0 <= segment_length path n i.
Proof. unfold segment_length. apply sqrt_pos. Qed.

Lemma fold_sum_nonneg (l : list R) (acc : R) :
  0 <= acc -> (forall x, In x l -> 0 <= x) -> 0 <= fold_left Rplus l acc.
Proof.
  revert acc. induction l as [| x l IH]; intros acc Ha Hl; cbn [fold_left].
  - exact Ha.
  - apply IH.
    + pose proof (Hl x (or_introl eq_refl)). lra.
    + intros y Hy. apply Hl. right. exact Hy.
Qed.

Lemma total_length_nonneg (path : list point3) (n : Z) (l : list Z) :
  0 <= fold_left Rplus (map (segment_length path n) l) 0.
Proof.
  apply fold_sum_nonneg; [lra |].
  intros x Hx. apply in_map_iff in Hx. destruct Hx as [i [<- _]].
  apply segment_length_nonneg.
Qed.

(** The segment-advancing loop keeps the progress non-negative and the
    segment index within the path. *)
Lemma advance_keeps (segment_lengths : list R) (n : Z) (progress : R) (cur : Z) :
  (0 < n)%Z -> 0 <= progress -> (0 <= cur < n)%Z ->
  0 <= fst (advance segment_lengths n (progress, cur))
  /\ (0 <= snd (advance segment_lengths n (progress, cur)) < n)%Z.
Proof.
  intros Hn Hp Hc. unfold advance.
  apply (while_loop_invariant
           (fun st : R * Z => 0 <= fst st /\ (0 <= snd st < n)%Z)).
  - intros [p c] [H1 H2] Hcond. cbn [fst snd] in *.
    destruct (Rge_dec p (item 0 segment_lengths c)); cbn in Hcond;
      [| discriminate].
    split; [lra | apply Z.mod_pos_bound; exact Hn].
  - cbn [fst snd]. split; assumption.
Qed.

Lemma resample_step_on_polyline (path : list point3) (segment_lengths : list R)
  (spacing : R) (res : list point3) (cur : Z) (progress : R) (k : Z) :
  (0 < len path)%Z -> 0 <= spacing ->
  0 <= progress -> (0 <= cur < len path)%Z ->
  (forall s, In s res -> on_polyline path s) ->
  exists res' cur' progress',
    resample_step path segment_lengths (len path) spacing (res, cur, progress) k
    = Ok (res', cur', progress')
    /\ 0 <= progress' /\ (0 <= cur' < len path)%Z
    /\ List.length res' = S (List.length res)
    /\ (forall s, In s res' -> on_polyline path s).
Proof.
  intros Hn Hs Hp Hc Hres. unfold resample_step.
  pose proof (advance_keeps segment_lengths (len path) progress cur Hn Hp Hc)
    as [Hp' Hc'].
  pose proof (advance_exit segment_lengths (len path) (progress, cur)) as Hexit.
  destruct (advance segment_lengths (len path) (progress, cur)) as [p' c'].
  cbn [fst snd] in Hp', Hc'. unfold advance_cond in Hexit.
  destruct (Rgt_dec (item 0 segment_lengths c') 0.001) as [Hlong | Hshort].
  - destruct (Rge_dec p' (item 0 segment_lengths c')) as [Hge | Hlt];
      cbn in Hexit; [discriminate |].
    rewrite py_div_ok by lra. cbn [bind].
    do 3 eexists. split; [reflexivity |].
    split; [lra |]. split; [exact Hc' |].
    split; [rewrite length_app; cbn; lia |].
    intros s Hin. apply in_app_or in Hin. destruct Hin as [Hin | [<- | []]].
    + apply Hres. exact Hin.
    + exists c', (p' / item 0 segment_lengths c').
      split; [exact Hc' |]. split; [| reflexivity].
      split.
      * apply Rle_mult_inv_pos; lra.
      * apply Rmult_lt_reg_r with (item 0 segment_lengths c'); [lra |].
        unfold Rdiv. rewrite Rmult_assoc, Rinv_l by lra. lra.
  - cbn [bind]. do 3 eexists. split; [reflexivity |].
    split; [lra |]. split; [exact Hc' |].
    split; [rewrite length_app; cbn; lia |].
    intros s Hin. apply in_app_or in Hin. destruct Hin as [Hin | [<- | []]].
    + apply Hres. exact Hin.
    + exists c', 0. split; [exact Hc' |]. split; [lra | reflexivity].
Qed.

Lemma resample_fold_on_polyline (path : list point3) (segment_lengths : list R)
  (spacing : R) (l : list Z) :
  (0 < len path)%Z -> 0 <= spacing ->
  forall res cur progress,
    0 <= progress -> (0 <= cur < len path)%Z ->
    (forall s, In s res -> on_polyline path s) ->
    exists res' cur' progress',
      foldM (resample_step path segment_lengths (len path) spacing) l
        (res, cur, progress) = Ok (res', cur', progress')
      /\ List.length res' = (List.length res + List.length l)%nat
      /\ (forall s, In s res' -> on_polyline path s).
Proof.
  intros Hn Hs. induction l as [| k l IH]; intros res cur progress Hp Hc Hres.
  - exists res, cur, progress. split; [reflexivity |]. split; [cbn; lia | exact Hres].
  - cbn [foldM].
    destruct (resample_step_on_polyline path segment_lengths spacing res cur
                progress k Hn Hs Hp Hc Hres)
      as [r1 [c1' [p1 [Hstep [Hp1 [Hc1 [Hl1 Hr1]]]]]]].
    rewrite Hstep. cbn [bind].
    destruct (IH r1 c1' p1 Hp1 Hc1 Hr1) as [r2 [c2' [p2 [Hf [Hl2 Hr2]]]]].
    exists r2, c2', p2. split; [exact Hf |]. split; [| exact Hr2].
    rewrite Hl2, Hl1. cbn. lia.
Qed.

(** The resampler once the number of samples is known. *)
Lemma resample_core (path : list point3) (total_length : R) (target_points : Z) :
  (3 <= len path)%Z -> 0 <= total_length -> (0 < target_points)%Z ->
  exists resampled,
    (target_spacing <- py_div total_length (IZR target_points) ;;
     '(resampled, _, _) <-
       foldM (resample_step path
                (map (segment_length path (len path)) (range0 (len path)))
                (len path) target_spacing)
         (range0 target_points) ([], 0%Z, 0) ;;
     Ok resampled) = Ok resampled
    /\ len resampled = target_points
    /\ (forall s, In s resampled -> on_polyline path s).
Proof.
  intros Hn Ht Hp.
  assert (Hz : IZR target_points <> 0) by (apply not_0_IZR; lia).
  assert (Hpos : 0 < IZR target_points) by (apply IZR_lt; lia).
  rewrite py_div_ok by exact Hz. cbn [bind].
  destruct (resample_fold_on_polyline path
              (map (segment_length path (len path)) (range0 (len path)))
              (total_length / IZR target_points) (range0 target_points)
              ltac:(lia) ltac:(apply Rle_mult_inv_pos; lra)
              [] 0%Z 0 ltac:(lra) ltac:(lia) ltac:(intros s []))
    as [res [cur [prog [Hf [Hl Hr]]]]].
  rewrite Hf. cbn [bind]. exists res. split; [reflexivity |].
  split; [| exact Hr].
  unfold len. rewrite Hl. cbn [List.length]. unfold range0. rewrite range_length. lia.
Qed.

(** X3: with an explicit non-zero spacing the resampler returns exactly
    [max(min_points, int(L / spacing))] samples, [L] the length of the
    closed path, whenever that number is positive, and every sample it
    returns lies on the closed polyline through the input: it is a
    point of a segment between two consecutive input samples. *)
Theorem resample_count_and_support (path : list point3) (spacing : R)
  (min_points : Z) :
  (3 <= len path)%Z ->
  spacing <> 0 ->
  let total_length :=
    fold_left Rplus (map (segment_length path (len path)) (range0 (len path))) 0 in
  let target_points := Z.max min_points (py_int (total_length / spacing)) in
  (0 < target_points)%Z ->
  exists resampled,
    _resample_path_uniform path (Some spacing) min_points = Ok resampled
    /\ len resampled = target_points
    /\ (forall s, In s resampled -> on_polyline path s).
Proof.
  intros Hn Hs total_length target_points Hp.
  unfold _resample_path_uniform.
  destruct (len path <? 3)%Z eqn:Hlt; [apply Z.ltb_lt in Hlt; lia |].
  rewrite segment_lengths_ok. cbn [bind]. fold total_length.
  rewrite py_div_ok by exact Hs. cbn [bind]. fold target_points.
  apply resample_core; [exact Hn | apply total_length_nonneg | exact Hp].
Qed.

Lemma resample_count_and_support_witness :
  (3 <= len square)%Z /\ 2 <> 0
  /\ exists resampled,
       _resample_path_uniform square (Some 2) 100 = Ok resampled
       /\ (100 <= len resampled)%Z
       /\ (forall s, In s resampled -> on_polyline square s).
Proof.
  assert (H3 : (3 <= len square)%Z) by (unfold len; cbn; lia).
  assert (H2 : 2 <> 0) by lra.
  split; [exact H3 |]. split; [exact H2 |].
  destruct (resample_count_and_support square 2 100 H3 H2 ltac:(lia))
    as [r [H [Hl Hon]]].
  exists r. split; [exact H |]. split; [rewrite Hl; lia | exact Hon].
Defined.

(** X4: with the automatic spacing the resampler always returns, with
    [max(min_points, n, int(L / 2))] samples -- never fewer than the
    [n >= 3] it was given -- all on the closed polyline through the
    input. *)
Theorem resample_default_spacing (path : list point3) (min_points : Z) :
  (3 <= len path)%Z ->
  let total_length :=
    fold_left Rplus (map (segment_length path (len path)) (range0 (len path))) 0 in
  exists resampled,
    _resample_path_uniform path None min_points = Ok resampled
    /\ len resampled
       = Z.max (Z.max min_points (len path)) (py_int (total_length / 2))
    /\ (len path <= len resampled)%Z
    /\ (forall s, In s resampled -> on_polyline path s).
Proof.
  intros Hn total_length.
  unfold _resample_path_uniform.
  destruct (len path <? 3)%Z eqn:Hlt; [apply Z.ltb_lt in Hlt; lia |].
  rewrite segment_lengths_ok. cbn [bind]. fold total_length.
  destruct (resample_core path total_length
              (Z.max (Z.max min_points (len path)) (py_int (total_length / 2)))
              Hn (total_length_nonneg _ _ _) ltac:(lia)) as [r [H [Hl Hon]]].
  exists r. split; [exact H |]. split; [exact Hl |].
  split; [rewrite Hl; lia | exact Hon].
Qed.

Lemma resample_default_spacing_witness :
  (3 <= len square)%Z
  /\ exists resampled,
       _resample_path_uniform square None 100 = Ok resampled
       /\ (len square <= len resampled)%Z.
Proof.
  assert (H3 : (3 <= len square)%Z) by (unfold len; cbn; lia).
  split; [exact H3 |].
  destruct (resample_default_spacing square 100 H3) as [r [H [_ [Hl _]]]].
  exists r. split; [exact H | exact Hl].
Defined.

End ResampleExtras.

(* ------------------------------------------------------------------ *)

Module LimiterExtras.

Import Conditioner Pipeline Vocabulary Notions ConditionerFacts RelaxFacts
  ResampleFacts Inputs.

(** A sweep over samples none of which exceeds its safe angle moves
    nothing. *)
Lemma sweep_fold_fixed (half_width : R) (n : Z) (points : list point3)
  (l : list Z) :
  (forall i, In i l -> excess_at half_width n points i = Ok 0) ->
  foldM (relax_visit half_width n) l (points, 0) = Ok (points, 0).
Proof.
  induction l as [| i l IH]; intros H; cbn [foldM]; [reflexivity |].
  rewrite (relax_visit_spec half_width n points 0 i 0
             (H i (or_introl eq_refl)) ltac:(lra)).
  destruct (Rgt_dec 0 0) as [Hn | _]; [lra |].
  rewrite Rmax_left by lra. cbn [bind].
  apply IH. intros j Hj. apply H. right. exact Hj.
Qed.

(** X5: a path none of whose samples turns by more than its safe angle
    is a fixed point of the curvature limiter: it is returned as it is,
    whatever the number of iterations allowed. *)
Theorem limiter_fixed_point (path : list point3) (track_width : R)
  (max_iterations : Z) :
  (forall i, (0 <= i < len path)%Z ->
     excess_at (track_width / 2) (len path) path i = Ok 0) ->
  _limit_path_curvature path track_width max_iterations = Ok path.
Proof.
  intros H. unfold _limit_path_curvature, limit_path_curvature_log.
  destruct (len path <? 4)%Z; [reflexivity |].
  destruct (Z.to_nat max_iterations) as [| it]; cbn [relax bind]; [reflexivity |].
  unfold sweep. rewrite sweep_fold_fixed.
  - cbn [bind]. destruct (Rlt_dec 0 0.01); [reflexivity | lra].
  - intros i Hi. apply H. unfold range0 in Hi. apply range_In in Hi. lia.
Qed.

Lemma sqrt8 : (2 * sqrt 2) * (2 * sqrt 2) = 8.
Proof.
  replace (2 * sqrt 2 * (2 * sqrt 2)) with (4 * (sqrt 2 * sqrt 2)) by ring.
  rewrite sqrt_sqrt by lra. lra.
Qed.

Lemma sqrt2_bounds : 1 < sqrt 2 < 2.
Proof.
  split.
  - rewrite <- sqrt_1 at 1. apply sqrt_lt_1; lra.
  - replace 2 with (sqrt 4) at 2 by (apply sqrt_val; lra).
    apply sqrt_lt_1; lra.
Qed.

Lemma acos_inv_sqrt2 : acos (1 / sqrt 2) = PI / 4.
Proof.
  rewrite <- cos_PI4. apply acos_cos. pose proof PI_RGT_0. lra.
Qed.

(** A corner between two sides of at least the track width that turns
    by an eighth of a turn is within its safe angle. *)
Lemma eighth_turn_excess (points : list point3) (n i : Z) (half_width : R)
  (len1 len2 : R) :
  let p := item origin points ((i - 1) mod n)%Z in
  let c := item origin points i in
  let q := item origin points ((i + 1) mod n)%Z in
  let dx1 := c0 c - c0 p in
  let dy1 := c1 c - c1 p in
  let dx2 := c0 q - c0 c in
  let dy2 := c1 q - c1 c in
  0 < half_width ->
  0.001 <= len1 -> 0.001 <= len2 -> 4 * half_width <= len1 + len2 ->
  len1 * len1 = dx1 * dx1 + dy1 * dy1 ->
  len2 * len2 = dx2 * dx2 + dy2 * dy2 ->
  (dx1 * dx2 + dy1 * dy2) * sqrt 2 = len1 * len2 ->
  excess_at half_width n points i = Ok 0.
Proof.
  intros p c q dx1 dy1 dx2 dy2 Hw H1 H2 Hl E1 E2 Hd.
  unfold excess_at.
  rewrite (RelaxationClaims.turn_angle_value points n i len1 len2 H1 H2 E1 E2).
  cbn [bind]. fold p c q. fold dx1 dy1 dx2 dy2.
  rewrite RelaxationClaims.safe_angle_long by lra. cbn [bind].
  assert (Hdot : dx1 / len1 * (dx2 / len2) + dy1 / len1 * (dy2 / len2)
                 = 1 / sqrt 2).
  { pose proof sqrt2_bounds as Hs.
    assert (HL : 0 < len1 * len2) by nra.
    apply Rmult_eq_reg_r with (len1 * len2 * sqrt 2); [| nra].
    transitivity ((dx1 * dx2 + dy1 * dy2) * sqrt 2); [field; lra |].
    rewrite Hd. field. lra. }
  rewrite Hdot.
  assert (Hr : 0 < 1 / sqrt 2 < 1).
  { pose proof sqrt2_bounds. split.
    - apply Rdiv_lt_0_compat; lra.
    - apply Rmult_lt_reg_r with (sqrt 2); [lra |].
      unfold Rdiv. rewrite Rmult_assoc, Rinv_l by lra. lra. }
  rewrite Rmin_right by lra. rewrite Rmax_right by lra.
  rewrite acos_inv_sqrt2.
  pose proof PI_RGT_0.
  destruct (Rgt_dec (PI / 4) (PI * 0.4)); [lra | reflexivity].
Qed.

Ltac octagon_corner i l1 l2 :=
  apply (eighth_turn_excess octagon 8 i (1 / 2) l1 l2);
  try lra;
  repeat match goal with
         | |- context [(?a mod 8)%Z] =>
             let k := eval vm_compute in (a mod 8)%Z in
             change (a mod 8)%Z with k
         end;
  unfold octagon; eval_items; unfold c0, c1; cbn [fst snd]; nra.

Lemma limiter_fixed_point_witness :
  _limit_path_curvature octagon 1 50 = Ok octagon.
Proof.
  apply limiter_fixed_point.
  change (len octagon) with 8%Z. intros i Hi.
  pose proof sqrt2_bounds as Hs. pose proof sqrt8 as H8.
  assert (Hi' : (i = 0 \/ i = 1 \/ i = 2 \/ i = 3 \/ i = 4 \/ i = 5 \/ i = 6
                 \/ i = 7)%Z) by lia.
  destruct Hi' as [-> | [-> | [-> | [-> | [-> | [-> | [-> | ->]]]]]]];
    [ octagon_corner 0%Z (2 * sqrt 2) 2 | octagon_corner 1%Z 2 (2 * sqrt 2)
    | octagon_corner 2%Z (2 * sqrt 2) 2 | octagon_corner 3%Z 2 (2 * sqrt 2)
    | octagon_corner 4%Z (2 * sqrt 2) 2 | octagon_corner 5%Z 2 (2 * sqrt 2)
    | octagon_corner 6%Z (2 * sqrt 2) 2 | octagon_corner 7%Z 2 (2 * sqrt 2) ].
Defined.

(** With the width 0 a visit either divides by zero or leaves the
    sweep as it is. *)
Lemma visit_zero_width (n : Z) (points : list point3) (i : Z) :
  (relax_visit 0 n (points, 0) i = Raise ZeroDivisionError
   \/ relax_visit 0 n (points, 0) i = Ok (points, 0))
  /\ (0.001 <= planar_distance (item origin points ((i - 1) mod n)%Z)
                 (item origin points i) ->
      0.001 <= planar_distance (item origin points i)
                 (item origin points ((i + 1) mod n)%Z) ->
      relax_visit 0 n (points, 0) i = Raise ZeroDivisionError).
Proof.
  unfold relax_visit, get_turn_angle, planar_distance.
  rewrite !py_sqrt_ok by apply sum_sq_nonneg. cbn [bind].
  set (len1 := sqrt _). set (len2 := sqrt _).
  assert (Hsafe0 : get_safe_angle 0 0 = Ok 0.1).
  { unfold get_safe_angle. destruct (Rlt_dec 0 0.001); [reflexivity | lra]. }
  destruct (Rlt_dec len1 0.001) as [H1 | H1].
  { cbn [bind]. rewrite Hsafe0. cbn [bind].
    destruct (Rgt_dec 0 0.1); [lra |]. split; [right; reflexivity | lra]. }
  destruct (Rlt_dec len2 0.001) as [H2 | H2].
  { cbn [bind]. rewrite Hsafe0. cbn [bind].
    destruct (Rgt_dec 0 0.1); [lra |]. split; [right; reflexivity | lra]. }
  rewrite !py_div_ok by lra. cbn [bind].
  rewrite py_acos_ok by apply clamp_unit. cbn [bind].
  unfold get_safe_angle.
  destruct (Rlt_dec ((len1 + len2) / 2) 0.001); [lra |].
  replace (2 * 0) with 0 by ring. rewrite py_div_zero. cbn [bind].
  split; [left; reflexivity | reflexivity].
Qed.

Lemma sweep_fold_zero_width (n : Z) (points : list point3) (l : list Z) :
  (foldM (relax_visit 0 n) l (points, 0) = Raise ZeroDivisionError
   \/ foldM (relax_visit 0 n) l (points, 0) = Ok (points, 0))
  /\ (forall i, In i l ->
        0.001 <= planar_distance (item origin points ((i - 1) mod n)%Z)
                   (item origin points i) ->
        0.001 <= planar_distance (item origin points i)
                   (item origin points ((i + 1) mod n)%Z) ->
        foldM (relax_visit 0 n) l (points, 0) = Raise ZeroDivisionError).
Proof.
  induction l as [| j l [IH1 IH2]]; cbn [foldM].
  - split; [right; reflexivity | intros i []].
  - destruct (visit_zero_width n points j) as [[Hv | Hv] Hraise].
    + rewrite Hv. cbn [bind]. split; [left; reflexivity | reflexivity].
    + split.
      * rewrite Hv. cbn [bind]. exact IH1.
      * intros i [-> | Hi] Ha Hb.
        -- rewrite (Hraise Ha Hb). reflexivity.
        -- rewrite Hv. cbn [bind]. exact (IH2 i Hi Ha Hb).
Qed.

(** X6: the track width 0 is not rejected but fails inside the
    curvature limiter: on a path of four samples or more with a sample
    at least 0.001 away, in the ground plane, from both of its
    neighbours, the limiter raises ZeroDivisionError as soon as it may
    run one sweep. *)
Theorem limiter_zero_width (path : list point3) (max_iterations i : Z) :
  (4 <= len path)%Z ->
  (1 <= max_iterations)%Z ->
  (0 <= i < len path)%Z ->
  0.001 <= planar_distance (item origin path ((i - 1) mod len path)%Z)
             (item origin path i) ->
  0.001 <= planar_distance (item origin path i)
             (item origin path ((i + 1) mod len path)%Z) ->
  _limit_path_curvature path 0 max_iterations = Raise ZeroDivisionError.
Proof.
  intros Hn Hit Hi Ha Hb.
  unfold _limit_path_curvature. rewrite limit_log_spec by exact Hn.
  destruct (Z.to_nat max_iterations) as [| it] eqn:Hnat; [lia |].
  cbn [relax]. unfold sweep.
  replace (0 / 2) with 0 by field.
  destruct (sweep_fold_zero_width (len path) path (range0 (len path)))
    as [_ Hraise].
  rewrite (Hraise i); [reflexivity | | exact Ha | exact Hb].
  unfold range0. apply range_In. lia.
Qed.

Lemma limiter_zero_width_witness :
  (4 <= len square)%Z /\ (1 <= 50)%Z /\ (0 <= 0 < len square)%Z
  /\ _limit_path_curvature square 0 50 = Raise ZeroDivisionError.
Proof.
  assert (H4 : (4 <= len square)%Z) by (unfold len; cbn; lia).
  assert (H0 : (0 <= 0 < len square)%Z) by (unfold len; cbn; lia).
  split; [exact H4 |]. split; [lia |]. split; [exact H0 |].
  apply (limiter_zero_width square 50 0 H4 ltac:(lia) H0).
  - change (len square) with 4%Z. change ((0 - 1) mod 4)%Z with 3%Z.
    unfold planar_distance, square. eval_items. unfold c0, c1. cbn [fst snd].
    rewrite (sqrt_val _ 10); lra.
  - change (len square) with 4%Z. change ((0 + 1) mod 4)%Z with 1%Z.
    unfold planar_distance, square. eval_items. unfold c0, c1. cbn [fst snd].
    rewrite (sqrt_val _ 10); lra.
Defined.

(** X7: with resampling, the whole pipeline raises ZeroDivisionError on
    the track width 0 for every path of three samples or more: the
    resampler divides the length of the path by a third of the width. *)
Theorem pipeline_zero_width (name : string) (path : list point3)
  (track_thickness barrier_height barrier_width : R) (include_barriers : bool)
  (location : point3) :
  (3 <= len path)%Z ->
  create_track_from_path name path 0 track_thickness barrier_height
    barrier_width include_barriers location true
  = Raise ZeroDivisionError.
Proof.
  intros Hn. unfold create_track_from_path.
  destruct location as [[x y] z].
  unfold _resample_path_uniform.
  destruct (len path <? 3)%Z eqn:Hlt; [apply Z.ltb_lt in Hlt; lia |].
  rewrite segment_lengths_ok. cbn [bind].
  replace (0 / 3) with 0 by field.
  rewrite py_div_zero. reflexivity.
Qed.

Lemma pipeline_zero_width_witness :
  (3 <= len small_triangle)%Z
  /\ create_track_from_path "Track" small_triangle 0 0.5 1 0.5 true (0, 0, 0) true
     = Raise ZeroDivisionError.
Proof.
  assert (H3 : (3 <= len small_triangle)%Z) by (unfold len; cbn; lia).
  split; [exact H3 |].
  apply (pipeline_zero_width "Track" small_triangle 0.5 1 0.5 true (0, 0, 0) H3).
Defined.

End LimiterExtras.

(* ------------------------------------------------------------------ *)

Module MeshExtras.

Import Corridor Frame Mesh Conditioner Pipeline Vocabulary Notions MeshFacts
  FrameFacts CorridorFacts TrackMesh BarrierMesh RelaxFacts ResampleFacts
  PipelineFacts Inputs.

Lemma succ_mod_cases (i n : nat) :
  (i < n)%nat ->
  (S i < n /\ S i mod n = S i)%nat \/ (S i = n /\ S i mod n = 0)%nat.
Proof.
  intros Hi. destruct (Nat.eq_dec (S i) n) as [E | E].
  - right. split; [exact E |]. rewrite E. apply Nat.Div0.mod_same.
  - left. split; [lia |]. apply Nat.mod_small. lia.
Qed.

Lemma split_index (a n : nat) :
  (a < 4 * n)%nat ->
  exists i k, (a = 4 * i + k /\ i < n /\ k < 4)%nat.
Proof.
  intros Ha. exists (a / 4)%nat, (a mod 4)%nat.
  pose proof (Nat.div_mod_eq a 4). pose proof (Nat.mod_upper_bound a 4).
  lia.
Qed.

Lemma span_face (i j k : nat) :
  (k < 4)%nat ->
  nth k (span_quads (section_ids 0 i) (section_ids 0 j)) [] =
  match k with
  | 0 => [4 * i; 4 * j; 4 * j + 1; 4 * i + 1]
  | 1 => [4 * i + 3; 4 * i + 2; 4 * j + 2; 4 * j + 3]
  | 2 => [4 * i + 3; 4 * j + 3; 4 * j; 4 * i]
  | _ => [4 * i + 1; 4 * j + 1; 4 * j + 2; 4 * i + 2]
  end%nat.
Proof.
  intros Hk. destruct k as [| [| [| [| k]]]]; try lia; reflexivity.
Qed.

Ltac four_cases k H :=
  destruct k as [| [| [| [| k]]]]; [| | | | exfalso; lia].

(** The faces stitched over [n >= 3] sections of [4 n] vertices. *)
Lemma stitched_faces_well_formed (n : nat) (vs : list point3) :
  (3 <= n)%nat -> List.length vs = (4 * n)%nat ->
  faces_well_formed
    (mk_bmesh vs
       (flat_map (stitch_quads (map (section_ids 0) (seq 0 n)) (Z.of_nat n))
          (range0 (Z.of_nat n)))).
Proof.
  intros Hn Hvs. unfold faces_well_formed. cbn [faces verts].
  set (fs := flat_map _ _).
  assert (Hlen : List.length fs = (4 * n)%nat).
  { unfold fs. rewrite (length_flat_map_chunks _ 4) by reflexivity.
    unfold range0. rewrite range_length. lia. }
  assert (Hnth : forall i k, (i < n)%nat -> (k < 4)%nat ->
            nth (4 * i + k) fs []
            = nth k (span_quads (section_ids 0 i) (section_ids 0 (S i mod n))) []).
  { intros i k Hi Hk. apply MeshClaims.stitched_span; assumption. }
  split.
  - intros f Hf. apply (In_nth _ _ []) in Hf. destruct Hf as [a [Ha <-]].
    rewrite Hlen in Ha. destruct (split_index a n Ha) as [i [k [-> [Hi Hk]]]].
    rewrite (Hnth i k Hi Hk), span_face by exact Hk. rewrite Hvs.
    destruct (succ_mod_cases i n Hi) as [[Hj ->] | [Hj ->]];
      four_cases k Hk;
      (split; [reflexivity |]);
      (split; [repeat constructor; cbn [In]; lia | cbn [In]; intros v Hv; lia]).
  - intros a b Ha Hb Hab Hincl. rewrite Hlen in Ha, Hb.
    destruct (split_index a n Ha) as [i [k [-> [Hi Hk]]]].
    destruct (split_index b n Hb) as [i' [k' [-> [Hi' Hk']]]].
    rewrite (Hnth i k Hi Hk), (Hnth i' k' Hi' Hk'), !span_face in Hincl
      by assumption.
    set (j := (S i mod n)%nat) in *. set (j' := (S i' mod n)%nat) in *.
    assert (Hj : (S i < n /\ j = S i)%nat \/ (S i = n /\ j = 0)%nat)
      by (apply succ_mod_cases; exact Hi).
    assert (Hj' : (S i' < n /\ j' = S i')%nat \/ (S i' = n /\ j' = 0)%nat)
      by (apply succ_mod_cases; exact Hi').
    clearbody j j'. clear Hnth Hlen fs Hvs.
    four_cases k Hk; four_cases k' Hk';
      match type of Hincl with
      | incl [?a1; ?a2; ?a3; ?a4] _ =>
          pose proof (Hincl a1 ltac:(cbn [In]; tauto)) as I1;
          pose proof (Hincl a2 ltac:(cbn [In]; tauto)) as I2;
          pose proof (Hincl a3 ltac:(cbn [In]; tauto)) as I3;
          pose proof (Hincl a4 ltac:(cbn [In]; tauto)) as I4
      end;
      cbn [In] in I1, I2, I3, I4; clear Hincl; lia.
Qed.

Lemma mesh_eta (bm : bmesh) : bm = mk_bmesh (verts bm) (faces bm).
Proof. destruct bm; reflexivity. Qed.

(** X8: on a path of three samples or more every face the roadway
    builder makes is one the mesh library accepts: a quad of four
    different vertices of the mesh, and no two faces have the same
    vertices. *)
Theorem track_faces_well_formed (name : string) (path : list point3)
  (width thickness : R) (adaptive : bool) :
  (3 <= len path)%Z ->
  exists obj,
    _create_track_along_path name path width thickness adaptive = Ok obj
    /\ faces_well_formed (obj_mesh obj).
Proof.
  intros Hn.
  destruct (track_mesh_spec name path width thickness adaptive Hn)
    as [tangents [radii [obj [_ [_ [Hobj [_ [Hv Hf]]]]]]]].
  exists obj. split; [exact Hobj |].
  rewrite (mesh_eta (obj_mesh obj)), Hf. unfold len.
  apply stitched_faces_well_formed; [unfold len in Hn; lia |].
  rewrite Hv, (length_flat_map_chunks _ 4), enumerate_length by reflexivity.
  reflexivity.
Qed.

Lemma track_faces_well_formed_witness :
  (3 <= len square)%Z
  /\ exists obj,
       _create_track_along_path "Track" square 6 0.5 true = Ok obj
       /\ faces_well_formed (obj_mesh obj).
Proof.
  assert (H3 : (3 <= len square)%Z) by (unfold len; cbn; lia).
  split; [exact H3 |].
  apply (track_faces_well_formed "Track" square 6 0.5 true H3).
Defined.

(** The barrier builder with adaptive offsets: the centre line of the
    barrier follows the edge of the roadway, half the barrier's width
    beyond the left offset when [offset] is positive and beyond the
    right offset otherwise. *)
Lemma barrier_mesh_adaptive (name : string) (path : list point3)
  (offset width height base thw : R) :
  exists tangents radii obj,
    _compute_smooth_tangents path (Z.max 3 (len path / 20)) = Ok tangents
    /\ _compute_curvature_radii path 2 = Ok radii
    /\ _create_barrier_along_path name path offset width height base
         (Some thw) true = Ok obj
    /\ obj_name obj = name
    /\ verts (obj_mesh obj)
       = flat_map
           (barrier_profile tangents
              (fun i =>
                 let '(left_track_offset, right_track_offset) :=
                   _get_adaptive_offsets (item PosInf radii i) thw
                     (item 0 (_compute_turn_directions path tangents) i) in
                 if Rgt_dec offset 0 then left_track_offset + width / 2
                 else - (right_track_offset + width / 2))
              (width / 2) height base)
           (enumerate path)
    /\ faces (obj_mesh obj)
       = flat_map (stitch_quads (map (section_ids 0) (seq 0 (List.length path)))
                     (len path))
           (range0 (len path)).
Proof.
  unfold _create_barrier_along_path.
  destruct (smooth_tangents_total path (Z.max 3 (len path / 20)))
    as [tangents [Ht _]].
  rewrite Ht. cbn [bind]. exists tangents.
  destruct (curvature_radii_total path 2) as [radii [Hr _]].
  rewrite Hr. cbn [bind]. exists radii.
  rewrite barrier_sections_fold, stitch_fold. cbn [verts faces bmesh_new app].
  rewrite enumerate_length.
  eexists; repeat split; reflexivity.
Qed.

(** X9: on a path of three samples or more the barrier builder returns
    a closed tube of the same make as the roadway: four vertices per
    sample, four quads per span, the last span closing the loop, every
    face a quad of four different vertices and no face made twice. *)
Theorem barrier_mesh_topology (name : string) (path : list point3)
  (offset width height base : R) (track_half_width : option R)
  (adaptive_offset : bool) :
  (3 <= len path)%Z ->
  let n := List.length path in
  exists obj,
    _create_barrier_along_path name path offset width height base
      track_half_width adaptive_offset = Ok obj
    /\ obj_name obj = name
    /\ List.length (verts (obj_mesh obj)) = (4 * n)%nat
    /\ List.length (faces (obj_mesh obj)) = (4 * n)%nat
    /\ (forall i, (i < n)%nat ->
          let j := (S i mod n)%nat in
          nth (4 * i) (faces (obj_mesh obj)) []
            = [4 * i; 4 * j; 4 * j + 1; 4 * i + 1]%nat
          /\ nth (4 * i + 1) (faces (obj_mesh obj)) []
             = [4 * i + 3; 4 * i + 2; 4 * j + 2; 4 * j + 3]%nat
          /\ nth (4 * i + 2) (faces (obj_mesh obj)) []
             = [4 * i + 3; 4 * j + 3; 4 * j; 4 * i]%nat
          /\ nth (4 * i + 3) (faces (obj_mesh obj)) []
             = [4 * i + 1; 4 * j + 1; 4 * j + 2; 4 * i + 2]%nat)
    /\ faces_well_formed (obj_mesh obj).
Proof.
  intros Hn n.
  destruct (barrier_mesh_spec name path offset width height base
              track_half_width adaptive_offset)
    as [tangents [actual [obj [_ [Hobj [Hname [Hv Hf]]]]]]].
  exists obj. split; [exact Hobj |]. split; [exact Hname |].
  assert (Hlv : List.length (verts (obj_mesh obj)) = (4 * n)%nat).
  { rewrite Hv, (length_flat_map_chunks _ 4), enumerate_length by reflexivity.
    reflexivity. }
  split; [exact Hlv |].
  split.
  { rewrite Hf, (length_flat_map_chunks _ 4) by reflexivity.
    unfold range0. rewrite range_length. unfold len. fold n. lia. }
  split.
  { intros i Hi j. rewrite Hf. unfold len. fold n.
    replace (4 * i)%nat with (4 * i + 0)%nat at 1 by lia.
    rewrite !MeshClaims.stitched_span by (try exact Hi; lia).
    rewrite !span_face by lia. fold j. repeat split; reflexivity. }
  rewrite (mesh_eta (obj_mesh obj)), Hf. unfold len. fold n.
  apply stitched_faces_well_formed; [unfold len in Hn; lia | exact Hlv].
Qed.

Lemma barrier_mesh_topology_witness :
  (3 <= len square)%Z
  /\ exists obj,
       _create_barrier_along_path "Barrier" square 3.25 0.5 1 0.5 (Some 3) true
       = Ok obj
       /\ List.length (verts (obj_mesh obj)) = 16%nat
       /\ List.length (faces (obj_mesh obj)) = 16%nat
       /\ faces_well_formed (obj_mesh obj).
Proof.
  assert (H3 : (3 <= len square)%Z) by (unfold len; cbn; lia).
  split; [exact H3 |].
  destruct (barrier_mesh_topology "Barrier" square 3.25 0.5 1 0.5 (Some 3) true H3)
    as [obj [H [_ [Hv [Hf [_ Hw]]]]]].
  exists obj. split; [exact H |]. split; [exact Hv |]. split; [exact Hf | exact Hw].
Defined.

Lemma triple_eq (a b c a' b' c' : R) :
  a = a' -> b = b' -> c = c' -> (a, b, c) = (a', b', c').
Proof. intros; subst; reflexivity. Qed.

(** The roadway and a barrier built on the same path, the barrier
    standing on the roadway's top with the roadway's half width: the
    inner foot of a left barrier is the left top edge of the roadway,
    the outer foot of a right barrier is its right top edge. *)
Lemma barrier_on_track_edge (name1 name2 : string) (path : list point3)
  (width thickness offset bwidth height : R) :
  (3 <= len path)%Z ->
  exists surface barrier,
    _create_track_along_path name1 path width thickness true = Ok surface
    /\ _create_barrier_along_path name2 path offset bwidth height thickness
         (Some (width / 2)) true = Ok barrier
    /\ List.length (verts (obj_mesh surface)) = (4 * List.length path)%nat
    /\ List.length (verts (obj_mesh barrier)) = (4 * List.length path)%nat
    /\ forall i, (i < List.length path)%nat ->
         if Rgt_dec offset 0 then
           nth (4 * i + 2) (verts (obj_mesh barrier)) origin
           = nth (4 * i) (verts (obj_mesh surface)) origin
         else
           nth (4 * i + 3) (verts (obj_mesh barrier)) origin
           = nth (4 * i + 1) (verts (obj_mesh surface)) origin.
Proof.
  intros Hn.
  destruct (track_mesh_spec name1 path width thickness true Hn)
    as [tg [rd [surface [Htg [Hrd [Hs [_ [Hsv _]]]]]]]].
  destruct (barrier_mesh_adaptive name2 path offset bwidth height thickness
              (width / 2))
    as [tg' [rd' [barrier [Htg' [Hrd' [Hb [_ [Hbv _]]]]]]]].
  rewrite Htg in Htg'. inversion Htg'; subst tg'.
  rewrite Hrd in Hrd'. inversion Hrd'; subst rd'.
  exists surface, barrier.
  split; [exact Hs |]. split; [exact Hb |].
  split.
  { rewrite Hsv, (length_flat_map_chunks _ 4), enumerate_length by reflexivity.
    reflexivity. }
  split.
  { rewrite Hbv, (length_flat_map_chunks _ 4), enumerate_length by reflexivity.
    reflexivity. }
  intros i Hi.
  assert (HS : forall k, (k < 4)%nat ->
            nth (4 * i + k) (verts (obj_mesh surface)) origin
            = nth k (track_profile tg
                       (fun i : Z =>
                          _get_adaptive_offsets (item PosInf rd i) (width / 2)
                            (item 0 (_compute_turn_directions path tg) i))
                       thickness (Z.of_nat i, nth i path origin)) origin).
  { intros k Hk. rewrite Hsv.
    rewrite (nth_flat_map_chunks _ 4 _ (0%Z, origin))
      by (try reflexivity; try rewrite enumerate_length; lia).
    rewrite enumerate_nth by exact Hi. reflexivity. }
  assert (HB : forall k, (k < 4)%nat ->
            nth (4 * i + k) (verts (obj_mesh barrier)) origin
            = nth k (barrier_profile tg
                       (fun i : Z =>
                          let '(left_track_offset, right_track_offset) :=
                            _get_adaptive_offsets (item PosInf rd i) (width / 2)
                              (item 0 (_compute_turn_directions path tg) i) in
                          if Rgt_dec offset 0 then left_track_offset + bwidth / 2
                          else - (right_track_offset + bwidth / 2))
                       (bwidth / 2) height thickness
                       (Z.of_nat i, nth i path origin)) origin).
  { intros k Hk. rewrite Hbv.
    rewrite (nth_flat_map_chunks _ 4 _ (0%Z, origin))
      by (try reflexivity; try rewrite enumerate_length; lia).
    rewrite enumerate_nth by exact Hi. reflexivity. }
  pose proof (HS 0%nat ltac:(lia)) as HS0. rewrite Nat.add_0_r in HS0.
  destruct (Rgt_dec offset 0) as [Hpos | Hneg].
  - rewrite HS0, HB by lia.
    unfold barrier_profile, track_profile, profile. cbn [fst snd nth].
    destruct (_get_adaptive_offsets _ _ _) as [l r]. cbn [fst snd].
    unfold c0, c1, c2. cbn [fst snd].
    apply triple_eq; ring.
  - rewrite HS, HB by lia.
    unfold barrier_profile, track_profile, profile. cbn [fst snd nth].
    destruct (_get_adaptive_offsets _ _ _) as [l r]. cbn [fst snd].
    unfold c0, c1, c2. cbn [fst snd].
    apply triple_eq; ring.
Qed.

(** X10: in the track that [create_track_from_path] returns with
    barriers, for a non-zero track width wider than the barriers are
    negative ([track_width + barrier_width > 0]), the three meshes have
    the same number of vertices and the barriers stand exactly on the
    edges of the roadway: at every sample the inner foot of the outer
    barrier is the left top vertex of the roadway, and the outer foot of
    the inner barrier is its right top vertex, also where the adaptive
    corridor has narrowed the roadway.  (Over the reals.) *)
Theorem barriers_meet_track_edges (name : string) (path : list point3)
  (track_width track_thickness barrier_height barrier_width : R)
  (location : point3) (resample : bool) :
  (3 <= len path)%Z ->
  track_width <> 0 ->
  0 < track_width + barrier_width ->
  exists surface outer inner,
    create_track_from_path name path track_width track_thickness
      barrier_height barrier_width true location resample
    = Ok [surface; outer; inner]
    /\ List.length (verts (obj_mesh outer))
       = List.length (verts (obj_mesh surface))
    /\ List.length (verts (obj_mesh inner))
       = List.length (verts (obj_mesh surface))
    /\ forall i, (4 * i + 3 < List.length (verts (obj_mesh surface)))%nat ->
         nth (4 * i + 2) (verts (obj_mesh outer)) origin
         = nth (4 * i) (verts (obj_mesh surface)) origin
         /\ nth (4 * i + 3) (verts (obj_mesh inner)) origin
            = nth (4 * i + 1) (verts (obj_mesh surface)) origin.
Proof.
  intros Hn Hw Hpos. unfold create_track_from_path.
  destruct location as [[x y] z].
  assert (Hres : exists p1,
    (if resample then _resample_path_uniform path (Some (track_width / 3)) 100
     else Ok path) = Ok p1 /\ (3 <= len p1)%Z).
  { destruct resample.
    - destruct (resample_pipeline path track_width Hn Hw) as [r [H1 H2]].
      exists r. split; [exact H1 | lia].
    - exists path. split; [reflexivity | exact Hn]. }
  destruct Hres as [p1 [Hp1 Hl1]]. rewrite Hp1. cbn [bind].
  destruct (limit_total p1 track_width 50 Hw) as [p2 [Hp2 Hl2]].
  rewrite Hp2. cbn [bind].
  match goal with |- context [map ?f p2] => set (offset_path := map f p2) end.
  assert (Hl3 : (3 <= len offset_path)%Z).
  { unfold offset_path. rewrite map_len.
    change (3 <= len p2)%Z. rewrite Hl2. exact Hl1. }
  destruct (barrier_on_track_edge (name ++ "_Surface") (name ++ "_Outer_Barrier")
              offset_path track_width track_thickness
              (track_width / 2 + barrier_width / 2) barrier_width barrier_height
              Hl3) as [surface [outer [Hs [Ho [Hls [Hlo Hedge_o]]]]]].
  destruct (barrier_on_track_edge (name ++ "_Surface") (name ++ "_Inner_Barrier")
              offset_path track_width track_thickness
              (- (track_width / 2 + barrier_width / 2)) barrier_width
              barrier_height Hl3)
    as [surface' [inner [Hs' [Hi [_ [Hli Hedge_i]]]]]].
  rewrite Hs in Hs'. inversion Hs'; subst surface'.
  rewrite Hs. cbn [bind]. rewrite Ho. cbn [bind]. rewrite Hi. cbn [bind app].
  exists surface, outer, inner.
  split; [reflexivity |].
  split; [rewrite Hlo, Hls; reflexivity |].
  split; [rewrite Hli, Hls; reflexivity |].
  intros i Hi4. rewrite Hls in Hi4.
  assert (Hi' : (i < @List.length point3 offset_path)%nat) by lia.
  specialize (Hedge_o i Hi'). specialize (Hedge_i i Hi').
  destruct (Rgt_dec (track_width / 2 + barrier_width / 2) 0) as [_ | Hc];
    [| exfalso; apply Hc; lra].
  destruct (Rgt_dec (- (track_width / 2 + barrier_width / 2)) 0) as [Hc | _];
    [exfalso; lra |].
  split; [exact Hedge_o | exact Hedge_i].
Qed.

Lemma barriers_meet_track_edges_witness :
  (3 <= len square)%Z /\ 6 <> 0 /\ 0 < 6 + 0.5
  /\ exists surface outer inner,
       create_track_from_path "Track" square 6 0.5 1 0.5 true (0, 0, 0) true
       = Ok [surface; outer; inner]
       /\ forall i, (4 * i + 3 < List.length (verts (obj_mesh surface)))%nat ->
            nth (4 * i + 2) (verts (obj_mesh outer)) origin
            = nth (4 * i) (verts (obj_mesh surface)) origin
            /\ nth (4 * i + 3) (verts (obj_mesh inner)) origin
               = nth (4 * i + 1) (verts (obj_mesh surface)) origin.
Proof.
  assert (H3 : (3 <= len square)%Z) by (unfold len; cbn; lia).
  assert (H6 : 6 <> 0) by lra.
  assert (Hb : 0 < 6 + 0.5) by lra.
  split; [exact H3 |]. split; [exact H6 |]. split; [exact Hb |].
  destruct (barriers_meet_track_edges "Track" square 6 0.5 1 0.5 (0, 0, 0) true
              H3 H6 Hb) as [s [o [i [H [_ [_ Hedge]]]]]].
  exists s, o, i. split; [exact H | exact Hedge].
Defined.

End MeshExtras.

(* ------------------------------------------------------------------ *)

Module CorridorExtras.

Import Corridor Vocabulary Notions CorridorFacts Inputs.

Lemma sqrt_quarter_sq (x : R) : sqrt (x ^ 2 / 4) = Rabs x / 2.
Proof.
  apply sqrt_val.
  - pose proof (Rabs_pos x). lra.
  - replace (Rabs x / 2 * (Rabs x / 2)) with (Rabs x * Rabs x / 4) by field.
    rewrite <- Rabs_mult. rewrite Rabs_right by nra. field.
Qed.



(** The circle through three places that are not on one line. *)
Lemma circumcircle (x0 y0 x1 y1 x2 y2 : R) :
  let cross := (x1 - x0) * (y2 - y1) - (y1 - y0) * (x2 - x1) in
  let a2 := (x1 - x2) ^ 2 + (y1 - y2) ^ 2 in
  let b2 := (x0 - x2) ^ 2 + (y0 - y2) ^ 2 in
  let c2 := (x0 - x1) ^ 2 + (y0 - y1) ^ 2 in
  let cx := ((x0 * x0 + y0 * y0) * (y1 - y2) + (x1 * x1 + y1 * y1) * (y2 - y0)
             + (x2 * x2 + y2 * y2) * (y0 - y1)) / (2 * cross) in
  let cy := ((x0 * x0 + y0 * y0) * (x2 - x1) + (x1 * x1 + y1 * y1) * (x0 - x2)
             + (x2 * x2 + y2 * y2) * (x1 - x0)) / (2 * cross) in
  cross <> 0 ->
  (x0 - cx) * (x0 - cx) + (y0 - cy) * (y0 - cy) = a2 * b2 * c2 / (4 * cross ^ 2)
  /\ (x1 - cx) * (x1 - cx) + (y1 - cy) * (y1 - cy) = a2 * b2 * c2 / (4 * cross ^ 2)
  /\ (x2 - cx) * (x2 - cx) + (y2 - cy) * (y2 - cy) = a2 * b2 * c2 / (4 * cross ^ 2).
Proof.
  intros cross a2 b2 c2 cx cy Hc.
  unfold cx, cy, a2, b2, c2. unfold cross in *. clear cx cy a2 b2 c2 cross.
  split; [| split]; (field; intros E; apply Hc; rewrite <- E; ring).
Qed.

Lemma sq_pos (x : R) : x <> 0 -> 0 < x ^ 2.
Proof.
  intros Hx. destruct (Rtotal_order x 0) as [H | [H | H]]; [nra | contradiction | nra].
Qed.

Lemma far_apart (x y x' y' : R) :
  (x, y) <> (x', y') -> 0 < (x - x') ^ 2 + (y - y') ^ 2.
Proof.
  intros Hne.
  destruct (Req_dec x x') as [E1 | E1].
  - destruct (Req_dec y y') as [E2 | E2]; [subst; contradiction |].
    pose proof (sq_pos (y - y') ltac:(intros H; apply E2; lra)).
    pose proof (pow2_ge_0 (x - x')). lra.
  - pose proof (sq_pos (x - x') ltac:(intros H; apply E1; lra)).
    pose proof (pow2_ge_0 (y - y')). lra.
Qed.

Lemma sides_positive (x0 y0 x1 y1 x2 y2 : R) :
  let cross := (x1 - x0) * (y2 - y1) - (y1 - y0) * (x2 - x1) in
  cross <> 0 ->
  0 < (x1 - x2) ^ 2 + (y1 - y2) ^ 2
  /\ 0 < (x0 - x2) ^ 2 + (y0 - y2) ^ 2
  /\ 0 < (x0 - x1) ^ 2 + (y0 - y1) ^ 2.
Proof.
  intros cross Hc.
  split; [| split]; apply far_apart; intros E; inversion E; subst;
    apply Hc; unfold cross; ring.
Qed.

(** X12: a finite curvature radius is the radius of the circle through
    the sample and its two neighbours: it is positive, and some centre
    in the ground plane is that far from all three. *)
Theorem curvature_radius_is_circumradius (path_points : list point3)
  (index : Z) (radius : R) :
  _compute_curvature_radius path_points index = Ok (Finite radius) ->
  let n := len path_points in
  0 < radius
  /\ exists cx cy,
       planar_distance_sq (item origin path_points ((index - 1) mod n)%Z) cx cy
       = radius * radius
       /\ planar_distance_sq (item origin path_points index) cx cy
          = radius * radius
       /\ planar_distance_sq (item origin path_points ((index + 1) mod n)%Z) cx cy
          = radius * radius.
Proof.
  intros H n. unfold _compute_curvature_radius in H. fold n in H.
  destruct (n <? 3)%Z; [discriminate |].
  rewrite !py_sqrt_ok in H by apply sum_pow2_nonneg. cbn [bind] in H.
  rewrite heron_cross in H.
  set (p0 := item origin path_points ((index - 1) mod n)%Z) in *.
  set (p1 := item origin path_points index) in *.
  set (p2 := item origin path_points ((index + 1) mod n)%Z) in *.
  set (cross := (c0 p1 - c0 p0) * (c1 p2 - c1 p1)
                - (c1 p1 - c1 p0) * (c0 p2 - c0 p1)) in *.
  destruct (Rle_dec (cross ^ 2 / 4) 0) as [Hle | Hgt]; [discriminate |].
  rewrite py_sqrt_ok in H by lra. cbn [bind] in H.
  rewrite sqrt_quarter_sq in H.
  destruct (Rlt_dec (Rabs cross / 2) 0.0001) as [Hs | Hb]; [discriminate |].
  rewrite py_div_ok in H by lra. cbn [bind] in H.
  injection H as Hr.
  assert (Hc : cross <> 0).
  { intros E. rewrite E, Rabs_R0 in Hb. lra. }
  destruct (sides_positive (c0 p0) (c1 p0) (c0 p1) (c1 p1) (c0 p2) (c1 p2) Hc)
    as [Ha2 [Hb2 Hc2]].
  set (a2 := (c0 p1 - c0 p2) ^ 2 + (c1 p1 - c1 p2) ^ 2) in *.
  set (b2 := (c0 p0 - c0 p2) ^ 2 + (c1 p0 - c1 p2) ^ 2) in *.
  set (c2' := (c0 p0 - c0 p1) ^ 2 + (c1 p0 - c1 p1) ^ 2) in *.
  assert (Hsa : 0 < sqrt a2) by (apply sqrt_lt_R0; exact Ha2).
  assert (Hsb : 0 < sqrt b2) by (apply sqrt_lt_R0; exact Hb2).
  assert (Hsc : 0 < sqrt c2') by (apply sqrt_lt_R0; exact Hc2).
  assert (Habs : 0 < Rabs cross) by (apply Rabs_pos_lt; exact Hc).
  assert (Hr' : sqrt a2 * sqrt b2 * sqrt c2' / (4 * (Rabs cross / 2)) = radius)
    by exact Hr.
  clear Hr. rewrite <- Hr'. clear Hr'.
  split.
  { apply Rdiv_lt_0_compat; [| lra].
    apply Rmult_lt_0_compat; [apply Rmult_lt_0_compat |]; assumption. }
  assert (Hsq : sqrt a2 * sqrt b2 * sqrt c2' / (4 * (Rabs cross / 2))
                * (sqrt a2 * sqrt b2 * sqrt c2' / (4 * (Rabs cross / 2)))
                = a2 * b2 * c2' / (4 * cross ^ 2)).
  { transitivity ((sqrt a2 * sqrt a2) * (sqrt b2 * sqrt b2) * (sqrt c2' * sqrt c2')
                  / (4 * (Rabs cross * Rabs cross))); [field; lra |].
    rewrite !sqrt_sqrt by lra. rewrite <- Rabs_mult.
    rewrite (Rabs_right (cross * cross)) by nra. field. exact Hc. }
  destruct (circumcircle (c0 p0) (c1 p0) (c0 p1) (c1 p1) (c0 p2) (c1 p2) Hc)
    as [E0 [E1 E2]].
  fold cross a2 b2 c2' in E0, E1, E2.
  eexists. eexists. unfold planar_distance_sq. rewrite Hsq.
  split; [exact E0 |]. split; [exact E1 | exact E2].
Qed.

Lemma curvature_radius_is_circumradius_witness :
  _compute_curvature_radius small_triangle 0
  = Ok (Finite (0.03 * 0.04 * 0.05 / (4 * 0.0006)))
  /\ 0 < 0.03 * 0.04 * 0.05 / (4 * 0.0006)
  /\ exists cx cy,
       planar_distance_sq (item origin small_triangle 2) cx cy
       = 0.03 * 0.04 * 0.05 / (4 * 0.0006) * (0.03 * 0.04 * 0.05 / (4 * 0.0006))
       /\ planar_distance_sq (item origin small_triangle 0) cx cy
          = 0.03 * 0.04 * 0.05 / (4 * 0.0006) * (0.03 * 0.04 * 0.05 / (4 * 0.0006))
       /\ planar_distance_sq (item origin small_triangle 1) cx cy
          = 0.03 * 0.04 * 0.05 / (4 * 0.0006) * (0.03 * 0.04 * 0.05 / (4 * 0.0006)).
Proof.
  assert (H : _compute_curvature_radius small_triangle 0
              = Ok (Finite (0.03 * 0.04 * 0.05 / (4 * 0.0006)))).
  { apply (CorridorClaims.curvature_radius_value small_triangle 0 0.03 0.04 0.05
             0.0006);
      [ unfold len; cbn; lia
      | change (len small_triangle) with 3%Z; cbv zeta;
        change (item origin small_triangle ((0 - 1) mod 3))
          with ((0.03, 0.04, 0) : point3);
        change (item origin small_triangle ((0 + 1) mod 3))
          with ((0.03, 0, 0) : point3);
        change (item origin small_triangle 0) with ((0, 0, 0) : point3);
        unfold c0, c1; cbn [fst snd]; lra .. ]. }
  split; [exact H |].
  exact (curvature_radius_is_circumradius small_triangle 0 _ H).
Defined.








End CorridorExtras.

(* ------------------------------------------------------------------ *)

Module FrameExtras.

Import Corridor Frame Mesh Vocabulary Notions CorridorFacts FrameFacts MeshFacts
  TrackMesh Inputs.

(** Both unwrapping loops move the difference by whole turns. *)
Lemma whole_turns_loop (cond : R -> bool) (body : R -> R) (sign : Z)
  (fuel : nat) (d0 d : R) :
  (forall d, body d = d + IZR sign * (2 * PI)) ->
  (exists k : Z, d = d0 + IZR k * (2 * PI)) ->
  exists k : Z, while_loop fuel cond body d = d0 + IZR k * (2 * PI).
Proof.
  intros Hbody H.
  apply (while_loop_invariant (fun d => exists k : Z, d = d0 + IZR k * (2 * PI)));
    [| exact H].
  intros s [k Hk] _. exists (k + sign)%Z. rewrite Hbody, plus_IZR, Hk. ring.
Qed.

(** X14: unwrapping an angle against a base angle moves it by a whole
    number of turns -- the direction it stands for is kept -- and
    brings it to within [pi] of the base angle; an angle already that
    close is returned as it is. *)
Theorem unwrap_whole_turns (base_angle angle : R) :
  (exists k : Z, unwrap base_angle angle = angle + IZR k * (2 * PI))
  /\ base_angle - PI <= unwrap base_angle angle <= base_angle + PI
  /\ (base_angle - PI <= angle <= base_angle + PI ->
      unwrap base_angle angle = angle).
Proof.
  split; [| split; [apply unwrap_range |]].
  - unfold unwrap.
    set (d1 := while_loop _ _ _ (angle - base_angle)).
    assert (H1 : exists k : Z, d1 = (angle - base_angle) + IZR k * (2 * PI)).
    { unfold d1. apply (whole_turns_loop _ _ (-1)).
      - intros d. lra.
      - exists 0%Z. ring. }
    destruct (whole_turns_loop (fun d => if Rlt_dec d (- PI) then true else false)
                (fun d => d + 2 * PI) 1 (unwrap_fuel (- d1))
                (angle - base_angle) d1 ltac:(intros d; lra) H1) as [k Hk].
    exists k. rewrite Hk. ring.
  - intros [Hlo Hhi]. unfold unwrap.
    assert (E1 : while_loop (unwrap_fuel (angle - base_angle))
                   (fun d => if Rgt_dec d PI then true else false)
                   (fun d => d - 2 * PI) (angle - base_angle)
                 = angle - base_angle).
    { destruct (unwrap_fuel (angle - base_angle)); cbn [while_loop];
        [reflexivity |].
      destruct (Rgt_dec (angle - base_angle) PI); [lra | reflexivity]. }
    rewrite E1.
    assert (E2 : while_loop (unwrap_fuel (- (angle - base_angle)))
                   (fun d => if Rlt_dec d (- PI) then true else false)
                   (fun d => d + 2 * PI) (angle - base_angle)
                 = angle - base_angle).
    { destruct (unwrap_fuel (- (angle - base_angle))); cbn [while_loop];
        [reflexivity |].
      destruct (Rlt_dec (angle - base_angle) (- PI)); [lra | reflexivity]. }
    rewrite E2. ring.
Qed.

Lemma unwrap_whole_turns_witness :
  (exists k : Z, unwrap 0 (5 * PI / 2) = 5 * PI / 2 + IZR k * (2 * PI))
  /\ 0 - PI <= unwrap 0 (5 * PI / 2) <= 0 + PI
  /\ unwrap 0 (PI / 2) = PI / 2.
Proof.
  split; [apply (unwrap_whole_turns 0 (5 * PI / 2)) |].
  split; [apply (unwrap_whole_turns 0 (5 * PI / 2)) |].
  apply (unwrap_whole_turns 0 (PI / 2)). pose proof PI_RGT_0. lra.
Defined.

Lemma foldM_ext {A S : Type} (f g : S -> A -> result S) (l : list A) :
  (forall s a, f s a = g s a) -> forall s, foldM f l s = foldM g l s.
Proof.
  intros H. induction l as [| a l IH]; intros s; cbn [foldM]; [reflexivity |].
  rewrite H. destruct (g s a); cbn [bind]; [apply IH | reflexivity].
Qed.

Lemma raw_tangent_xy (p q : list point3) (n w i : Z) :
  map xy p = map xy q -> raw_tangent_at p n w i = raw_tangent_at q n w i.
Proof.
  intros H. unfold raw_tangent_at. f_equal.
  apply foldM_ext. intros [[tx ty] ws] offset.
  rewrite !(c0_item p q _ H), !(c1_item p q _ H). reflexivity.
Qed.

(** The frames depend on the ground positions of the samples only. *)
Lemma smooth_tangents_xy (p q : list point3) (w : Z) :
  map xy p = map xy q ->
  _compute_smooth_tangents p w = _compute_smooth_tangents q w.
Proof.
  intros H. unfold _compute_smooth_tangents, raw_tangents.
  rewrite (xy_len p q H).
  rewrite (mapM_ext_in (raw_tangent_at p (len q) w) (raw_tangent_at q (len q) w))
    by (intros; apply raw_tangent_xy; exact H).
  reflexivity.
Qed.

Lemma nth_xy (p q : list point3) (i : nat) :
  map xy p = map xy q ->
  c0 (nth i p origin) = c0 (nth i q origin)
  /\ c1 (nth i p origin) = c1 (nth i q origin).
Proof.
  intros H. pose proof (c0_item p q (Z.of_nat i) H) as H0.
  pose proof (c1_item p q (Z.of_nat i) H) as H1.
  unfold item in H0, H1. rewrite Nat2Z.id in H0, H1. split; assumption.
Qed.

(** X15: the ground plan of the roadway does not depend on the
    elevations: on two paths of three samples or more with the same
    ground positions the roadway builder makes the same faces and
    vertices with the same ground positions, and every vertex stands as
    high above its sample on the one path as on the other. *)
Theorem track_ground_plan_elevation_independent (name : string)
  (p q : list point3) (width thickness : R) (adaptive : bool) :
  (3 <= len p)%Z ->
  map xy p = map xy q ->
  exists surface_p surface_q,
    _create_track_along_path name p width thickness adaptive = Ok surface_p
    /\ _create_track_along_path name q width thickness adaptive = Ok surface_q
    /\ map xy (verts (obj_mesh surface_p)) = map xy (verts (obj_mesh surface_q))
    /\ faces (obj_mesh surface_p) = faces (obj_mesh surface_q)
    /\ forall i k, (i < List.length p)%nat -> (k < 4)%nat ->
         c2 (nth (4 * i + k) (verts (obj_mesh surface_p)) origin)
         - c2 (nth i p origin)
         = c2 (nth (4 * i + k) (verts (obj_mesh surface_q)) origin)
           - c2 (nth i q origin).
Proof.
  intros Hn H.
  assert (Hlen : len p = len q) by (apply xy_len; exact H).
  assert (Hlen' : List.length p = List.length q) by (unfold len in Hlen; lia).
  assert (Hnq : (3 <= len q)%Z) by lia.
  destruct (track_mesh_spec name p width thickness adaptive Hn)
    as [tp [rp [sp [Htp [Hrp [Hsp [_ [Hvp Hfp]]]]]]]].
  destruct (track_mesh_spec name q width thickness adaptive Hnq)
    as [tq [rq [sq [Htq [Hrq [Hsq [_ [Hvq Hfq]]]]]]]].
  rewrite (smooth_tangents_xy p q _ H), Hlen, Htq in Htp.
  injection Htp as Et. subst tq.
  assert (Er : rp = rq).
  { destruct adaptive; [| congruence].
    rewrite (curvature_radii_xy p q 2 H), Hrq in Hrp. congruence. }
  subst rq.
  rewrite (turn_directions_xy q p tp tp (eq_sym H)) in Hvq.
  exists sp, sq.
  split; [exact Hsp |]. split; [exact Hsq |].
  set (offsets := fun i : Z =>
         if adaptive
         then _get_adaptive_offsets (item PosInf rp i) (width / 2)
                (item 0 (_compute_turn_directions p tp) i)
         else (width / 2, width / 2)) in *.
  assert (HP : forall i k, (i < List.length p)%nat -> (k < 4)%nat ->
            nth (4 * i + k) (verts (obj_mesh sp)) origin
            = nth k (track_profile tp offsets thickness
                       (Z.of_nat i, nth i p origin)) origin).
  { intros i k Hi Hk. rewrite Hvp.
    rewrite (nth_flat_map_chunks _ 4 _ (0%Z, origin))
      by (try reflexivity; try rewrite enumerate_length; lia).
    rewrite enumerate_nth by exact Hi. reflexivity. }
  assert (HQ : forall i k, (i < List.length p)%nat -> (k < 4)%nat ->
            nth (4 * i + k) (verts (obj_mesh sq)) origin
            = nth k (track_profile tp offsets thickness
                       (Z.of_nat i, nth i q origin)) origin).
  { intros i k Hi Hk. rewrite Hvq.
    rewrite (nth_flat_map_chunks _ 4 _ (0%Z, origin))
      by (try reflexivity; try rewrite enumerate_length; lia).
    rewrite enumerate_nth by lia. reflexivity. }
  assert (HLp : List.length (verts (obj_mesh sp)) = (4 * List.length p)%nat).
  { rewrite Hvp, (length_flat_map_chunks _ 4), enumerate_length by reflexivity.
    reflexivity. }
  assert (HLq : List.length (verts (obj_mesh sq)) = (4 * List.length p)%nat).
  { rewrite Hvq, (length_flat_map_chunks _ 4), enumerate_length by reflexivity.
    lia. }
  split.
  { apply (nth_ext _ _ (xy origin) (xy origin)).
    - rewrite !length_map, HLp, HLq. reflexivity.
    - intros m Hm. rewrite length_map, HLp in Hm.
      destruct (MeshExtras.split_index m _ Hm) as [i [k [-> [Hi Hk]]]].
      rewrite !(map_nth xy), HP, HQ by assumption.
      destruct (nth_xy p q i H) as [E0 E1].
      unfold track_profile, profile. cbn [fst snd].
      destruct k as [| [| [| [| k]]]]; [| | | | lia]; cbn [nth];
        unfold xy, c0, c1 in *; cbn [fst snd]; rewrite E0, E1; reflexivity. }
  split.
  { rewrite Hfp, Hfq, Hlen, Hlen'. reflexivity. }
  intros i k Hi Hk. rewrite HP, HQ by assumption.
  unfold track_profile, profile. cbn [fst snd].
  destruct k as [| [| [| [| k]]]]; [| | | | lia]; cbn [nth];
    unfold c2; cbn [fst snd]; ring.
Qed.

Lemma track_ground_plan_elevation_independent_witness :
  (3 <= len small_triangle)%Z
  /\ map xy small_triangle = map xy small_triangle_raised
  /\ exists surface_p surface_q,
       _create_track_along_path "Track" small_triangle 6 0.5 true = Ok surface_p
       /\ _create_track_along_path "Track" small_triangle_raised 6 0.5 true
          = Ok surface_q
       /\ map xy (verts (obj_mesh surface_p)) = map xy (verts (obj_mesh surface_q))
       /\ faces (obj_mesh surface_p) = faces (obj_mesh surface_q).
Proof.
  assert (H3 : (3 <= len small_triangle)%Z) by (unfold len; cbn; lia).
  assert (Hxy : map xy small_triangle = map xy small_triangle_raised)
    by reflexivity.
  split; [exact H3 |]. split; [exact Hxy |].
  destruct (track_ground_plan_elevation_independent "Track" small_triangle
              small_triangle_raised 6 0.5 true H3 Hxy)
    as [sp [sq [Hp [Hq [Hv [Hf _]]]]]].
  exists sp, sq. repeat split; assumption.
Defined.

End FrameExtras.

(* ------------------------------------------------------------------ *)

Module PresetExtras.

Import Mesh Presets Vocabulary Notions Inputs.

Lemma smooth_step_range (t : R) : 0 <= _smooth_step t <= 1.
Proof.
  unfold _smooth_step.
  assert (H : 0 <= Rmax 0 (Rmin 1 t) <= 1).
  { split; [apply Rmax_l |]. apply Rmax_lub; [lra | apply Rmin_l]. }
  set (u := Rmax 0 (Rmin 1 t)) in *. clearbody u. split.
  - apply Rmult_le_pos; [apply Rmult_le_pos |]; lra.
  - assert (E : 1 - u * u * (3 - 2 * u) = (1 - u) * (1 - u) * (1 + 2 * u)) by ring.
    assert (0 <= (1 - u) * (1 - u) * (1 + 2 * u))
      by (apply Rmult_le_pos; [apply Rmult_le_pos |]; lra).
    lra.
Qed.

(** X16: the Hermite step is 0 up to 0 and 1 from 1 on, stays between
    0 and 1, never decreases, and is symmetric about its middle:
    [_smooth_step (1 - t) = 1 - _smooth_step t]. *)
Theorem smooth_step_shape :
  (forall t, t <= 0 -> _smooth_step t = 0)
  /\ (forall t, 1 <= t -> _smooth_step t = 1)
  /\ (forall t, 0 <= _smooth_step t <= 1)
  /\ (forall s t, s <= t -> _smooth_step s <= _smooth_step t)
  /\ (forall t, _smooth_step (1 - t) = 1 - _smooth_step t).
Proof.
  assert (Hclamp : forall t, 0 <= Rmax 0 (Rmin 1 t) <= 1).
  { intros t. split; [apply Rmax_l |].
    apply Rmax_lub; [lra | apply Rmin_l]. }
  assert (Hmono : forall a b, 0 <= a -> a <= b -> b <= 1 ->
            a * a * (3 - 2 * a) <= b * b * (3 - 2 * b)).
  { intros a b Ha Hab Hb.
    assert (E : b * b * (3 - 2 * b) - a * a * (3 - 2 * a)
                = (b - a) * (3 * (a + b) - 2 * (a * a + a * b + b * b))) by ring.
    assert (0 <= 3 * (a + b) - 2 * (a * a + a * b + b * b)) by nra.
    assert (0 <= (b - a) * (3 * (a + b) - 2 * (a * a + a * b + b * b)))
      by (apply Rmult_le_pos; lra).
    lra. }
  repeat split.
  - intros t Ht. unfold _smooth_step.
    rewrite Rmin_right by lra. rewrite Rmax_left by lra. ring.
  - intros t Ht. unfold _smooth_step.
    rewrite Rmin_left by lra. rewrite Rmax_right by lra. ring.
  - unfold _smooth_step. destruct (Hclamp t) as [H0 H1].
    pose proof (Hmono 0 (Rmax 0 (Rmin 1 t)) ltac:(lra) H0 H1). lra.
  - unfold _smooth_step. destruct (Hclamp t) as [H0 H1].
    pose proof (Hmono (Rmax 0 (Rmin 1 t)) 1 H0 H1 ltac:(lra)). lra.
  - intros s t Hst. unfold _smooth_step.
    destruct (Hclamp s) as [H0 _]. destruct (Hclamp t) as [_ H1].
    apply Hmono; [exact H0 | | exact H1].
    apply Rmax_lub; [apply Rmax_l |].
    eapply Rle_trans; [| apply Rmax_r].
    apply Rmin_glb; [apply Rmin_l |].
    eapply Rle_trans; [apply Rmin_r | exact Hst].
  - intros t. unfold _smooth_step.
    assert (E : Rmax 0 (Rmin 1 (1 - t)) = 1 - Rmax 0 (Rmin 1 t)).
    { destruct (Rle_lt_dec t 0) as [Ht | Ht].
      - rewrite (Rmin_left 1 (1 - t)) by lra. rewrite (Rmax_right 0 1) by lra.
        rewrite (Rmin_right 1 t) by lra. rewrite (Rmax_left 0 t) by lra. ring.
      - destruct (Rle_lt_dec 1 t) as [Ht1 | Ht1].
        + rewrite (Rmin_right 1 (1 - t)) by lra.
          rewrite (Rmax_left 0 (1 - t)) by lra.
          rewrite (Rmin_left 1 t) by lra. rewrite (Rmax_right 0 1) by lra. ring.
        + rewrite (Rmin_right 1 (1 - t)) by lra.
          rewrite (Rmax_right 0 (1 - t)) by lra.
          rewrite (Rmin_right 1 t) by lra. rewrite (Rmax_right 0 t) by lra.
          reflexivity. }
    rewrite E. ring.
Qed.

Lemma smooth_step_shape_witness :
  _smooth_step (-1) = 0 /\ _smooth_step 2 = 1
  /\ _smooth_step 0.25 <= _smooth_step 0.75.
Proof.
  destruct smooth_step_shape as [H0 [H1 [_ [Hm _]]]].
  split; [apply H0; lra |]. split; [apply H1; lra | apply Hm; lra].
Defined.

Lemma item_In {A : Type} (d : A) (l : list A) (i : Z) :
  (0 <= i < len l)%Z -> In (item d l i) l.
Proof. intros Hi. unfold item. apply nth_In. unfold len in Hi. lia. Qed.

(** The window loop counts its rounds and sums elevations of the path. *)
Lemma height_fold_count (points : list point3) (n i : Z) (l : list Z) :
  forall z_sum count,
    snd (fold_left
           (fun '(z_sum, count) j =>
              let idx := ((i + j) mod n)%Z in
              (z_sum + c2 (item origin points idx), (count + 1)%Z))
           l (z_sum, count))
    = (count + len l)%Z.
Proof.
  induction l as [| j l IH]; intros z_sum count.
  - cbn. unfold len. cbn. lia.
  - cbn [fold_left]. rewrite IH. unfold len. cbn [List.length]. lia.
Qed.

Lemma height_fold_sum (points : list point3) (n i : Z) (lo hi : R)
  (l : list Z) :
  (0 < n)%Z -> n = len points ->
  (forall p, In p points -> lo <= c2 p <= hi) ->
  forall z_sum count,
    let r := fold_left
               (fun '(z_sum, count) j =>
                  let idx := ((i + j) mod n)%Z in
                  (z_sum + c2 (item origin points idx), (count + 1)%Z))
               l (z_sum, count) in
    z_sum + lo * IZR (len l) <= fst r <= z_sum + hi * IZR (len l).
Proof.
  intros Hn En Hb. induction l as [| j l IH]; intros z_sum count.
  - unfold len. cbn. lra.
  - cbn [fold_left].
    pose proof (IH (z_sum + c2 (item origin points ((i + j) mod n)%Z))
                  (count + 1)%Z) as H2.
    assert (Hin : lo <= c2 (item origin points ((i + j) mod n)%Z) <= hi).
    { apply Hb, item_In. rewrite <- En. apply Z.mod_pos_bound. exact Hn. }
    assert (El : len (j :: l) = (len l + 1)%Z)
      by (unfold len; cbn [List.length]; lia).
    cbv zeta in H2 |- *. rewrite El, plus_IZR. lra.
Qed.

Lemma range_len (lo hi : Z) : len (range lo hi) = Z.max 0 (hi - lo).
Proof. unfold len. rewrite range_length. lia. Qed.

Lemma height_window_count (points : list point3) (n window i : Z) :
  (0 <= window)%Z ->
  snd (height_window points n window i) = (2 * window + 1)%Z.
Proof.
  intros Hw. unfold height_window. rewrite height_fold_count, range_len. lia.
Qed.

Lemma smooth_heights_spec (points : list point3) (window : Z) :
  (0 <= window)%Z ->
  exists smoothed,
    _smooth_height_transitions points window = Ok smoothed
    /\ len smoothed = len points
    /\ forall i, (0 <= i < len points)%Z ->
         xy (item origin smoothed i) = xy (item origin points i)
         /\ forall lo hi,
              (forall p, In p points -> lo <= c2 p <= hi) ->
              lo <= c2 (item origin smoothed i) <= hi.
Proof.
  intros Hw. unfold _smooth_height_transitions.
  set (n := len points).
  set (g := fun i : Z =>
              (c0 (item origin points i), c1 (item origin points i),
               0.7 * c2 (item origin points i)
               + 0.3 * (fst (height_window points n window i)
                        / IZR (snd (height_window points n window i))))).
  assert (Hc : forall i, IZR (snd (height_window points n window i)) <> 0).
  { intros i. rewrite height_window_count by exact Hw. apply not_0_IZR. lia. }
  exists (map g (range0 n)).
  split.
  { apply mapM_pure. intros i _.
    pose proof (Hc i) as Hci. unfold g.
    destruct (height_window points n window i) as [z_sum count].
    cbn [fst snd] in Hci |- *. rewrite py_div_ok by exact Hci. reflexivity. }
  split.
  { unfold len at 1. rewrite length_map. unfold range0. rewrite range_length.
    unfold n, len. lia. }
  intros i Hi.
  assert (Ei : item origin (map g (range0 n)) i = g i).
  { unfold item.
    rewrite (nth_indep _ origin (g 0%Z))
      by (rewrite length_map; unfold range0; rewrite range_length; lia).
    rewrite map_nth. unfold range0. rewrite range_nth by lia.
    f_equal. lia. }
  rewrite Ei. unfold g. split; [reflexivity |].
  intros lo hi Hb. unfold c2 at 1. cbn [fst snd].
  assert (Hz : lo <= c2 (item origin points i) <= hi)
    by (apply Hb, item_In; exact Hi).
  pose proof (height_fold_sum points n i lo hi (range (- window) (window + 1))
                ltac:(lia) eq_refl Hb 0 0%Z) as Hs.
  cbv zeta in Hs. fold (height_window points n window i) in Hs.
  rewrite range_len in Hs.
  rewrite height_window_count by exact Hw.
  replace (Z.max 0 (window + 1 - - window)) with (2 * window + 1)%Z in Hs by lia.
  assert (Hpos : 0 < IZR (2 * window + 1)) by (apply IZR_lt; lia).
  set (sm := fst (height_window points n window i)) in *.
  set (c := IZR (2 * window + 1)) in *.
  assert (Havg : lo <= sm / c <= hi).
  { split.
    - apply Rmult_le_reg_r with c; [exact Hpos |].
      unfold Rdiv. rewrite Rmult_assoc, Rinv_l by lra. lra.
    - apply Rmult_le_reg_r with c; [exact Hpos |].
      unfold Rdiv. rewrite Rmult_assoc, Rinv_l by lra. lra. }
  unfold c2 at 2. cbn [fst snd]. lra.
Qed.

(** X17: with a window of 0 or more the elevation smoothing returns one
    sample per sample, at the same ground position, and every new
    elevation lies within any bounds that hold for all the old ones: a
    flat path stays flat, and the smoothing never leaves the range of
    the elevations it was given. *)
Theorem smooth_heights_bounded (points : list point3) (window : Z) :
  (0 <= window)%Z ->
  exists smoothed,
    _smooth_height_transitions points window = Ok smoothed
    /\ len smoothed = len points
    /\ (forall i, (0 <= i < len points)%Z ->
         xy (item origin smoothed i) = xy (item origin points i)
         /\ forall lo hi,
              (forall p, In p points -> lo <= c2 p <= hi) ->
              lo <= c2 (item origin smoothed i) <= hi)
    /\ forall c, (forall p, In p points -> c2 p = c) ->
         forall p, In p smoothed -> c2 p = c.
Proof.
  intros Hw.
  destruct (smooth_heights_spec points window Hw) as [smoothed [Hs [Hl Hi]]].
  exists smoothed. split; [exact Hs |]. split; [exact Hl |].
  split; [exact Hi |].
  intros c Hflat p Hp.
  destruct (In_nth smoothed p origin Hp) as [k [Hk <-]].
  assert (Hk' : (0 <= Z.of_nat k < len points)%Z)
    by (rewrite <- Hl; unfold len; lia).
  destruct (Hi (Z.of_nat k) Hk') as [_ Hb].
  specialize (Hb c c).
  unfold item in Hb. rewrite Nat2Z.id in Hb.
  apply Rle_antisym; apply Hb; intros q Hq; rewrite (Hflat q Hq); lra.
Qed.

Lemma smooth_heights_bounded_witness :
  (0 <= 5)%Z
  /\ exists smoothed,
       _smooth_height_transitions small_triangle_raised 5 = Ok smoothed
       /\ len smoothed = len small_triangle_raised
       /\ 1 <= c2 (item origin smoothed 0) <= 5.
Proof.
  assert (H5 : (0 <= 5)%Z) by lia.
  split; [exact H5 |].
  destruct (smooth_heights_bounded small_triangle_raised 5 H5)
    as [sm [H [Hl [Hb _]]]].
  exists sm. split; [exact H |]. split; [exact Hl |].
  apply (Hb 0%Z ltac:(unfold len; cbn; lia)).
  intros p [<- | [<- | [<- | []]]]; unfold c2; cbn [snd]; lra.
Defined.

(** X18: a negative window makes the elevation smoothing divide by
    zero on every path that is not empty. *)
Theorem smooth_heights_negative_window (points : list point3) (window : Z) :
  (window < 0)%Z ->
  points <> [] ->
  _smooth_height_transitions points window = Raise ZeroDivisionError.
Proof.
  intros Hw Hne. unfold _smooth_height_transitions.
  destruct points as [| p points]; [contradiction |].
  assert (Hr : range0 (len (p :: points))
               = 0%Z :: map (fun k => (1 + k)%Z) (range0 (len points))).
  { unfold range0, range, len. cbn [List.length].
    replace (Z.to_nat (Z.of_nat (S (List.length points)) - 0))
      with (S (List.length points)) by lia.
    replace (Z.to_nat (Z.of_nat (List.length points) - 0))
      with (List.length points) by lia.
    cbn [seq map]. f_equal. rewrite <- seq_shift, !map_map.
    apply map_ext. intros k. lia. }
  rewrite Hr. cbn [mapM].
  unfold height_window.
  replace (range (- window) (window + 1)) with (@nil Z).
  2:{ unfold range. replace (Z.to_nat (window + 1 - - window)) with 0%nat by lia.
      reflexivity. }
  cbn [fold_left]. rewrite py_div_zero. reflexivity.
Qed.

Lemma smooth_heights_negative_window_witness :
  (-1 < 0)%Z /\ small_triangle <> []
  /\ _smooth_height_transitions small_triangle (-1) = Raise ZeroDivisionError.
Proof.
  assert (H1 : (-1 < 0)%Z) by lia.
  assert (H2 : small_triangle <> []) by discriminate.
  split; [exact H1 |]. split; [exact H2 |].
  apply (smooth_heights_negative_window small_triangle (-1) H1 H2).
Defined.

Lemma In_map_range (g : Z -> point3) (n : Z) (p : point3) :
  In p (map g (range0 n)) -> exists i, (0 <= i < n)%Z /\ p = g i.
Proof.
  intros H. apply in_map_iff in H. destruct H as [i [E Hi]].
  apply range_In in Hi. exists i. split; [lia | symmetry; exact E].
Qed.

Lemma map_range_len {A : Type} (g : Z -> A) (n : Z) :
  len (map g (range0 n)) = Z.max 0 n.
Proof. unfold len. rewrite length_map. unfold range0. rewrite range_length. lia. Qed.

Lemma unit_circle (a : R) : cos a * cos a + sin a * sin a = 1.
Proof. pose proof (sin2_cos2 a) as H. unfold Rsqr in H. lra. Qed.

Lemma oval_path_value (radius_x radius_y : R) (segments : Z) :
  generate_oval_path radius_x radius_y segments
  = Ok (map (fun i => (radius_x * cos (2 * PI * IZR i / IZR segments),
                       radius_y * sin (2 * PI * IZR i / IZR segments), 0))
          (range0 segments)).
Proof.
  unfold generate_oval_path. apply mapM_pure. intros i Hi.
  apply range_In in Hi.
  rewrite py_div_ok by (apply not_0_IZR; lia). reflexivity.
Qed.

(** X19: [generate_oval_path] never raises; it returns [segments]
    samples (none when [segments] is not positive), all at elevation 0
    and on the ellipse with the half axes [radius_x] and [radius_y],
    starting at [(radius_x, 0)]; the samples of [generate_circle_path]
    are at the distance [radius] from the origin. *)
Theorem oval_path_on_ellipse (radius_x radius_y : R) (segments : Z) :
  exists path,
    generate_oval_path radius_x radius_y segments = Ok path
    /\ len path = Z.max 0 segments
    /\ (forall p, In p path ->
          c2 p = 0
          /\ (radius_y * c0 p) * (radius_y * c0 p)
             + (radius_x * c1 p) * (radius_x * c1 p)
             = (radius_x * radius_y) * (radius_x * radius_y))
    /\ ((1 <= segments)%Z ->
        c0 (item origin path 0) = radius_x /\ c1 (item origin path 0) = 0)
    /\ (radius_x = radius_y ->
        generate_circle_path radius_x segments = Ok path
        /\ forall p, In p path ->
             c0 p * c0 p + c1 p * c1 p = radius_x * radius_x).
Proof.
  eexists. split; [apply oval_path_value |].
  split; [apply map_range_len |].
  split.
  { intros p Hp. apply In_map_range in Hp. destruct Hp as [i [_ ->]].
    unfold c0, c1, c2. cbn [fst snd]. split; [reflexivity |].
    pose proof (unit_circle (2 * PI * IZR i / IZR segments)) as Hu.
    set (c := cos _) in *. set (s := sin _) in *.
    replace (radius_y * (radius_x * c) * (radius_y * (radius_x * c))
             + radius_x * (radius_y * s) * (radius_x * (radius_y * s)))
      with (radius_x * radius_y * (radius_x * radius_y) * (c * c + s * s)) by ring.
    rewrite Hu. ring. }
  split.
  { intros Hs. unfold item, range0, range.
    replace (Z.to_nat (segments - 0)) with (S (Z.to_nat (segments - 1))) by lia.
    cbn [seq map nth]. unfold c0, c1. cbn [fst snd].
    replace (2 * PI * IZR (0 + Z.of_nat 0) / IZR segments) with 0.
    - rewrite cos_0, sin_0. change (Z.to_nat 0) with 0%nat. cbn [fst snd]. split; ring.
    - cbn. unfold Rdiv. ring. }
  intros ->. split; [unfold generate_circle_path; apply oval_path_value |].
  intros p Hp. apply In_map_range in Hp. destruct Hp as [i [_ ->]].
  unfold c0, c1. cbn [fst snd].
  pose proof (unit_circle (2 * PI * IZR i / IZR segments)) as Hu.
  set (c := cos _) in *. set (s := sin _) in *.
  replace (radius_y * c * (radius_y * c) + radius_y * s * (radius_y * s))
    with (radius_y * radius_y * (c * c + s * s)) by ring.
  rewrite Hu. ring.
Qed.

Lemma oval_path_on_ellipse_witness :
  exists path,
    generate_oval_path 25 15 64 = Ok path
    /\ len path = 64%Z
    /\ c0 (item origin path 0) = 25.
Proof.
  destruct (oval_path_on_ellipse 25 15 64) as [path [H [Hl [_ [H0 _]]]]].
  exists path. split; [exact H |]. split; [exact Hl |].
  apply H0. lia.
Defined.

Lemma fraction_range (i n : Z) :
  (0 <= i < n)%Z -> 0 <= IZR i / IZR n < 1.
Proof.
  intros Hi.
  assert (Hn : 0 < IZR n) by (apply IZR_lt; lia).
  assert (H0 : 0 <= IZR i) by (apply IZR_le; lia).
  assert (H1 : IZR i < IZR n) by (apply IZR_lt; lia).
  split.
  - apply Rmult_le_pos; [exact H0 |]. left. apply Rinv_0_lt_compat. exact Hn.
  - apply Rmult_lt_reg_r with (IZR n); [exact Hn |].
    unfold Rdiv. rewrite Rmult_assoc, Rinv_l by lra. lra.
Qed.

Lemma stadium_path_value (length radius : R) (segments_per_curve : Z) :
  let half_length := length / 2 in
  let segments_straight := Z.max 4 (py_int (length / 5)) in
  generate_stadium_path length radius segments_per_curve
  = Ok (map (fun i =>
               let angle := PI / 2 - PI * IZR i / IZR segments_per_curve in
               (half_length + radius * cos angle, radius * sin angle, 0))
            (range0 segments_per_curve)
        ++ map (fun i =>
                  (half_length - length * (IZR i / IZR segments_straight),
                   - radius, 0))
             (range0 segments_straight)
        ++ map (fun i =>
                  let angle := - PI / 2 - PI * IZR i / IZR segments_per_curve in
                  (- half_length + radius * cos angle, radius * sin angle, 0))
             (range0 segments_per_curve)
        ++ map (fun i =>
                  (- half_length + length * (IZR i / IZR segments_straight),
                   radius, 0))
             (range0 segments_straight)).
Proof.
  intros half_length segments_straight. unfold generate_stadium_path.
  fold half_length. fold segments_straight.
  rewrite (mapM_pure _
             (fun i =>
                let angle := PI / 2 - PI * IZR i / IZR segments_per_curve in
                (half_length + radius * cos angle, radius * sin angle, 0))).
  2:{ intros i Hi. apply range_In in Hi.
      rewrite py_div_ok by (apply not_0_IZR; lia). reflexivity. }
  cbn [bind].
  rewrite (mapM_pure _
             (fun i =>
                (half_length - length * (IZR i / IZR segments_straight),
                 - radius, 0))).
  2:{ intros i Hi. apply range_In in Hi.
      rewrite py_div_ok by (apply not_0_IZR; lia). reflexivity. }
  cbn [bind].
  rewrite (mapM_pure _
             (fun i =>
                let angle := - PI / 2 - PI * IZR i / IZR segments_per_curve in
                (- half_length + radius * cos angle, radius * sin angle, 0))).
  2:{ intros i Hi. apply range_In in Hi.
      rewrite py_div_ok by (apply not_0_IZR; lia). reflexivity. }
  cbn [bind].
  rewrite (mapM_pure _
             (fun i =>
                (- half_length + length * (IZR i / IZR segments_straight),
                 radius, 0))).
  2:{ intros i Hi. apply range_In in Hi.
      rewrite py_div_ok by (apply not_0_IZR; lia). reflexivity. }
  reflexivity.
Qed.

(** X20: [generate_stadium_path] never raises; it returns
    [2 * segments_per_curve + 2 * max(4, int(length / 5))] samples at
    elevation 0, each of them on one of the two circles of radius
    [radius] about [(length / 2, 0)] and [(- length / 2, 0)] or on one
    of the two straights [y = - radius] and [y = radius] between the
    centres. *)
Theorem stadium_path_shape (length radius : R) (segments_per_curve : Z) :
  exists path,
    generate_stadium_path length radius segments_per_curve = Ok path
    /\ len path
       = (2 * Z.max 0 segments_per_curve + 2 * Z.max 4 (py_int (length / 5)))%Z
    /\ forall p, In p path ->
         c2 p = 0
         /\ ((c0 p - length / 2) * (c0 p - length / 2) + c1 p * c1 p
             = radius * radius
             \/ (c0 p + length / 2) * (c0 p + length / 2) + c1 p * c1 p
                = radius * radius
             \/ (exists t, 0 <= t < 1
                   /\ c0 p = length / 2 - length * t /\ c1 p = - radius)
             \/ (exists t, 0 <= t < 1
                   /\ c0 p = - (length / 2) + length * t /\ c1 p = radius)).
Proof.
  eexists. split; [apply stadium_path_value |].
  split.
  { unfold len. rewrite !length_app, !length_map. unfold range0.
    rewrite !range_length. lia. }
  intros p Hp.
  apply in_app_or in Hp. destruct Hp as [Hp | Hp].
  { apply In_map_range in Hp. destruct Hp as [i [_ ->]].
    unfold c0, c1, c2. cbn [fst snd]. split; [reflexivity |]. left.
    pose proof (unit_circle (PI / 2 - PI * IZR i / IZR segments_per_curve)) as Hu.
    set (c := cos _) in *. set (s := sin _) in *.
    replace ((length / 2 + radius * c - length / 2)
             * (length / 2 + radius * c - length / 2)
             + radius * s * (radius * s))
      with (radius * radius * (c * c + s * s)) by ring.
    rewrite Hu. ring. }
  apply in_app_or in Hp. destruct Hp as [Hp | Hp].
  { apply In_map_range in Hp. destruct Hp as [i [Hi ->]].
    unfold c0, c1, c2. cbn [fst snd]. split; [reflexivity |].
    right. right. left.
    exists (IZR i / IZR (Z.max 4 (py_int (length / 5)))).
    split; [apply fraction_range; exact Hi |]. split; reflexivity. }
  apply in_app_or in Hp. destruct Hp as [Hp | Hp].
  { apply In_map_range in Hp. destruct Hp as [i [_ ->]].
    unfold c0, c1, c2. cbn [fst snd]. split; [reflexivity |]. right. left.
    pose proof (unit_circle (- PI / 2 - PI * IZR i / IZR segments_per_curve))
      as Hu.
    set (c := cos _) in *. set (s := sin _) in *.
    replace ((- (length / 2) + radius * c + length / 2)
             * (- (length / 2) + radius * c + length / 2)
             + radius * s * (radius * s))
      with (radius * radius * (c * c + s * s)) by ring.
    rewrite Hu. ring. }
  apply In_map_range in Hp. destruct Hp as [i [Hi ->]].
  unfold c0, c1, c2. cbn [fst snd]. split; [reflexivity |].
  right. right. right.
  exists (IZR i / IZR (Z.max 4 (py_int (length / 5)))).
  split; [apply fraction_range; exact Hi |]. split; reflexivity.
Qed.

Lemma stadium_path_shape_witness :
  exists path,
    generate_stadium_path 40 15 16 = Ok path
    /\ (2 * 16 + 2 * 4 <= len path)%Z.
Proof.
  destruct (stadium_path_shape 40 15 16) as [path [H [Hl _]]].
  exists path. split; [exact H |]. rewrite Hl. lia.
Defined.

Lemma figure8_raw_value (a : R) (segments i : Z) :
  (0 <= i < segments)%Z ->
  let t := 2 * PI * IZR i / IZR segments in
  figure8_raw a segments i
  = Ok (a * cos t / (1 + sin t ^ 2), a * sin t * cos t / (1 + sin t ^ 2), t).
Proof.
  intros Hi t. unfold figure8_raw.
  rewrite py_div_ok by (apply not_0_IZR; lia). cbn [bind]. fold t.
  assert (Hd : 1 + sin t ^ 2 <> 0) by (pose proof (pow2_ge_0 (sin t)); lra).
  rewrite !py_div_ok by exact Hd. reflexivity.
Qed.

(** The second pass never divides by zero: the ramp is entered only when
    its width is positive.  The elevation it gives lies between 0 and
    the height of the bridge. *)
Lemma figure8_height_spec (bridge_height cross_zone ramp_zone x y t : R) :
  exists z,
    figure8_height bridge_height cross_zone ramp_zone (x, y, t) = Ok (x, y, z)
    /\ Rmin 0 bridge_height <= z <= Rmax 0 bridge_height.
Proof.
  assert (H0 : Rmin 0 bridge_height <= 0 <= Rmax 0 bridge_height)
    by (split; [apply Rmin_l | apply Rmax_l]).
  assert (Hf : forall f, 0 <= f <= 1 ->
            Rmin 0 bridge_height <= bridge_height * f <= Rmax 0 bridge_height).
  { intros f Hf. unfold Rmin, Rmax.
    destruct (Rle_dec 0 bridge_height); split; nra. }
  unfold figure8_height.
  destruct (Rlt_dec (Rabs x) (cross_zone + ramp_zone)) as [Hin | Hout].
  - destruct (Rlt_dec (Rabs x) cross_zone) as [Hc | Hr]; cbn [bind].
    + destruct (Rlt_dec t PI); eexists; (split; [reflexivity |]).
      * apply Hf. lra.
      * exact H0.
    + rewrite py_div_ok by lra. cbn [bind].
      pose proof (smooth_step_range ((Rabs x - cross_zone) / ramp_zone)) as Hs.
      destruct (Rlt_dec t PI); eexists; (split; [reflexivity |]).
      * apply Hf. lra.
      * exact H0.
  - cbn [bind]. eexists. split; [reflexivity | exact H0].
Qed.

Lemma lemniscate (a t : R) :
  let x := a * cos t / (1 + sin t ^ 2) in
  let y := a * sin t * cos t / (1 + sin t ^ 2) in
  (x * x + y * y) * (x * x + y * y) = a * a * (x * x - y * y).
Proof.
  intros x y. unfold x, y.
  pose proof (unit_circle t) as Hu.
  set (c := cos t) in *. set (s := sin t) in *.
  assert (Hd : 1 + s ^ 2 <> 0) by (pose proof (pow2_ge_0 s); lra).
  assert (E1 : a * c / (1 + s ^ 2) * (a * c / (1 + s ^ 2))
               + a * s * c / (1 + s ^ 2) * (a * s * c / (1 + s ^ 2))
               = a * a * (c * c) / (1 + s ^ 2)) by (field; exact Hd).
  assert (E2 : a * c / (1 + s ^ 2) * (a * c / (1 + s ^ 2))
               - a * s * c / (1 + s ^ 2) * (a * s * c / (1 + s ^ 2))
               = a * a * (c * c) * (1 - s * s) / ((1 + s ^ 2) * (1 + s ^ 2)))
    by (field; exact Hd).
  rewrite E1, E2.
  replace (1 - s * s) with (c * c) by lra.
  field. exact Hd.
Qed.

(** What [generate_figure8_path] returns. *)
Lemma figure8_path_spec (size bridge_height : R) (segments : Z) :
  exists path,
    generate_figure8_path size bridge_height segments = Ok path
    /\ len path = Z.max 0 segments
    /\ forall i, (0 <= i < segments)%Z ->
         let p := item origin path i in
         let a := size * 1.8 in
         (c0 p * c0 p + c1 p * c1 p) * (c0 p * c0 p + c1 p * c1 p)
         = a * a * (c0 p * c0 p - c1 p * c1 p)
         /\ Rmin 0 bridge_height <= c2 p <= Rmax 0 bridge_height.
Proof.
  unfold generate_figure8_path.
  set (a := size * 1.8).
  set (g := fun i : Z =>
              let t := 2 * PI * IZR i / IZR segments in
              (a * cos t / (1 + sin t ^ 2),
               a * sin t * cos t / (1 + sin t ^ 2), t)).
  rewrite (mapM_pure _ g)
    by (intros i Hi; apply range_In in Hi; apply figure8_raw_value; lia).
  cbn [bind].
  assert (Hpts : exists points,
            mapM (figure8_height bridge_height (a * 0.4) (a * 0.3))
              (map g (range0 segments)) = Ok points
            /\ List.length points = List.length (range0 segments)
            /\ forall k, (k < List.length (range0 segments))%nat ->
                 xy (nth k points origin)
                 = (fst (fst (g (nth k (range0 segments) 0%Z))),
                    snd (fst (g (nth k (range0 segments) 0%Z))))
                 /\ Rmin 0 bridge_height <= c2 (nth k points origin)
                    <= Rmax 0 bridge_height).
  { induction (range0 segments) as [| i l IH].
    - exists []. split; [reflexivity |]. split; [reflexivity |].
      intros k Hk. cbn in Hk. lia.
    - cbn [map mapM].
      destruct (g i) as [[x y] t] eqn:Eg.
      destruct (figure8_height_spec bridge_height (a * 0.4) (a * 0.3) x y t)
        as [z [Hz Hb]].
      rewrite Hz. cbn [bind].
      destruct IH as [points [Hp [Hl Hk]]].
      rewrite Hp. cbn [bind]. exists ((x, y, z) :: points).
      split; [reflexivity |]. split; [cbn [List.length]; lia |].
      intros [| k] Hlt; cbn [nth].
      + rewrite Eg. cbn [fst snd]. split; [reflexivity | exact Hb].
      + apply Hk. cbn [List.length] in Hlt. lia. }
  destruct Hpts as [points [Hp [Hl Hk]]]. rewrite Hp. cbn [bind].
  assert (Hlen : len points = Z.max 0 segments).
  { unfold len. rewrite Hl. unfold range0. rewrite range_length. lia. }
  destruct (smooth_heights_spec points 8 ltac:(lia)) as [path [Hs [Hsl Hsi]]].
  exists path. split; [exact Hs |].
  split; [rewrite Hsl; exact Hlen |].
  intros i Hi. cbv zeta. set (p := item origin path i).
  destruct (Hsi i ltac:(lia)) as [Hxy Hz].
  assert (Hki : (Z.to_nat i < List.length (range0 segments))%nat)
    by (unfold range0; rewrite range_length; lia).
  destruct (Hk (Z.to_nat i) Hki) as [Hxy' _].
  unfold range0 in Hxy'. rewrite range_nth in Hxy' by lia.
  replace (0 + Z.of_nat (Z.to_nat i))%Z with i in Hxy' by lia.
  fold (item origin points i) in Hxy'. rewrite <- Hxy in Hxy'.
  unfold xy in Hxy'. injection Hxy' as E0 E1.
  split.
  - fold p in E0, E1. rewrite E0, E1. unfold g. cbn [fst snd].
    apply lemniscate.
  - apply Hz. intros q Hq.
    destruct (In_nth points q origin Hq) as [k [Hk1 <-]].
    apply Hk. lia.
Qed.

(** X21: [generate_figure8_path] never raises, whatever the size, the
    bridge height and the number of segments; it returns [segments]
    samples (none when [segments] is not positive); every sample lies on
    the lemniscate [(x^2 + y^2)^2 = a^2 (x^2 - y^2)] with
    [a = 1.8 * size], and its elevation is between 0 and the height of
    the bridge, so that the path is flat for the bridge height 0. *)
Theorem figure8_path_shape (size bridge_height : R) (segments : Z) :
  exists path,
    generate_figure8_path size bridge_height segments = Ok path
    /\ len path = Z.max 0 segments
    /\ (forall i, (0 <= i < segments)%Z ->
         let p := item origin path i in
         let a := size * 1.8 in
         (c0 p * c0 p + c1 p * c1 p) * (c0 p * c0 p + c1 p * c1 p)
         = a * a * (c0 p * c0 p - c1 p * c1 p)
         /\ Rmin 0 bridge_height <= c2 p <= Rmax 0 bridge_height)
    /\ (bridge_height = 0 -> forall p, In p path -> c2 p = 0).
Proof.
  destruct (figure8_path_spec size bridge_height segments) as [path [Hp [Hl Hi]]].
  exists path. split; [exact Hp |]. split; [exact Hl |].
  split; [exact Hi |].
  intros Hflat p Hin.
  destruct (In_nth path p origin Hin) as [k [Hk <-]].
  assert (Hk' : (0 <= Z.of_nat k < segments)%Z) by (unfold len in Hl; lia).
  destruct (Hi (Z.of_nat k) Hk') as [_ Hz]. cbv zeta in Hz.
  unfold item in Hz. rewrite Nat2Z.id in Hz.
  rewrite Hflat, Rmin_left, Rmax_left in Hz by lra.
  apply Rle_antisym; apply Hz.
Qed.

Lemma figure8_path_shape_witness :
  exists path,
    generate_figure8_path 20 0 96 = Ok path
    /\ len path = 96%Z
    /\ c2 (item origin path 0) = 0.
Proof.
  destruct (figure8_path_shape 20 0 96) as [path [H [Hl [_ Hflat]]]].
  exists path. split; [exact H |]. split; [exact Hl |].
  apply (Hflat eq_refl). unfold item. apply nth_In.
  unfold len in Hl. change (Z.to_nat 0) with 0%nat. lia.
Defined.

End PresetExtras.

(* ------------------------------------------------------------------ *)

Module RingExtras.

Import Mesh Presets Vocabulary Notions MeshFacts Inputs.







Lemma ring_profile_length orx ory irx iry height segments i :
  List.length (ring_profile orx ory irx iry height segments i) = 4%nat.
Proof. reflexivity. Qed.






End RingExtras.

(* ------------------------------------------------------------------ *)

Module TemplateExtras.

Import Mesh Synth Conditioner Pipeline Presets Vocabulary Notions
  ResampleFacts PipelineFacts SynthFacts SynthExtras PresetExtras Inputs.

Lemma custom_track_pipeline (name : string) (waypoints : list point2)
  (location : point3) (height_profile : option (list R))
  (track_width track_thickness barrier_height barrier_width : R)
  (include_barriers : bool) (segments_per_section : Z) :
  create_custom_track name waypoints location height_profile track_width
    track_thickness barrier_height barrier_width include_barriers
    segments_per_section
  = (path <- generate_custom_path waypoints height_profile
               segments_per_section true ;;
     create_track_from_path name path track_width track_thickness
       barrier_height barrier_width include_barriers location true).
Proof.
  unfold create_custom_track, create_track_from_path.
  destruct location as [[x y] z]. reflexivity.
Qed.

Lemma figure8_track_pipeline (name : string) (location : point3)
  (size track_width track_thickness bridge_height barrier_height
   barrier_width : R) (include_barriers : bool) (segments : Z) :
  create_figure8_track name location size track_width track_thickness
    bridge_height barrier_height barrier_width include_barriers segments
  = (path <- generate_figure8_path size bridge_height segments ;;
     create_track_from_path name path track_width track_thickness
       barrier_height barrier_width include_barriers location true).
Proof.
  unfold create_figure8_track, create_track_from_path.
  destruct location as [[x y] z]. reflexivity.
Qed.

(** X24: the two path templates are the generic pipeline run on a
    generated path: [create_custom_track] is [generate_custom_path]
    (with adaptive subdivision) followed by [create_track_from_path]
    with resampling, and [create_figure8_track] is
    [generate_figure8_path] followed by the same; an exception of the
    generator is passed on. *)
Theorem templates_run_the_pipeline (name : string) (location : point3)
  (track_width track_thickness barrier_height barrier_width : R)
  (include_barriers : bool) :
  (forall waypoints height_profile segments_per_section,
     create_custom_track name waypoints location height_profile track_width
       track_thickness barrier_height barrier_width include_barriers
       segments_per_section
     = (path <- generate_custom_path waypoints height_profile
                  segments_per_section true ;;
        create_track_from_path name path track_width track_thickness
          barrier_height barrier_width include_barriers location true))
  /\ (forall size bridge_height segments,
        create_figure8_track name location size track_width track_thickness
          bridge_height barrier_height barrier_width include_barriers segments
        = (path <- generate_figure8_path size bridge_height segments ;;
           create_track_from_path name path track_width track_thickness
             barrier_height barrier_width include_barriers location true)).
Proof.
  split; intros.
  - apply custom_track_pipeline.
  - apply figure8_track_pipeline.
Qed.

(** The generated path has a sample or more per control point and
    segment. *)
Lemma custom_path_length (waypoints : list point2)
  (height_profile : option (list R)) (segments : Z) (adaptive : bool) :
  (3 <= len waypoints)%Z ->
  (1 <= segments)%Z ->
  match height_profile with
  | None => True
  | Some h => len h = len waypoints
  end ->
  exists path,
    generate_custom_path waypoints height_profile segments adaptive = Ok path
    /\ (len waypoints * segments <= len path)%Z.
Proof.
  intros Hn Hs Hh. unfold generate_custom_path.
  destruct (len waypoints <? 3)%Z eqn:Hlt; [apply Z.ltb_lt in Hlt; lia |].
  set (hs := match height_profile with
             | None => repeat 0 (Z.to_nat (len waypoints))
             | Some h => h
             end).
  assert (Hhs : len hs = len waypoints).
  { unfold hs. destruct height_profile as [h |]; [exact Hh |].
    unfold len. rewrite repeat_length. unfold len. lia. }
  rewrite (foldM_append_sections
             (section_points waypoints hs (len waypoints) segments adaptive)).
  destruct (sections_spec waypoints hs segments adaptive Hn Hhs Hs)
    as [secs [Hsecs [Hl Hk]]].
  rewrite Hsecs. cbn [bind app]. eexists. split; [reflexivity |].
  assert (Hb : (Z.to_nat segments * List.length secs
                <= List.length (List.concat secs)
                <= 3 * Z.to_nat segments * List.length secs)%nat).
  { apply concat_length_bounds. intros sec Hin.
    destruct (In_nth secs sec [] Hin) as [k [Hk1 Hk2]]. subst sec.
    destruct (Hk k ltac:(lia)) as [_ [H2 _]]. lia. }
  unfold len in *. nia.
Qed.

(** X25: on three control points or more, with one segment or more per
    section, no height profile or one height per control point, and a
    track width that is not 0, [create_custom_track] returns the
    roadway alone, or the roadway with its outer and inner barrier. *)
Theorem custom_track_returns (name : string) (waypoints : list point2)
  (location : point3) (height_profile : option (list R))
  (track_width track_thickness barrier_height barrier_width : R)
  (include_barriers : bool) (segments_per_section : Z) :
  (3 <= len waypoints)%Z ->
  (1 <= segments_per_section)%Z ->
  match height_profile with
  | None => True
  | Some h => len h = len waypoints
  end ->
  track_width <> 0 ->
  exists objects,
    create_custom_track name waypoints location height_profile track_width
      track_thickness barrier_height barrier_width include_barriers
      segments_per_section = Ok objects
    /\ List.length objects = (if include_barriers then 3 else 1)%nat.
Proof.
  intros Hn Hs Hh Hw. rewrite custom_track_pipeline.
  destruct (custom_path_length waypoints height_profile segments_per_section
              true Hn Hs Hh) as [path [Hp Hl]].
  rewrite Hp. cbn [bind].
  apply pipeline_total; [nia | exact Hw].
Qed.

Lemma custom_track_returns_witness :
  (3 <= len ([(0, 0); (30, 20); (30, -20)]%R : list point2))%Z /\ (1 <= 16)%Z
  /\ 6 <> 0
  /\ exists objects,
       create_custom_track "Triangle" [(0, 0); (30, 20); (30, -20)] (0, 0, 0)
         None 6 0.3 0.6 0.12 true 16 = Ok objects
       /\ List.length objects = 3%nat.
Proof.
  assert (H3 : (3 <= len ([(0, 0); (30, 20); (30, -20)]%R : list point2))%Z)
    by (unfold len; cbn; lia).
  assert (H1 : (1 <= 16)%Z) by lia.
  assert (H6 : 6 <> 0) by lra.
  split; [exact H3 |]. split; [exact H1 |]. split; [exact H6 |].
  apply (custom_track_returns "Triangle" [(0, 0); (30, 20); (30, -20)] (0, 0, 0)
           None 6 0.3 0.6 0.12 true 16 H3 H1 I H6).
Defined.

Lemma py_int_nonpos (x : R) : x <= 0 -> (py_int x <= 0)%Z.
Proof.
  intros Hx. unfold py_int. destruct (Rle_dec 0 x) as [H0 | H0].
  - assert (x = 0) by lra. subst x.
    destruct (base_Int_part 0) as [H1 H2].
    apply le_IZR. lra.
  - destruct (base_Int_part (- x)) as [H1 H2].
    assert (0 <= Int_part (- x))%Z.
    { apply Z.lt_succ_r. apply lt_IZR. rewrite succ_IZR. lra. }
    lia.
Qed.

Lemma range0_nonpos (n : Z) : (n <= 0)%Z -> range0 n = [].
Proof.
  intros H. unfold range0, range.
  replace (Z.to_nat (n - 0)) with 0%nat by lia. reflexivity.
Qed.

(** Without a positive number of segments every section is empty. *)
Lemma empty_sections (waypoints : list point2) (segments : Z) (l : list Z) :
  (0 < len waypoints)%Z -> (segments <= 0)%Z ->
  (forall i, In i l -> (0 <= i < len waypoints)%Z) ->
  mapM (section_points waypoints (repeat 0 (Z.to_nat (len waypoints)))
          (len waypoints) segments true) l
  = Ok (map (fun _ => []) l).
Proof.
  intros Hn Hs Hl. apply mapM_pure. intros i Hi. specialize (Hl i Hi).
  unfold section_points.
  assert (Hlen : len (repeat 0 (Z.to_nat (len waypoints))) = len waypoints).
  { unfold len. rewrite repeat_length. unfold len. lia. }
  assert (Hm : forall k, (0 <= k mod len waypoints
                          < len (repeat 0%R (Z.to_nat (len waypoints))))%Z).
  { intros k. rewrite Hlen. apply Z.mod_pos_bound. exact Hn. }
  rewrite !(getitem_item 0) by (try apply Hm; rewrite Hlen; exact Hl).
  cbn [bind].
  match goal with
  | |- context [_estimate_section_curvature ?a ?b ?c ?d] =>
      destruct (estimate_range a b c d) as [cv [Hc Hr]]; rewrite Hc
  end.
  cbn [bind].
  rewrite range0_nonpos; [reflexivity |].
  apply py_int_nonpos.
  assert (H1 : 0 < Rmin 3 (1 + cv * 2)) by (apply Rmin_glb_lt; lra).
  assert (H2 : IZR segments <= 0) by (apply IZR_le; exact Hs).
  nra.
Qed.

Lemma concat_empty {A B : Type} (l : list A) :
  List.concat (map (fun _ => @nil B) l) = [].
Proof. induction l as [| a l IH]; [reflexivity | exact IH]. Qed.

(** X26: what [create_custom_track] rejects.  Fewer than three control
    points raise the ValueError of the path generator.  A number of
    segments per section that is not positive is not rejected as such:
    on three control points or more without a height profile the
    generator returns the empty path, and the call ends in the
    ValueError of the roadway builder about a path of fewer than three
    samples -- also for the track width 0. *)
Theorem custom_track_rejections (name : string) (waypoints : list point2)
  (location : point3) (height_profile : option (list R))
  (track_width track_thickness barrier_height barrier_width : R)
  (include_barriers : bool) (segments_per_section : Z) :
  ((len waypoints < 3)%Z ->
   create_custom_track name waypoints location height_profile track_width
     track_thickness barrier_height barrier_width include_barriers
     segments_per_section
   = Raise (ValueError "至少需要3个控制点"))
  /\ ((3 <= len waypoints)%Z -> (segments_per_section <= 0)%Z ->
      generate_custom_path waypoints None segments_per_section true = Ok []
      /\ create_custom_track name waypoints location None track_width
           track_thickness barrier_height barrier_width include_barriers
           segments_per_section
         = Raise (ValueError "路径至少需要3个点")).
Proof.
  split.
  - intros Hn. rewrite custom_track_pipeline.
    rewrite generate_rejects_short by exact Hn. reflexivity.
  - intros Hn Hs.
    assert (Hp : generate_custom_path waypoints None segments_per_section true
                 = Ok []).
    { unfold generate_custom_path.
      destruct (len waypoints <? 3)%Z eqn:Hlt; [apply Z.ltb_lt in Hlt; lia |].
      rewrite (foldM_append_sections
                 (section_points waypoints (repeat 0 (Z.to_nat (len waypoints)))
                    (len waypoints) segments_per_section true)).
      rewrite empty_sections;
        [| lia | exact Hs | intros i Hi; apply range_In in Hi; lia].
      cbn [bind app]. rewrite concat_empty. reflexivity. }
    split; [exact Hp |].
    rewrite custom_track_pipeline, Hp. cbn [bind].
    apply pipeline_short. unfold len. cbn. lia.
Qed.

Lemma custom_track_rejections_witness :
  create_custom_track "Two" [(0, 0); (30, 20)] (0, 0, 0) None 6 0.3 0.6 0.12
    true 16
  = Raise (ValueError "至少需要3个控制点")
  /\ create_custom_track "Triangle" [(0, 0); (30, 20); (30, -20)] (0, 0, 0)
       None 6 0.3 0.6 0.12 true 0
     = Raise (ValueError "路径至少需要3个点").
Proof.
  split.
  - apply (custom_track_rejections "Two" [(0, 0); (30, 20)] (0, 0, 0) None
             6 0.3 0.6 0.12 true 16).
    unfold len. cbn. lia.
  - apply (custom_track_rejections "Triangle" [(0, 0); (30, 20); (30, -20)]
             (0, 0, 0) None 6 0.3 0.6 0.12 true 0);
      [unfold len; cbn; lia | lia].
Defined.

(** X27: [create_figure8_track] with three segments or more and a
    track width that is not 0 returns the roadway alone, or the roadway
    with its two barriers, whatever the size and the bridge height;
    with fewer than three segments it raises the ValueError of the
    roadway builder about a path of fewer than three samples. *)
Theorem figure8_track_returns (name : string) (location : point3)
  (size track_width track_thickness bridge_height barrier_height
   barrier_width : R) (include_barriers : bool) (segments : Z) :
  ((3 <= segments)%Z -> track_width <> 0 ->
   exists objects,
     create_figure8_track name location size track_width track_thickness
       bridge_height barrier_height barrier_width include_barriers segments
     = Ok objects
     /\ List.length objects = (if include_barriers then 3 else 1)%nat)
  /\ ((segments < 3)%Z ->
      create_figure8_track name location size track_width track_thickness
        bridge_height barrier_height barrier_width include_barriers segments
      = Raise (ValueError "路径至少需要3个点")).
Proof.
  destruct (figure8_path_spec size bridge_height segments) as [path [Hp [Hl _]]].
  rewrite figure8_track_pipeline, Hp. cbn [bind].
  split.
  - intros Hs Hw. apply pipeline_total; [lia | exact Hw].
  - intros Hs. apply pipeline_short. lia.
Qed.

Lemma figure8_track_returns_witness :
  (exists objects,
     create_figure8_track "Figure8" (0, 0, 0) 20 6 0.3 4 0.6 0.12 true 96
     = Ok objects
     /\ List.length objects = 3%nat)
  /\ create_figure8_track "Figure8" (0, 0, 0) 20 6 0.3 4 0.6 0.12 true 2
     = Raise (ValueError "路径至少需要3个点").
Proof.
  split.
  - apply (figure8_track_returns "Figure8" (0, 0, 0) 20 6 0.3 4 0.6 0.12 true 96);
      [lia | lra].
  - apply (figure8_track_returns "Figure8" (0, 0, 0) 20 6 0.3 4 0.6 0.12 true 2).
    lia.
Defined.

End TemplateExtras.

(* ------------------------------------------------------------------ *)

Module PipelineExtras.

Import Corridor Frame Mesh Synth Conditioner Pipeline Vocabulary Notions
  MeshFacts TrackMesh BarrierMesh RelaxFacts ResampleFacts PipelineFacts
  SynthExtras MeshExtras Inputs.

(** X28: the curvature estimate of a section never raises and lies
    between 0 and 1, so that the factor by which adaptive subdivision
    multiplies the number of segments of the section lies between 1
    and 3. *)
Theorem section_curvature_bounded (p0 p1 p2 p3 : point2) :
  exists curvature,
    _estimate_section_curvature p0 p1 p2 p3 = Ok curvature
    /\ 0 <= curvature <= 1
    /\ 1 <= Rmin 3 (1 + curvature * 2) <= 3.
Proof.
  destruct (estimate_range p0 p1 p2 p3) as [c [Hc Hr]].
  exists c. split; [exact Hc |]. split; [exact Hr |].
  split; [apply Rmin_glb; lra | apply Rmin_l].
Qed.

(** A mesh stitched by either builder on three samples or more. *)
Lemma stitched_object_well_formed (obj : object) (n : nat) (vs : list point3) :
  (3 <= n)%nat ->
  verts (obj_mesh obj) = vs -> List.length vs = (4 * n)%nat ->
  faces (obj_mesh obj)
  = flat_map (stitch_quads (map (section_ids 0) (seq 0 n)) (Z.of_nat n))
      (range0 (Z.of_nat n)) ->
  faces_well_formed (obj_mesh obj).
Proof.
  intros Hn Hv Hl Hf. rewrite (mesh_eta (obj_mesh obj)), Hv, Hf.
  apply stitched_faces_well_formed; assumption.
Qed.

(** X29: on a path of three samples or more and a track width that is
    not 0, every mesh that [create_track_from_path] returns -- the
    roadway and, with barriers, the outer and the inner barrier, named
    after the track -- has faces the mesh library accepts (quads of
    four different vertices, none made twice), and with resampling
    each of them has 400 vertices or more. *)
Theorem pipeline_meshes_well_formed (name : string) (path : list point3)
  (track_width track_thickness barrier_height barrier_width : R)
  (include_barriers : bool) (location : point3) (resample : bool) :
  (3 <= len path)%Z ->
  track_width <> 0 ->
  exists objects,
    create_track_from_path name path track_width track_thickness
      barrier_height barrier_width include_barriers location resample
    = Ok objects
    /\ map obj_name objects
       = (if include_barriers
          then [name ++ "_Surface"; name ++ "_Outer_Barrier";
                name ++ "_Inner_Barrier"]
          else [name ++ "_Surface"])%string
    /\ forall obj, In obj objects ->
         faces_well_formed (obj_mesh obj)
         /\ (resample = true ->
             (400 <= List.length (verts (obj_mesh obj)))%nat).
Proof.
  intros Hn Hw. unfold create_track_from_path.
  destruct location as [[x y] z].
  assert (Hres : exists p1,
    (if resample then _resample_path_uniform path (Some (track_width / 3)) 100
     else Ok path) = Ok p1 /\ (3 <= len p1)%Z
    /\ (resample = true -> (100 <= len p1)%Z)).
  { destruct resample.
    - destruct (resample_pipeline path track_width Hn Hw) as [r [H1 H2]].
      exists r. split; [exact H1 |]. split; [lia | intros _; exact H2].
    - exists path. split; [reflexivity |]. split; [exact Hn | discriminate]. }
  destruct Hres as [p1 [Hp1 [Hl1 Hr1]]]. rewrite Hp1. cbn [bind].
  destruct (limit_total p1 track_width 50 Hw) as [p2 [Hp2 Hl2]].
  rewrite Hp2. cbn [bind].
  match goal with |- context [map ?f p2] => set (offset_path := map f p2) end.
  assert (Hlo : len offset_path = len p1).
  { unfold offset_path. rewrite map_len. exact Hl2. }
  assert (Hl3 : (3 <= len offset_path)%Z) by (rewrite Hlo; exact Hl1).
  set (n := @List.length point3 offset_path).
  assert (Hln : len offset_path = Z.of_nat n) by reflexivity.
  assert (Hn3 : (3 <= n)%nat) by lia.
  assert (Hn100 : resample = true -> (400 <= 4 * n)%nat).
  { intros Hr. specialize (Hr1 Hr). lia. }
  destruct (track_mesh_spec (name ++ "_Surface") offset_path track_width
              track_thickness true Hl3)
    as [tg [rd [sf [_ [_ [Hsf [Hsn [Hsv Hsfc]]]]]]]].
  rewrite Hsf. cbn [bind].
  assert (Hsl : List.length (verts (obj_mesh sf)) = (4 * n)%nat).
  { rewrite Hsv, (length_flat_map_chunks _ 4), enumerate_length by reflexivity.
    reflexivity. }
  assert (Hsw : faces_well_formed (obj_mesh sf)).
  { apply (stitched_object_well_formed sf n _ Hn3 eq_refl Hsl). exact Hsfc. }
  destruct include_barriers.
  - destruct (barrier_mesh_spec (name ++ "_Outer_Barrier") offset_path
                (track_width / 2 + barrier_width / 2) barrier_width
                barrier_height track_thickness (Some (track_width / 2)) true)
      as [t1 [a1 [o1 [_ [Ho1 [Hn1 [Hv1 Hf1]]]]]]].
    rewrite Ho1. cbn [bind].
    destruct (barrier_mesh_spec (name ++ "_Inner_Barrier") offset_path
                (- (track_width / 2 + barrier_width / 2)) barrier_width
                barrier_height track_thickness (Some (track_width / 2)) true)
      as [t2 [a2 [o2 [_ [Ho2 [Hn2 [Hv2 Hf2]]]]]]].
    rewrite Ho2. cbn [bind app].
    assert (Hl1' : List.length (verts (obj_mesh o1)) = (4 * n)%nat).
    { rewrite Hv1, (length_flat_map_chunks _ 4), enumerate_length by reflexivity.
      reflexivity. }
    assert (Hl2' : List.length (verts (obj_mesh o2)) = (4 * n)%nat).
    { rewrite Hv2, (length_flat_map_chunks _ 4), enumerate_length by reflexivity.
      reflexivity. }
    exists [sf; o1; o2]. split; [reflexivity |].
    split; [cbn [map]; rewrite Hsn, Hn1, Hn2; reflexivity |].
    intros obj [<- | [<- | [<- | []]]].
    + split; [exact Hsw | rewrite Hsl; exact Hn100].
    + split; [| rewrite Hl1'; exact Hn100].
      apply (stitched_object_well_formed o1 n _ Hn3 eq_refl Hl1'). exact Hf1.
    + split; [| rewrite Hl2'; exact Hn100].
      apply (stitched_object_well_formed o2 n _ Hn3 eq_refl Hl2'). exact Hf2.
  - exists [sf]. split; [reflexivity |].
    split; [cbn [map]; rewrite Hsn; reflexivity |].
    intros obj [<- | []].
    split; [exact Hsw | rewrite Hsl; exact Hn100].
Qed.

Lemma pipeline_meshes_well_formed_witness :
  (3 <= len square)%Z /\ 6 <> 0
  /\ exists objects,
       create_track_from_path "Track" square 6 0.5 1 0.5 true (0, 0, 0) true
       = Ok objects
       /\ forall obj, In obj objects ->
            faces_well_formed (obj_mesh obj)
            /\ (400 <= List.length (verts (obj_mesh obj)))%nat.
Proof.
  assert (H3 : (3 <= len square)%Z) by (unfold len; cbn; lia).
  assert (H6 : 6 <> 0) by lra.
  split; [exact H3 |]. split; [exact H6 |].
  destruct (pipeline_meshes_well_formed "Track" square 6 0.5 1 0.5 true (0, 0, 0)
              true H3 H6) as [objs [H [_ Hw]]].
  exists objs. split; [exact H |].
  intros obj Hin. destruct (Hw obj Hin) as [H1 H2].
  split; [exact H1 | apply H2; reflexivity].
Defined.

End PipelineExtras.
